(** * Mindoof: question selection and the quiz session of [app.py]

    A shallow embedding of the selection algorithm
    ([_difficulty_score], [select_balanced_questions]), of the quiz
    flow ([show_quiz], [reset_quiz], the start of a test in
    [show_test_config], the de-duplication of [show_dashboard] and
    [_start_quiz_from_wrong]) and of the option buttons of
    [show_test_editor], followed by the properties of the design
    document that concern them and by further properties of the code.

    Conventions.
    - Python integers are [Z]; list positions and lengths are [nat].
    - Python floats are read as the rationals they approximate ([Q]);
      [0.5] is [1#2] and [a / b] is the exact quotient.
    - [random] is an explicit stream of raw draws, threaded through every
      function that shuffles; statements quantify over all streams.
    - The Streamlit session store, the calls made to [db] and the widgets
      written to the page are fields of an explicit [World]. *)

From Stdlib Require Import ZArith QArith Lia.
From stdpp Require Import base gmap strings list sorting pretty.

Local Open Scope Z_scope.

(** ** Data *)

(** A question row, as the dictionaries read by [app.py]:
    [q["id"]], [q["tag"]], [q["question"]], [q["options"]],
    [q["answer_index"]], [q["explanation"]]. *)
Record Question := {
  q_id : Z;
  q_tag : string;
  q_question : string;
  q_options : list string;
  q_answer_index : Z;
  q_explanation : string
}.

#[global] Instance Question_eq_dec : EqDecision Question.
Proof. solve_decision. Defined.

(** A value of [question_stats]: [stats["correct"]], [stats["wrong"]]. *)
Record AnswerStat := {
  correct : Z;
  wrong : Z
}.

(** ** The random source *)

(** The draws still to come.  [randbelow n] is the next draw reduced
    modulo [n]; an exhausted stream keeps answering [0]. *)
Definition Rng := list nat.

Definition randbelow (n : nat) (g : Rng) : nat * Rng :=
  match g with
  | [] => (0%nat, [])
  | r :: g' => ((r mod n)%nat, g')
  end.

(** [x[i], x[j] = x[j], x[i]] *)
Definition swap {A} (x : list A) (i j : nat) : list A :=
  match x !! i, x !! j with
  | Some a, Some b => <[j:=a]> (<[i:=b]> x)
  | _, _ => x
  end.

(** [random.shuffle(x)]:
    [for i in reversed(range(1, len(x))): j = randbelow(i + 1); swap].
    [shuffle_from i] runs the iterations [i, i-1, ..., 1]. *)
Fixpoint shuffle_from {A} (i : nat) (x : list A) (g : Rng) : list A * Rng :=
  match i with
  | O => (x, g)
  | S i' =>
      let '(j, g') := randbelow (S i) g in
      shuffle_from i' (swap x i j) g'
  end.

Definition shuffle {A} (x : list A) (g : Rng) : list A * Rng :=
  shuffle_from (length x - 1) x g.

(** ** Difficulty score (app.py, lines 48-56) *)

Definition _difficulty_score (q : Question) (question_stats : gmap Z AnswerStat) : Q :=
  match question_stats !! q_id q with
  | None => 1 # 2
  | Some stats =>
      let total := correct stats + wrong stats in
      if decide (total = 0) then 1 # 2
      else (inject_Z (wrong stats) / inject_Z total)%Q
  end.

(** ** Outcomes *)

(** What a piece of Python can end with besides a value.  [Rerun] stands
    for the exception by which [st.rerun()] stops the script. *)
Inductive PyExn :=
  | IndexError | KeyError | ValueError | ZeroDivisionError | AttributeError
  | Rerun.

Inductive Res (A : Type) :=
  | Ok (a : A)
  | Raise (e : PyExn)
  | OutOfFuel.
Arguments Ok {A} a.
Arguments Raise {A} e.
Arguments OutOfFuel {A}.

(** ** Balanced selection (app.py, lines 59-101) *)

(** [l.sort(key=key, reverse=True)]: a stable sort, largest key first;
    equal keys keep their order. *)
Fixpoint insert_desc (key : Question → Q) (q : Question) (l : list Question) : list Question :=
  match l with
  | [] => [q]
  | y :: l' =>
      if Qlt_le_dec (key q) (key y) then y :: insert_desc key q l' else q :: l
  end.

Definition sort_desc (key : Question → Q) (l : list Question) : list Question :=
  foldr (insert_desc key) [] l.

(** [questions_by_tag]: a dictionary, kept in insertion order. *)
Definition TagDict := list (string * list Question).

Fixpoint dict_get (tag : string) (d : TagDict) : option (list Question) :=
  match d with
  | [] => None
  | (t, qs) :: d' => if decide (t = tag) then Some qs else dict_get tag d'
  end.

Fixpoint dict_set (tag : string) (v : list Question) (d : TagDict) : TagDict :=
  match d with
  | [] => [(tag, v)]
  | (t, qs) :: d' =>
      if decide (t = tag) then (t, v) :: d' else (t, qs) :: dict_set tag v d'
  end.

(** Lines 70-75: one pass over [filtered], appending to the tag's list. *)
Definition group_step (d : TagDict) (q : Question) : TagDict :=
  match dict_get (q_tag q) d with
  | None => dict_set (q_tag q) [q] d
  | Some qs => dict_set (q_tag q) (qs ++ [q]) d
  end.

Definition group_by_tag (filtered : list Question) : TagDict :=
  foldl group_step [] filtered.

(** [if question_stats:] is false for [None] and for the empty dictionary. *)
Definition stats_given (question_stats : option (gmap Z AnswerStat)) : option (gmap Z AnswerStat) :=
  match question_stats with
  | Some m => if decide (m = ∅) then None else Some m
  | None => None
  end.

(** Lines 77-84, in the dictionary's order. *)
Fixpoint order_groups (question_stats : option (gmap Z AnswerStat))
    (d : TagDict) (g : Rng) : TagDict * Rng :=
  match d with
  | [] => ([], g)
  | (t, qs) :: d' =>
      let '(qs', g1) :=
        match stats_given question_stats with
        | Some m => (sort_desc (λ q, _difficulty_score q m) qs, g)
        | None => shuffle qs g
        end in
      let '(d'', g2) := order_groups question_stats d' g1 in
      ((t, qs') :: d'', g2)
  end.

(** [tag_list.remove(tag)] *)
Fixpoint list_remove (tag : string) (l : list string) : Res (list string) :=
  match l with
  | [] => Raise ValueError
  | t :: l' =>
      if decide (t = tag) then Ok l'
      else match list_remove tag l' with
           | Ok r => Ok (t :: r)
           | e => e
           end
  end.

(** Lines 90-98.  Each turn of the [while] uses one unit of fuel. *)
Fixpoint round_robin (fuel : nat) (num_questions : Z) (selected : list Question)
    (tag_list : list string) (tag_index : nat) (questions_by_tag : TagDict)
    : Res (list Question) :=
  if decide (Z.of_nat (length selected) < num_questions) then
    match fuel with
    | O => OutOfFuel
    | S fuel' =>
        match tag_list with
        | [] => Raise ZeroDivisionError
        | _ :: _ =>
          match tag_list !! (tag_index mod length tag_list)%nat with
          | None => Raise IndexError
          | Some tag =>
              match dict_get tag questions_by_tag with
              | None => Raise KeyError
              | Some (q :: rest) =>
                  round_robin fuel' num_questions (selected ++ [q]) tag_list
                              (S tag_index) (dict_set tag rest questions_by_tag)
              | Some [] =>
                  match list_remove tag tag_list with
                  | Ok [] => Ok selected
                  | Ok tag_list' =>
                      round_robin fuel' num_questions selected tag_list'
                                  (S tag_index) questions_by_tag
                  | Raise e => Raise e
                  | OutOfFuel => OutOfFuel
                  end
              end
          end
        end
    end
  else Ok selected.

Definition select_balanced_questions (questions : list Question)
    (selected_tags : list string) (num_questions : Z)
    (question_stats : option (gmap Z AnswerStat)) (g : Rng)
    : Res (list Question) * Rng :=
  let filtered := filter (λ q, q_tag q ∈ selected_tags) questions in
  if decide (filtered = []) then (Ok [], g)
  else if decide (Z.of_nat (length filtered) ≤ num_questions) then
    let '(l, g') := shuffle filtered g in (Ok l, g')
  else
    let '(questions_by_tag, g1) :=
      order_groups question_stats (group_by_tag filtered) g in
    let tag_list := questions_by_tag.*1 in
    match round_robin (length filtered + length tag_list) num_questions []
                      tag_list 0 questions_by_tag with
    | Ok selected => let '(l, g2) := shuffle selected g1 in (Ok l, g2)
    | Raise e => (Raise e, g1)
    | OutOfFuel => (OutOfFuel, g1)
    end.

(** ** The session store, the page and the collaborators *)

(** An entry of [round_history]. *)
Record RoundResult := {
  r_round : Z;
  r_score : Z;
  r_total : Z;
  r_wrong : list Question
}.

(** The quiz keys of [st.session_state] that [show_quiz] reads.  Both
    places that start a quiz assign every one of them except
    [session_score_saved], which [show_test_config] leaves as it is:
    [None] is the missing key.  ([show_result] is assigned and never
    read; [quiz_started] is the presence of the record in the [World].) *)
Record Quiz := {
  questions : list Question;
  current_index : nat;
  answered : bool;
  score : Z;
  selected_answer : option nat;
  wrong_questions : list Question;
  round_history : list RoundResult;
  current_round : Z;
  current_test_id : Z;
  current_session_id : option Z;
  session_score_saved : option bool
}.

(** Calls made to [db]. *)
Inductive DbCall :=
  | update_session_score (session_id score total : Z)
  | create_session (user_id test_id score total : Z)
  | record_answer (user_id test_id question_id : Z) (is_correct : bool)
                  (session_id : option Z).

(** What a run of the script puts on the page, as far as it is used
    below: the two metrics, the per-round lines, the expanders of the
    failed questions, the feedback and the buttons. *)
Inductive Widget :=
  | metric_round (round score total : Z)
  | metric_accumulated (correct_all total_all : Z)
  | round_line (round score total : Z)
  | wrong_expander (q : Question) (correct : string)
  | feedback (selected : option nat) (correct_index : Z)
  | option_button (i : nat)
  | next_button
  | repeat_button
  | home_button
  | abandon_button.

(** The widget whose click started the current run of the script. *)
Inductive Click :=
  | NoClick
  | ClickOption (i : nat)
  | ClickNext
  | ClickRepeat
  | ClickHome
  | ClickAbandon.

#[global] Instance Click_eq_dec : EqDecision Click.
Proof. solve_decision. Defined.

(** A stored reference to a failed answer: [w["test_id"]] (which may be
    [None]) and [w["question_id"]]. *)
Record WrongRef := {
  w_test_id : option Z;
  w_question_id : Z
}.

#[global] Instance WrongRef_eq_dec : EqDecision WrongRef.
Proof. solve_decision. Defined.

(** The state a run of the script works on: the session store, the
    random source, the page, and the part of [db] that the runs touch,
    namely the log of the calls made, the id the persistence sink hands
    out next and the stored questions of each test. *)
Record World := {
  user_id : option Z;            (* st.session_state.get("user_id") *)
  quiz : option Quiz;            (* [None]: no quiz key is set *)
  random : Rng;
  db_log : list DbCall;          (* oldest call first *)
  db_next_session : Z;
  db_questions : gmap Z (list Question);
  page : list Widget             (* in drawing order *)
}.

Definition set_quiz (o : option Quiz) (w : World) : World :=
  {| user_id := user_id w; quiz := o; random := random w; db_log := db_log w;
     db_next_session := db_next_session w; db_questions := db_questions w;
     page := page w |}.

Definition set_random (g : Rng) (w : World) : World :=
  {| user_id := user_id w; quiz := quiz w; random := g; db_log := db_log w;
     db_next_session := db_next_session w; db_questions := db_questions w;
     page := page w |}.

Definition set_page (p : list Widget) (w : World) : World :=
  {| user_id := user_id w; quiz := quiz w; random := random w; db_log := db_log w;
     db_next_session := db_next_session w; db_questions := db_questions w;
     page := p |}.

Definition log_call (c : DbCall) (w : World) : World :=
  {| user_id := user_id w; quiz := quiz w; random := random w;
     db_log := db_log w ++ [c];
     db_next_session := db_next_session w; db_questions := db_questions w;
     page := page w |}.

(** ** The script monad: state, and an outcome that may be an exception *)

Definition M (A : Type) : Type := World → Res A * World.

#[global] Instance M_ret : MRet M := λ A a w, (Ok a, w).

#[global] Instance M_bind : MBind M := λ A B f m w,
  match m w with
  | (Ok a, w') => f a w'
  | (Raise e, w') => (Raise e, w')
  | (OutOfFuel, w') => (OutOfFuel, w')
  end.

Definition raise {A} (e : PyExn) : M A := λ w, (Raise e, w).

(** [st.rerun()] *)
Definition rerun : M unit := raise Rerun.

Definition get_quiz : M Quiz := λ w,
  match quiz w with
  | Some q => (Ok q, w)
  | None => (Raise AttributeError, w)
  end.

Definition put_quiz (q : Quiz) : M unit := λ w, (Ok (), set_quiz (Some q) w).

Definition draw (x : Widget) : M unit := λ w, (Ok (), set_page (page w ++ [x]) w).

(** [st.button(...)]: draws the button and tells whether it was clicked. *)
Definition button (ev this : Click) (x : Widget) : M bool :=
  draw x;; mret (bool_decide (ev = this)).

Fixpoint for_each {A} (l : list A) (body : A → M unit) : M unit :=
  match l with
  | [] => mret ()
  | a :: l' => body a;; for_each l' body
  end.

(** Truth value of an id that may be [None]. *)
Definition truthy (o : option Z) : bool :=
  match o with
  | Some z => bool_decide (z ≠ 0)
  | None => false
  end.

(** Lines 18-20. *)
Definition _is_logged_in : M bool := λ w, (Ok (truthy (user_id w)), w).

(** [st.session_state.user_id] *)
Definition session_user : M Z := λ w,
  match user_id w with
  | Some u => (Ok u, w)
  | None => (Raise AttributeError, w)
  end.

Definition random_shuffle {A} (x : list A) : M (list A) := λ w,
  let '(x', g) := shuffle x (random w) in (Ok x', set_random g w).

(** A division by [d]. *)
Definition dividing_by (d : Z) : M unit :=
  if decide (d = 0) then raise ZeroDivisionError else mret ().

(** [l[i]] for a Python integer [i]. *)
Definition py_index {A} (l : list A) (i : Z) : M A :=
  let n := Z.of_nat (length l) in
  let j := if decide (i < 0) then i + n else i in
  if decide (0 ≤ j) then
    match l !! Z.to_nat j with
    | Some a => mret a
    | None => raise IndexError
    end
  else raise IndexError.

(** [sum(...)] *)
Definition py_sum (l : list Z) : Z := foldl Z.add 0 l.

(** ** The collaborators in [db] *)

(** Modelled from the spec: the persistence sink ([db.py] is not among
    the sources).  [createSession(userId, testId, initialScore, total)
    -> sessionId] answers the id of a new record; ids are handed out in
    sequence.  [updateSessionScore] and [recordAnswer] answer nothing.
    Every call is logged with its arguments. *)
Definition db_create_session (user test_id score total : Z) : M Z := λ w,
  let sid := db_next_session w in
  (Ok sid,
   {| user_id := user_id w; quiz := quiz w; random := random w;
      db_log := db_log w ++ [create_session user test_id score total];
      db_next_session := sid + 1; db_questions := db_questions w;
      page := page w |}).

Definition db_call (c : DbCall) : M unit := λ w, (Ok (), log_call c w).

(** Modelled from the spec: the question repository
    ([db.get_test_questions_by_ids], not among the sources).
    [questionsByIds(testId, ids) -> list<Question>]: those questions of
    the test whose id is one of [ids], in stored order. *)
Definition get_test_questions_by_ids (tid : Z) (ids : list Z) : M (list Question) := λ w,
  (Ok (filter (λ q, q_id q ∈ ids) (default [] (db_questions w !! tid))), w).

(** ** The quiz flow (app.py, lines 104-111 and 277-438) *)

(** Lines 104-111: every quiz key is deleted. *)
Definition reset_quiz : M unit := λ w, (Ok (), set_quiz None w).

(** Lines 288-292. *)
Definition save_session_score : M unit :=
  q ← get_quiz;
  logged_in ← _is_logged_in;
  if logged_in && truthy (current_session_id q)
     && negb (default false (session_score_saved q)) then
    db_call (update_session_score (default 0 (current_session_id q)) (score q)
                                  (Z.of_nat (length (questions q))));;
    put_quiz {| questions := questions q; current_index := current_index q;
                answered := answered q; score := score q;
                selected_answer := selected_answer q;
                wrong_questions := wrong_questions q;
                round_history := round_history q;
                current_round := current_round q;
                current_test_id := current_test_id q;
                current_session_id := current_session_id q;
                session_score_saved := Some true |}
  else mret ().

(** Lines 294-303; answers [history]. *)
Definition save_round_history : M (list RoundResult) :=
  q ← get_quiz;
  let history := round_history q in
  if decide (Z.of_nat (length history) < current_round q) then
    let history :=
      history ++ [ {| r_round := current_round q; r_score := score q;
                      r_total := Z.of_nat (length (questions q));
                      r_wrong := wrong_questions q |} ] in
    put_quiz {| questions := questions q; current_index := current_index q;
                answered := answered q; score := score q;
                selected_answer := selected_answer q;
                wrong_questions := wrong_questions q;
                round_history := history;
                current_round := current_round q;
                current_test_id := current_test_id q;
                current_session_id := current_session_id q;
                session_score_saved := session_score_saved q |};;
    mret history
  else mret history.

(** Lines 319-331: the summary over all rounds. *)
Definition show_accumulated (history : list RoundResult) : M unit :=
  if decide (1 < length history)%nat then
    let total_all := py_sum (r_total <$> history) in
    let correct_all := py_sum (r_score <$> history) in
    dividing_by total_all;;
    draw (metric_accumulated correct_all total_all);;
    for_each history (λ r,
      dividing_by (r_total r);;
      draw (round_line (r_round r) (r_score r) (r_total r)))
  else mret ().

(** Lines 348-366: the click on "Repetir preguntas falladas". *)
Definition repeat_wrong (current_round : Z) (wrong : list Question) : M unit :=
  let next_round := current_round + 1 in
  wrong ← random_shuffle wrong;
  logged_in ← _is_logged_in;
  new_session_id ←
    (if (logged_in : bool) return M (option Z) then
       user ← session_user;
       q ← get_quiz;
       sid ← db_create_session user (current_test_id q) 0 (Z.of_nat (length wrong));
       mret (Some sid)
     else mret None);
  q ← get_quiz;
  put_quiz {| questions := wrong; current_index := 0%nat;
              answered := false; score := 0;
              selected_answer := None;
              wrong_questions := [];
              round_history := round_history q;
              current_round := next_round;
              current_test_id := current_test_id q;
              current_session_id := new_session_id;
              session_score_saved := Some false |};;
  rerun.

(** Lines 333-374. *)
Definition show_wrong (ev : Click) (current_round : Z) (wrong : list Question) : M unit :=
  match wrong with
  | _ :: _ =>
      for_each wrong (λ q,
        correct ← py_index (q_options q) (q_answer_index q);
        draw (wrong_expander q correct));;
      clicked ← button ev ClickRepeat repeat_button;
      (if (clicked : bool) then repeat_wrong current_round wrong else mret ());;
      clicked ← button ev ClickHome home_button;
      if (clicked : bool) then reset_quiz;; rerun else mret ()
  | [] =>
      clicked ← button ev ClickHome home_button;
      if (clicked : bool) then reset_quiz;; rerun else mret ()
  end.

(** Lines 282-375: the round is over. *)
Definition round_complete (ev : Click) : M unit :=
  q ← get_quiz;
  let current_round := current_round q in
  let score := score q in
  let total := Z.of_nat (length (questions q)) in
  let wrong := wrong_questions q in
  save_session_score;;
  history ← save_round_history;
  dividing_by total;;
  draw (metric_round current_round score total);;
  show_accumulated history;;
  show_wrong ev current_round wrong.

(** Lines 395-408: the click on option [i]. *)
Definition submit_answer (i : nat) (question : Question) : M unit :=
  q ← get_quiz;
  let is_correct := bool_decide (Z.of_nat i = q_answer_index question) in
  put_quiz {| questions := questions q; current_index := current_index q;
              answered := true;
              score := if is_correct then score q + 1 else score q;
              selected_answer := Some i;
              wrong_questions :=
                if is_correct then wrong_questions q
                else wrong_questions q ++ [question];
              round_history := round_history q;
              current_round := current_round q;
              current_test_id := current_test_id q;
              current_session_id := current_session_id q;
              session_score_saved := session_score_saved q |};;
  logged_in ← _is_logged_in;
  (if (logged_in : bool) then
     user ← session_user;
     db_call (record_answer user (current_test_id q) (q_id question) is_correct
                            (current_session_id q))
   else mret ());;
  rerun.

(** Lines 391-392: one button per option, [i] counting from the first. *)
Fixpoint option_buttons (ev : Click) (question : Question) (i : nat)
    (options : list string) : M unit :=
  match options with
  | [] => mret ()
  | _ :: options' =>
      clicked ← button ev (ClickOption i) (option_button i);
      (if (clicked : bool) then submit_answer i question else mret ());;
      option_buttons ev question (S i) options'
  end.

(** Lines 429-433: the click on "Siguiente pregunta". *)
Definition next_question : M unit :=
  q ← get_quiz;
  put_quiz {| questions := questions q; current_index := S (current_index q);
              answered := false; score := score q;
              selected_answer := None;
              wrong_questions := wrong_questions q;
              round_history := round_history q;
              current_round := current_round q;
              current_test_id := current_test_id q;
              current_session_id := current_session_id q;
              session_score_saved := session_score_saved q |};;
  rerun.

(** Lines 377-438: question [current_index] is on the page. *)
Definition present_question (ev : Click) : M unit :=
  q ← get_quiz;
  match questions q !! current_index q with
  | None => raise IndexError
  | Some question =>
      (if negb (answered q) then
         option_buttons ev question 0 (q_options question)
       else
         draw (feedback (selected_answer q) (q_answer_index question));;
         clicked ← button ev ClickNext next_button;
         if (clicked : bool) then next_question else mret ());;
      clicked ← button ev ClickAbandon abandon_button;
      if (clicked : bool) then reset_quiz;; rerun else mret ()
  end.

Definition show_quiz (ev : Click) : M unit :=
  q ← get_quiz;
  if decide (length (questions q) ≤ current_index q)%nat then round_complete ev
  else present_question ev.

(** One run of the script while a quiz is started (lines 831-832 of
    [main]); other pages are not described.  The page starts empty. *)
Definition run_script (ev : Click) (w : World) : Res unit * World :=
  match quiz w with
  | Some _ => show_quiz ev (set_page [] w)
  | None => (Ok (), w)
  end.

(** A click: the run it starts and, when that run asks for it, the
    rerun that follows at once. *)
Definition interact (ev : Click) (w : World) : World :=
  match run_script ev w with
  | (Raise Rerun, w') => (run_script NoClick w').2
  | (_, w') => w'
  end.

(** ** Practice from stored failures (app.py, lines 504-554) *)

(** Lines 505-511. *)
Fixpoint unique_wrong_loop (seen : gset (option Z * Z)) (unique_wrong : list WrongRef)
    (all_wrong : list WrongRef) : list WrongRef :=
  match all_wrong with
  | [] => unique_wrong
  | w :: rest =>
      let key := (w_test_id w, w_question_id w) in
      if decide (key ∈ seen) then unique_wrong_loop seen unique_wrong rest
      else unique_wrong_loop ({[key]} ∪ seen) (unique_wrong ++ [w]) rest
  end.

Definition unique_wrong_refs (all_wrong : list WrongRef) : list WrongRef :=
  unique_wrong_loop ∅ [] all_wrong.

(** [by_test]: test id to set of question ids, in insertion order. *)
Definition TestDict := list (option Z * gset Z).

(** [by_test.setdefault(tid, set()).add(qid)] *)
Fixpoint setdefault_add (tid : option Z) (qid : Z) (d : TestDict) : TestDict :=
  match d with
  | [] => [(tid, {[qid]})]
  | (t, s) :: d' =>
      if decide (t = tid) then (t, {[qid]} ∪ s) :: d'
      else (t, s) :: setdefault_add tid qid d'
  end.

(** Lines 520-522. *)
Definition group_by_test (wrong_refs : list WrongRef) : TestDict :=
  foldl (λ d w, setdefault_add (w_test_id w) (w_question_id w) d) [] wrong_refs.

(** Lines 524-530; answers [(quiz_questions, test_id)]. *)
Fixpoint resolve_groups (by_test : TestDict) (quiz_questions : list Question)
    (test_id : option Z) : M (list Question * option Z) :=
  match by_test with
  | [] => mret (quiz_questions, test_id)
  | (tid, q_ids) :: by_test' =>
      if truthy tid then
        questions ← get_test_questions_by_ids (default 0 tid) (elements q_ids);
        resolve_groups by_test' (quiz_questions ++ questions) tid
      else resolve_groups by_test' quiz_questions test_id
  end.

(** Lines 518-554. *)
Definition _start_quiz_from_wrong (wrong_refs : list WrongRef) : M unit :=
  let by_test := group_by_test wrong_refs in
  '(quiz_questions, test_id) ← resolve_groups by_test [] None;
  match quiz_questions with
  | [] => mret ()
  | _ :: _ =>
      quiz_questions ← random_shuffle quiz_questions;
      let tid := if truthy test_id then default 0 test_id else 0 in
      user ← session_user;
      session_id ← db_create_session user tid 0 (Z.of_nat (length quiz_questions));
      put_quiz {| questions := quiz_questions; current_index := 0%nat;
                  answered := false; score := 0;
                  selected_answer := None;
                  wrong_questions := [];
                  round_history := [];
                  current_round := 1;
                  current_test_id := tid;
                  current_session_id := Some session_id;
                  session_score_saved := Some false |};;
      rerun
  end.

(** Lines 504-515: the click on "Practicar preguntas falladas". *)
Definition practice_wrong (all_wrong : list WrongRef) : M unit :=
  _start_quiz_from_wrong (unique_wrong_refs all_wrong).

(** ** Notions used in the statements *)

(** The score of the finished round is still to be stored
    (the test of line 290). *)
Definition score_due (w : World) (q : Quiz) : bool :=
  truthy (user_id w) && truthy (current_session_id q)
  && negb (default false (session_score_saved q)).

(** [round_history] once the finished round has been rendered
    (lines 295-303). *)
Definition history_after (q : Quiz) : list RoundResult :=
  if decide (Z.of_nat (length (round_history q)) < current_round q) then
    round_history q ++ [ {| r_round := current_round q; r_score := score q;
                            r_total := Z.of_nat (length (questions q));
                            r_wrong := wrong_questions q |} ]
  else round_history q.

(** The round is over: [current_index >= len(questions)]. *)
Definition round_over (q : Quiz) : Prop :=
  (length (questions q) ≤ current_index q)%nat.

(** Question [i] of the round is on the page and waits for an answer
    ([Presenting(i)]), or shows its feedback ([Answered(i)]). *)
Definition presenting (i : nat) (q : Quiz) : Prop :=
  current_index q = i ∧ (i < length (questions q))%nat ∧ answered q = false.

Definition answered_at (i : nat) (q : Quiz) : Prop :=
  current_index q = i ∧ (i < length (questions q))%nat ∧ answered q = true.

(** The completion view can be drawn to its end: the round has a
    question, no stored round is empty, and every failed question has
    its [answer_index] among its options. *)
Definition drawable (q : Quiz) : Prop :=
  questions q ≠ [] ∧
  Forall (λ r, 0 < r_total r) (round_history q) ∧
  Forall (λ x, 0 ≤ q_answer_index x < Z.of_nat (length (q_options x)))
         (wrong_questions q).

(** Calls that store a final score. *)
Definition is_update (c : DbCall) : bool :=
  match c with
  | update_session_score _ _ _ => true
  | _ => false
  end.

(** [n] runs of the script without a click. *)
Fixpoint rerender (n : nat) (w : World) : World :=
  match n with
  | O => w
  | S n' => rerender n' (run_script NoClick w).2
  end.

(** Σ over a list. *)
Definition total_of (l : list Z) : Z := foldr Z.add 0 l.

(** The key of line 508. *)
Definition ref_key (w : WrongRef) : option Z * Z := (w_test_id w, w_question_id w).

(** Order-preserving de-duplication in which the first occurrence wins,
    as the design document words it. *)
Definition dedup_first (refs : list WrongRef) : list WrongRef :=
  foldr (λ w acc, w :: filter (λ v, ref_key v ≠ ref_key w) acc) [] refs.

(** A question id is filed under a test id in [by_test]. *)
Definition in_dict (d : TestDict) (t : option Z) (qid : Z) : Prop :=
  ∃ s, (t, s) ∈ d ∧ qid ∈ s.

(** The questions [by_test] resolves to, each paired with the test it
    is fetched for, in the order of lines 526-529. *)
Definition resolve_tagged (w : World) (by_test : TestDict) : list (Z * Question) :=
  concat ((λ p,
    if truthy p.1
    then (λ x, (default 0 p.1, x))
           <$> filter (λ x, q_id x ∈ elements p.2)
                      (default [] (db_questions w !! default 0 p.1))
    else []) <$> by_test).

(** The value of [test_id] after the loop of lines 526-530: the last
    key of [by_test] that is neither [None] nor [0]. *)
Definition final_test_id (test_id : option Z) (by_test : TestDict) : option Z :=
  default test_id (last (filter (λ t, truthy t = true) by_test.*1)).

(** Question [x] of test [t] is named by one of the references. *)
Definition referenced (w : World) (refs : list WrongRef) (t : Z) (x : Question) : Prop :=
  t ≠ 0 ∧ (Some t, q_id x) ∈ ref_key <$> refs ∧
  x ∈ default [] (db_questions w !! t).

(** Within a test the ids of the stored questions are unique. *)
Definition ids_unique (w : World) : Prop :=
  ∀ t qs, db_questions w !! t = Some qs → NoDup (q_id <$> qs).

(** A call that names a test names [tid]. *)
Definition names_test (tid : Z) (c : DbCall) : Prop :=
  match c with
  | record_answer _ t _ _ _ => t = tid
  | create_session _ t _ _ => t = tid
  | update_session_score _ _ _ => True
  end.

(** A sequence of clicks, each with the rerun it may cause. *)
Definition run_clicks (evs : list Click) (w : World) : World :=
  foldl (λ w ev, interact ev w) w evs.

(** The test id [_start_quiz_from_wrong] starts the quiz with
    (line 536: [tid = test_id or 0]). *)
Definition started_test_id (wrong_refs : list WrongRef) : Z :=
  let test_id := final_test_id None (group_by_test wrong_refs) in
  if truthy test_id then default 0 test_id else 0.

(** ** Sample data *)

Definition sample_question (i : Z) (t : string) (a : Z) : Question :=
  {| q_id := i; q_tag := t; q_question := "?";
     q_options := ["x"; "y"; "z"]; q_answer_index := a; q_explanation := "" |}.

Definition sample_pool : list Question :=
  [sample_question 1 "A" 0; sample_question 2 "A" 1;
   sample_question 3 "A" 2; sample_question 4 "B" 0].

Definition sample_stats : gmap Z AnswerStat :=
  {[ 1 := {| correct := 1; wrong := 1 |}; 2 := {| correct := 0; wrong := 3 |} ]}.

Definition sample_quiz : Quiz :=
  {| questions := [sample_question 1 "A" 0; sample_question 2 "A" 1];
     current_index := 0%nat; answered := false; score := 0;
     selected_answer := None; wrong_questions := [];
     round_history := []; current_round := 1; current_test_id := 3;
     current_session_id := Some 11; session_score_saved := None |}.

Definition sample_world (user : option Z) (q : Quiz) : World :=
  {| user_id := user; quiz := Some q; random := [2; 0; 1]%nat; db_log := [];
     db_next_session := 12;
     db_questions := {[ 3 := [sample_question 1 "A" 0; sample_question 2 "A" 1];
                        4 := [sample_question 1 "B" 0; sample_question 9 "B" 2] ]};
     page := [] |}.

(** The first question has been answered with its second option. *)
Definition sample_answered : Quiz :=
  {| questions := [sample_question 1 "A" 0; sample_question 2 "A" 1];
     current_index := 0%nat; answered := true; score := 0;
     selected_answer := Some 1%nat;
     wrong_questions := [sample_question 1 "A" 0];
     round_history := []; current_round := 1; current_test_id := 3;
     current_session_id := Some 11; session_score_saved := None |}.

(** Round 1 is over with both questions failed. *)
Definition sample_finished : Quiz :=
  {| questions := [sample_question 1 "A" 0; sample_question 2 "A" 1];
     current_index := 2%nat; answered := false; score := 0;
     selected_answer := None;
     wrong_questions := [sample_question 1 "A" 0; sample_question 2 "A" 1];
     round_history := []; current_round := 1; current_test_id := 3;
     current_session_id := Some 11; session_score_saved := None |}.

(** A second round of three questions is over with all three right; the
    first round was stored with 8 out of 10. *)
Definition sample_second_round : Quiz :=
  {| questions := [sample_question 1 "A" 0; sample_question 2 "A" 1;
                   sample_question 3 "A" 2];
     current_index := 3%nat; answered := false; score := 3;
     selected_answer := None; wrong_questions := [];
     round_history := [ {| r_round := 1; r_score := 8; r_total := 10;
                           r_wrong := [] |} ];
     current_round := 2; current_test_id := 3;
     current_session_id := Some 12; session_score_saved := None |}.

Definition sample_refs : list WrongRef :=
  [ {| w_test_id := Some 3; w_question_id := 1 |};
    {| w_test_id := Some 4; w_question_id := 1 |};
    {| w_test_id := Some 3; w_question_id := 1 |};
    {| w_test_id := None; w_question_id := 2 |};
    {| w_test_id := Some 3; w_question_id := 2 |};
    {| w_test_id := Some 4; w_question_id := 1 |} ].

(** ** Invariants and auxiliary predicates *)

(** What the grouping loop maintains about the dictionary [d] built from
    the questions [l] seen so far. *)
Definition grouped (d : TagDict) (l : list Question) : Prop :=
  NoDup d.*1 ∧ concat d.*2 ≡ₚ l ∧
  Forall (λ p, p.2 ≠ [] ∧ Forall (λ q, q_tag q = p.1) p.2) d.

Definition uniform_groups (d : TagDict) : Prop :=
  Forall (λ p, p.2 ≠ [] ∧ Forall (λ q, q_tag q = p.1) p.2) d.

(** Pieces of the script that only write to the page, widgets that
    satisfy [P]; [draws] also says that they run to their end. *)
Definition page_only {A} (P : Widget → Prop) (m : M A) : Prop :=
  ∀ w, ∃ r ws, Forall P ws ∧ m w = (r, set_page (page w ++ ws) w).

Definition draws (P : Widget → Prop) (m : M unit) : Prop :=
  ∀ w, ∃ ws, Forall P ws ∧ m w = (Ok (), set_page (page w ++ ws) w).

(** The widgets of the completion view above its buttons: the metrics,
    with the accumulated one showing the sums over [history], the
    per-round lines and the failed questions. *)
Definition summary_widget (history : list RoundResult) (x : Widget) : Prop :=
  match x with
  | metric_accumulated c t =>
      c = total_of (r_score <$> history) ∧ t = total_of (r_total <$> history)
  | metric_round _ _ _ | round_line _ _ _ | wrong_expander _ _ => True
  | _ => False
  end.

(** The same with the buttons of the completion view. *)
Definition completion_widget (history : list RoundResult) (x : Widget) : Prop :=
  summary_widget history x ∨ x = repeat_button ∨ x = home_button.

(** What the loop of lines 521-522 maintains. *)
Definition filed (d : TestDict) (refs : list WrongRef) : Prop :=
  NoDup d.*1 ∧ ∀ t qid, in_dict d t qid ↔ (t, qid) ∈ ref_key <$> refs.

(** The quiz, if any, is filed under [tid], and every call logged since
    [base] that names a test names [tid]. *)
Definition under_test (tid : Z) (base : list DbCall) (w : World) : Prop :=
  (∀ q, quiz w = Some q → current_test_id q = tid) ∧
  ∃ new, db_log w = base ++ new ∧ Forall (names_test tid) new.

(** Reading a log from the left, [stored] tells whether the final score
    of the session record opened last is stored already: no score is
    stored again before [create_session] opens the next record. *)
Fixpoint stored_once (stored : bool) (log : list DbCall) : Prop :=
  match log with
  | [] => True
  | update_session_score _ _ _ :: log' => stored = false ∧ stored_once true log'
  | create_session _ _ _ _ :: log' => stored_once false log'
  | record_answer _ _ _ _ _ :: log' => stored_once stored log'
  end.

Fixpoint stored_after (stored : bool) (log : list DbCall) : bool :=
  match log with
  | [] => stored
  | update_session_score _ _ _ :: log' => stored_after true log'
  | create_session _ _ _ _ :: log' => stored_after false log'
  | record_answer _ _ _ _ _ :: log' => stored_after stored log'
  end.

(** The calls logged since [base] store no score twice, and once the
    score of the current record is stored it is not due any more. *)
Definition guarded (stored : bool) (base : list DbCall) (w : World) : Prop :=
  ∃ new, db_log w = base ++ new ∧ stored_once stored new ∧
         (stored_after stored new = true →
          ∀ q, quiz w = Some q → score_due w q = false).

(** Pieces that touch neither the session store nor the log. *)
Definition quiet {A} (m : M A) : Prop :=
  ∀ w, quiz (m w).2 = quiz w ∧ db_log (m w).2 = db_log w ∧
       user_id (m w).2 = user_id w.

(** [m] keeps the invariant [I]; [preserves_at q] says so for the
    worlds whose quiz is [q]. *)
Definition preserves {A} (I : World → Prop) (m : M A) : Prop :=
  ∀ w, I w → I (m w).2.

Definition preserves_at {A} (I : World → Prop) (q : Quiz) (m : M A) : Prop :=
  ∀ w, quiz w = Some q → I w → I (m w).2.

(** Unfolding of the script monad. *)
Ltac unfold_script :=
  unfold mbind, M_bind, mret, M_ret, get_quiz, put_quiz, draw, button, raise,
    rerun, _is_logged_in, session_user, db_call, reset_quiz.

(** ** Notions used for the rotation of the selector *)

(** Every question of a group carries the key of the group. *)
Definition tagged_groups (d : TagDict) : Prop :=
  Forall (λ p, Forall (λ q, q_tag q = p.1) p.2) d.

(** The tags of the filtered pool, in the order in which the pool first
    shows them ([tag_list], line 87). *)
Definition tags_of (filtered : list Question) : list string :=
  (group_by_tag filtered).*1.

(** How many questions of [l] carry the tag [t]. *)
Definition count_tag (t : string) (l : list Question) : nat :=
  length (filter (λ q, q_tag q = t) l).

(** Of the turns [0, ..., i-1] of a rotation over [k] groups, those that
    fall on the group at position [j] ([tag_index % len(tag_list)]). *)
Fixpoint quota (k j i : nat) : nat :=
  match i with
  | O => 0%nat
  | S i' => (quota k j i' + if decide (i' mod k = j)%nat then 1 else 0)%nat
  end.

(** The state of the loop of lines 90-98 after [i] turns in which no
    group ran empty: group [j] has lost its first [quota k j i]
    questions, and these are the questions of its tag in [selected]. *)
Definition robin_state (d0 : TagDict) (i : nat) (selected : list Question)
    (d : TagDict) : Prop :=
  d.*1 = d0.*1 ∧
  ∀ j t qs, d0 !! j = Some (t, qs) →
    d !! j = Some (t, drop (quota (length d0) j i) qs) ∧
    filter (λ q, q_tag q = t) selected = take (quota (length d0) j i) qs.

(** ** The transitions of the quiz *)

(** The test of line 290 for the user [u]. *)
Definition due (u : option Z) (q : Quiz) : bool :=
  truthy u && truthy (current_session_id q)
  && negb (default false (session_score_saved q)).

(** The quiz once the completion view has stored the score and the round
    (lines 288-303). *)
Definition rendered (u : option Z) (q : Quiz) : Quiz :=
  {| questions := questions q; current_index := current_index q;
     answered := answered q; score := score q;
     selected_answer := selected_answer q;
     wrong_questions := wrong_questions q;
     round_history := history_after q;
     current_round := current_round q;
     current_test_id := current_test_id q;
     current_session_id := current_session_id q;
     session_score_saved := if due u q then Some true else session_score_saved q |}.

Definition stored_call (u : option Z) (q : Quiz) : list DbCall :=
  if due u q
  then [update_session_score (default 0 (current_session_id q)) (score q)
                             (Z.of_nat (length (questions q)))]
  else [].

(** The quiz after option [i] of [question] was clicked (lines 393-399). *)
Definition submitted (q : Quiz) (i : nat) (question : Question) : Quiz :=
  {| questions := questions q; current_index := current_index q;
     answered := true;
     score := if bool_decide (Z.of_nat i = q_answer_index question)
              then score q + 1 else score q;
     selected_answer := Some i;
     wrong_questions :=
       if bool_decide (Z.of_nat i = q_answer_index question)
       then wrong_questions q else wrong_questions q ++ [question];
     round_history := round_history q;
     current_round := current_round q;
     current_test_id := current_test_id q;
     current_session_id := current_session_id q;
     session_score_saved := session_score_saved q |}.

Definition recorded_call (u : option Z) (q : Quiz) (i : nat) (question : Question)
    : list DbCall :=
  if truthy u
  then [record_answer (default 0 u) (current_test_id q) (q_id question)
                      (bool_decide (Z.of_nat i = q_answer_index question))
                      (current_session_id q)]
  else [].

(** The quiz after "Siguiente pregunta" (lines 430-432). *)
Definition advanced (q : Quiz) : Quiz :=
  {| questions := questions q; current_index := S (current_index q);
     answered := false; score := score q;
     selected_answer := None;
     wrong_questions := wrong_questions q;
     round_history := round_history q;
     current_round := current_round q;
     current_test_id := current_test_id q;
     current_session_id := current_session_id q;
     session_score_saved := session_score_saved q |}.

(** The quiz after "Repetir preguntas falladas" (lines 348-365), the
    failed questions reordered to [qs] and the new record being [sid]. *)
Definition repeated (q : Quiz) (qs : list Question) (sid : option Z) : Quiz :=
  {| questions := qs; current_index := 0%nat;
     answered := false; score := 0;
     selected_answer := None;
     wrong_questions := [];
     round_history := history_after q;
     current_round := current_round q + 1;
     current_test_id := current_test_id q;
     current_session_id := sid;
     session_score_saved := Some false |}.

Definition created_call (u : option Z) (q : Quiz) : list DbCall :=
  if truthy u
  then [create_session (default 0 u) (current_test_id q) 0
                       (Z.of_nat (length (wrong_questions q)))]
  else [].

(** Calls that open a session record, and how many of them a log holds. *)
Definition is_create (c : DbCall) : bool :=
  match c with
  | create_session _ _ _ _ => true
  | _ => false
  end.

Definition opened (log : list DbCall) : Z :=
  Z.of_nat (length (filter (λ c, is_create c = true) log)).

(** What one run of the script can do to the quiz [q] of the user [u]
    when the persistence sink hands out [next] as its next id: the quiz
    it leaves, if any, and the calls it makes. *)
Inductive quiz_step (u : option Z) (next : Z) (q : Quiz)
    : option Quiz → list DbCall → Prop :=
  | step_idle :
      ¬ round_over q → quiz_step u next q (Some q) []
  | step_submit i question :
      questions q !! current_index q = Some question →
      answered q = false →
      (i < length (q_options question))%nat →
      quiz_step u next q (Some (submitted q i question))
                (recorded_call u q i question)
  | step_next :
      (current_index q < length (questions q))%nat →
      answered q = true →
      quiz_step u next q (Some (advanced q)) []
  | step_abandon :
      ¬ round_over q → quiz_step u next q None []
  | step_render :
      round_over q → quiz_step u next q (Some (rendered u q)) (stored_call u q)
  | step_repeat qs :
      round_over q → questions q ≠ [] → wrong_questions q ≠ [] →
      qs ≡ₚ wrong_questions q →
      quiz_step u next q
                (Some (repeated q qs (if truthy u then Some next else None)))
                (stored_call u q ++ created_call u q)
  | step_home :
      round_over q → questions q ≠ [] → quiz_step u next q None (stored_call u q).

(** The world belongs to the user [u]; since the log was [base] and the
    next session id [next], the sink has handed out one id per
    [create_session], and the quiz and the calls logged satisfy [J]. *)
Definition tracks (u : option Z) (next : Z) (base : list DbCall)
    (J : option Quiz → list DbCall → Prop) (w : World) : Prop :=
  user_id w = u ∧
  ∃ log, db_log w = base ++ log ∧ db_next_session w = next + opened log ∧
         J (quiz w) log.

(** The questions of the round answered so far. *)
Definition answered_count (q : Quiz) : nat :=
  (current_index q + if answered q then 1 else 0)%nat.

(** A stored round adds up. *)
Definition entry_ok (r : RoundResult) : Prop :=
  0 ≤ r_score r ∧ r_score r + Z.of_nat (length (r_wrong r)) = r_total r ∧
  0 < r_total r.

(** What the quiz flow keeps of a quiz that was started over the
    questions [qs0]. *)
Definition flow_inv (qs0 : list Question) (q : Quiz) : Prop :=
  questions q ≠ [] ∧ questions q ⊆+ qs0 ∧
  (answered_count q ≤ length (questions q))%nat ∧
  wrong_questions q `sublist_of` take (answered_count q) (questions q) ∧
  0 ≤ score q ∧
  score q + Z.of_nat (length (wrong_questions q)) = Z.of_nat (answered_count q) ∧
  r_round <$> round_history q = Z.of_nat <$> seq 1 (length (round_history q)) ∧
  (Z.of_nat (length (round_history q)) = current_round q - 1 ∨
   (Z.of_nat (length (round_history q)) = current_round q ∧ round_over q)) ∧
  Forall entry_ok (round_history q).

(** The score and the wrong list account for the answers of the round. *)
Definition tally_inv (q : Quiz) : Prop :=
  (answered_count q ≤ length (questions q))%nat ∧
  wrong_questions q `sublist_of` take (answered_count q) (questions q) ∧
  0 ≤ score q ∧
  score q + Z.of_nat (length (wrong_questions q)) = Z.of_nat (answered_count q).

(** The history holds the rounds before the current one, and the current
    one once it is over and has been drawn. *)
Definition history_inv (q : Quiz) : Prop :=
  Z.of_nat (length (round_history q)) = current_round q - 1 ∨
  (Z.of_nat (length (round_history q)) = current_round q ∧ round_over q).

(** A quiz as [show_test_config] and [_start_quiz_from_wrong] start it. *)
Definition fresh_quiz (q : Quiz) : Prop :=
  current_index q = 0%nat ∧ answered q = false ∧ score q = 0 ∧
  wrong_questions q = [] ∧ round_history q = [] ∧ current_round q = 1.

(** The answers recorded since the last session record was opened: the
    question and whether it was right. *)
Definition log_answer (acc : list (Z * bool)) (c : DbCall) : list (Z * bool) :=
  match c with
  | record_answer _ _ question_id is_correct _ => acc ++ [(question_id, is_correct)]
  | create_session _ _ _ _ => []
  | update_session_score _ _ _ => acc
  end.

Definition answers_since (log : list DbCall) : list (Z * bool) :=
  foldl log_answer [] log.

(** The recorded answers are those of the round. *)
Definition answers_inv (q : Quiz) (log : list DbCall) : Prop :=
  (answers_since log).*1 = q_id <$> take (answered_count q) (questions q) ∧
  Z.of_nat (length (filter (λ a, a.2 = true) (answers_since log))) = score q.

(** The data invariant of a question: [answer_index] names one of the
    options. *)
Definition answer_in_range (x : Question) : Prop :=
  0 ≤ q_answer_index x < Z.of_nat (length (q_options x)).

(** A run of the script that ends as Streamlit expects: at the end of
    the script or in [st.rerun()]. *)
Definition ends_well (r : Res unit) : Prop := r = Ok () ∨ r = Raise Rerun.

(** ** Starting a test (app.py, lines 249-274) *)

(** [select_balanced_questions] on the random source of the session. *)
Definition select_questions (questions : list Question) (selected_tags : list string)
    (num_questions : Z) (question_stats : option (gmap Z AnswerStat))
    : M (list Question) := λ w,
  let '(r, g) := select_balanced_questions questions selected_tags num_questions
                   question_stats (random w) in
  (r, set_random g w).

(** [st.session_state.get("session_score_saved")], for a key that no
    assignment of [show_test_config] touches. *)
Definition get_score_saved : M (option bool) := λ w,
  (Ok (q ← quiz w; session_score_saved q), w).

Section test_config.
(** What [db.get_question_stats(user_id, test_id)] answers; [db.py] is a
    collaborator outside the sources, so its answer is left open. *)
Variable get_question_stats : Z → Z → gmap Z AnswerStat.

(** Lines 250-274: the click on "Comenzar Test".  [questions] is the
    answer of [get_test_questions(test_id)] (line 204), [selected_tags]
    the ticked tags (lines 236-241) and [num_questions] the number
    entered (line 228). *)
Definition start_test (test_id : Z) (questions : list Question)
    (selected_tags : list string) (num_questions : Z) : M unit :=
  logged_in ← _is_logged_in;
  stats ←
    (if (logged_in : bool) return M (option (gmap Z AnswerStat)) then
       user ← session_user;
       mret (Some (get_question_stats user test_id))
     else mret None);
  quiz_questions ← select_questions questions selected_tags num_questions stats;
  session_id ←
    (if (logged_in : bool) return M (option Z) then
       user ← session_user;
       sid ← db_create_session user test_id 0 (Z.of_nat (length quiz_questions));
       mret (Some sid)
     else mret None);
  saved ← get_score_saved;
  put_quiz {| questions := quiz_questions; current_index := 0%nat;
              answered := false; score := 0;
              selected_answer := None;
              wrong_questions := [];
              round_history := [];
              current_round := 1;
              current_test_id := test_id;
              current_session_id := session_id;
              session_score_saved := saved |};;
  rerun.
End test_config.

(** ** The option buttons of the test editor (app.py, lines 640-652) *)

(** [l[:-1]] *)
Definition drop_last {A} (l : list A) : list A := take (length l - 1) l.

(** Lines 642-644, "+ Opcion": the question as [update_question] is
    asked to store it.  (The row's [db_id], which a [Question] does not
    carry, is passed on as it is.) *)
Definition add_option (q : Question) : Question :=
  let new_opts :=
    q_options q ++ ["Opcion " +:+ pretty (length (q_options q) + 1)%nat] in
  {| q_id := q_id q; q_tag := q_tag q; q_question := q_question q;
     q_options := new_opts;
     q_answer_index := q_answer_index q;
     q_explanation := q_explanation q |}.

(** Lines 647-651, "- Opcion": the button is drawn for a question with
    more than two options only; [None] is the button that is not there. *)
Definition remove_option (q : Question) : option Question :=
  if decide (2 < length (q_options q))%nat then
    let new_opts := drop_last (q_options q) in
    let new_ans := Z.min (q_answer_index q) (Z.of_nat (length new_opts) - 1) in
    Some {| q_id := q_id q; q_tag := q_tag q; q_question := q_question q;
            q_options := new_opts;
            q_answer_index := new_ans;
            q_explanation := q_explanation q |}
  else None.

(** The indexes Python accepts for [q["options"][q["answer_index"]]]. *)
Definition python_index_ok (x : Question) : Prop :=
  - Z.of_nat (length (q_options x)) ≤ q_answer_index x
  < Z.of_nat (length (q_options x)).

(** A finished round whose completion view reaches the list of failed
    questions and finds one of them with an [answer_index] that Python
    rejects. *)
Definition stuck (q : Quiz) : Prop :=
  round_over q ∧ questions q ≠ [] ∧
  Forall (λ r, 0 < r_total r) (round_history q) ∧
  Exists (λ x, ¬ python_index_ok x) (wrong_questions q).

(** ** The session records *)

(** A log of calls read against the session record that is open:
    [create_session] opens the record that the sink numbers [next], an
    answer is recorded under the open record and a score is stored in
    it. *)
Fixpoint filed_under (next : Z) (cur : option Z) (log : list DbCall) : Prop :=
  match log with
  | [] => True
  | create_session _ _ _ _ :: log => filed_under (next + 1) (Some next) log
  | record_answer _ _ _ _ session_id :: log =>
      session_id = cur ∧ filed_under next cur log
  | update_session_score session_id _ _ :: log =>
      cur = Some session_id ∧ filed_under next cur log
  end.

(** The record that is open after the calls of [log]. *)
Fixpoint open_after (next : Z) (cur : option Z) (log : list DbCall) : option Z :=
  match log with
  | [] => cur
  | create_session _ _ _ _ :: log => open_after (next + 1) (Some next) log
  | _ :: log => open_after next cur log
  end.

(** A log of calls read against the number of questions that the open
    record was opened with: a stored score names that total and lies
    between 0 and it. *)
Fixpoint scored (total : option Z) (log : list DbCall) : Prop :=
  match log with
  | [] => True
  | create_session _ _ _ total' :: log => scored (Some total') log
  | update_session_score _ score' total' :: log =>
      total = Some total' ∧ 0 ≤ score' ≤ total' ∧ scored total log
  | record_answer _ _ _ _ _ :: log => scored total log
  end.

(** The total that the open record was opened with. *)
Fixpoint announced (total : option Z) (log : list DbCall) : option Z :=
  match log with
  | [] => total
  | create_session _ _ _ total' :: log => announced (Some total') log
  | _ :: log => announced total log
  end.

(** What has been stored in the record opened last: its id, the score
    and the total. *)
Definition log_stored (acc : option (Z * Z * Z)) (c : DbCall) : option (Z * Z * Z) :=
  match c with
  | create_session _ _ _ _ => None
  | update_session_score session_id score' total' => Some (session_id, score', total')
  | record_answer _ _ _ _ _ => acc
  end.

Definition stored_since (log : list DbCall) : option (Z * Z * Z) :=
  foldl log_stored None log.

(** The session ids are filed, for a quiz whose record is [sid0]. *)
Definition filing_inv (next0 : Z) (sid0 : option Z)
    (oq : option Quiz) (log : list DbCall) : Prop :=
  filed_under next0 sid0 log ∧
  ∀ q, oq = Some q → current_session_id q = open_after next0 sid0 log.

(** The stored scores add up. *)
Definition scoring_inv (total0 : option Z)
    (oq : option Quiz) (log : list DbCall) : Prop :=
  scored total0 log ∧
  ∀ q, oq = Some q →
       tally_inv q ∧ announced total0 log = Some (Z.of_nat (length (questions q))).

(** The score of a round that is in the history has been stored. *)
Definition storing_inv (oq : option Quiz) (log : list DbCall) : Prop :=
  ∀ q, oq = Some q →
       history_inv q ∧
       (∃ sid, current_session_id q = Some sid ∧ 0 < sid ∧
               (session_score_saved q = Some true →
                round_over q ∧
                stored_since log
                = Some (sid, score q, Z.of_nat (length (questions q))))) ∧
       (Z.of_nat (length (round_history q)) = current_round q →
        session_score_saved q = Some true).

(** What the first round keeps while it holds the question [x]: it has
    not been left, its history can be drawn, and [x] is among the failed
    questions as soon as it has been answered. *)
Definition blocked_inv (qs0 : list Question) (x : Question) (q : Quiz) : Prop :=
  questions q = qs0 ∧ current_round q = 1 ∧
  Forall (λ r, 0 < r_total r) (round_history q) ∧
  (x ∈ take (answered_count q) (questions q) → x ∈ wrong_questions q).

(** Every stored question has its [answer_index] among its options. *)
Definition stored_in_range (w : World) : Prop :=
  ∀ t qs, db_questions w !! t = Some qs → Forall answer_in_range qs.

(** ** More sample data *)

(** A pool in which two tags hold one question each and two hold three. *)
Definition sample_uneven_pool : list Question :=
  [sample_question 1 "A" 0; sample_question 2 "B" 0;
   sample_question 3 "C" 0; sample_question 4 "C" 1; sample_question 5 "C" 2;
   sample_question 6 "D" 0; sample_question 7 "D" 1; sample_question 8 "D" 2].

(** Both questions of the sample quiz answered, the first one wrongly;
    the completion view; the repeat round and its answer. *)
Definition sample_clicks : list Click :=
  [ClickOption 1; ClickNext; ClickOption 1; ClickNext; NoClick; ClickRepeat;
   ClickOption 0].

(** Statistics that do not depend on the user or the test. *)
Definition sample_get_question_stats (user test_id : Z) : gmap Z AnswerStat :=
  sample_stats.

(** A question with four options, the last of them the correct one. *)
Definition sample_four_options : Question :=
  {| q_id := 5; q_tag := "A"; q_question := "?";
     q_options := ["a"; "b"; "c"; "d"]; q_answer_index := 3;
     q_explanation := "" |}.

(** A question whose [answer_index] names no option. *)
Definition sample_bad_question : Question :=
  {| q_id := 6; q_tag := "A"; q_question := "?";
     q_options := ["a"; "b"]; q_answer_index := 2; q_explanation := "" |}.

(** A round over that one question, answered and failed. *)
Definition sample_stuck : Quiz :=
  {| questions := [sample_bad_question]; current_index := 1%nat;
     answered := false; score := 0; selected_answer := None;
     wrong_questions := [sample_bad_question];
     round_history := []; current_round := 1; current_test_id := 3;
     current_session_id := Some 11; session_score_saved := None |}.

(** A session in which no quiz has been started. *)
Definition sample_idle_world (user : option Z) : World :=
  {| user_id := user; quiz := None; random := [2; 0; 1]%nat; db_log := [];
     db_next_session := 12; db_questions := ∅; page := [] |}.

(** A first round that holds the question with the bad answer index. *)
Definition sample_bad_quiz : Quiz :=
  {| questions := [sample_question 1 "A" 0; sample_bad_question];
     current_index := 0%nat; answered := false; score := 0;
     selected_answer := None; wrong_questions := [];
     round_history := []; current_round := 1; current_test_id := 3;
     current_session_id := Some 11; session_score_saved := None |}.

(** Round 1 is over with one question failed, whose [answer_index] is
    [-1]: no option click matches it, and Python reads it as the last
    option. *)
Definition sample_finished_negative : Quiz :=
  {| questions := [sample_question 1 "A" 0; sample_question 8 "A" (-1)];
     current_index := 2%nat; answered := false; score := 1;
     selected_answer := None;
     wrong_questions := [sample_question 8 "A" (-1)];
     round_history := []; current_round := 1; current_test_id := 3;
     current_session_id := Some 11; session_score_saved := None |}.

(** * Properties *)

(** ** Facts about the random source *)

Section shuffle_facts.
Context {A : Type}.
Implicit Types (x : list A) (g : Rng).

Lemma insert_swap_out x i a b :
  x !! i = Some a → b :: x ≡ₚ a :: <[i:=b]> x.
Proof.
  revert i. induction x as [|c x IH]; intros [|i] Hi; simplify_eq/=.
  - apply perm_swap.
  - rewrite (perm_swap c b x), (IH i Hi). apply perm_swap.
Qed.

Lemma swap_Permutation x i j : swap x i j ≡ₚ x.
Proof.
  unfold swap.
  destruct (x !! i) as [a|] eqn:Hi; [|done].
  destruct (x !! j) as [b|] eqn:Hj; [|done].
  assert (Hj' : <[i:=b]> x !! j = Some b).
  { destruct (decide (i = j)) as [->|Hne].
    - apply list_lookup_insert_eq. by eapply lookup_lt_Some.
    - by rewrite list_lookup_insert_ne. }
  apply (Permutation_cons_inv (a := b)).
  rewrite <- (insert_swap_out _ j b a Hj').
  symmetry. by apply insert_swap_out.
Qed.

Lemma shuffle_from_Permutation i x g : (shuffle_from i x g).1 ≡ₚ x.
Proof.
  revert x g. induction i as [|i IH]; intros x g; [done|].
  cbn [shuffle_from]. destruct (randbelow (S (S i)) g) as [j g'].
  rewrite IH. apply swap_Permutation.
Qed.

Lemma shuffle_Permutation x g : (shuffle x g).1 ≡ₚ x.
Proof. apply shuffle_from_Permutation. Qed.
End shuffle_facts.

(** ** The difficulty scorer *)

(** C3: the scorer answers [0.5] for a question without statistics or
    with [correct + wrong = 0], and [wrong / (correct + wrong)]
    otherwise; when the stored counts are non-negative the answer lies
    between [0] and [1]. *)
Theorem difficulty_score_spec (q : Question) (question_stats : gmap Z AnswerStat) :
  (question_stats !! q_id q = None → _difficulty_score q question_stats = 1 # 2) ∧
  (∀ st, question_stats !! q_id q = Some st → correct st + wrong st = 0 →
         _difficulty_score q question_stats = 1 # 2) ∧
  (∀ st, question_stats !! q_id q = Some st → correct st + wrong st ≠ 0 →
         _difficulty_score q question_stats
         = (inject_Z (wrong st) / inject_Z (correct st + wrong st))%Q) ∧
  ((∀ i st, question_stats !! i = Some st → 0 ≤ correct st ∧ 0 ≤ wrong st) →
   (0 <= _difficulty_score q question_stats)%Q ∧
   (_difficulty_score q question_stats <= 1)%Q).
Proof.
  unfold _difficulty_score. split_and!.
  - by intros ->.
  - intros st -> Hz. by rewrite decide_True.
  - intros st -> Hnz. by rewrite decide_False.
  - intros Hpos. destruct (question_stats !! q_id q) as [st|] eqn:Hst; [|done].
    destruct (Hpos _ _ Hst) as [Hc Hw]. cbn zeta.
    case_decide as Hz; [done|]. split.
    + apply Qle_shift_div_l.
      * change 0%Q with (inject_Z 0). rewrite <- Zlt_Qlt. lia.
      * rewrite Qmult_0_l. change 0%Q with (inject_Z 0). rewrite <- Zle_Qle. lia.
    + apply Qle_shift_div_r.
      * change 0%Q with (inject_Z 0). rewrite <- Zlt_Qlt. lia.
      * rewrite Qmult_1_l. rewrite <- Zle_Qle. lia.
Qed.

(** ** The selector: dictionaries and grouping *)

Lemma dict_get_Some tag (d : TagDict) qs :
  dict_get tag d = Some qs →
  ∃ d1 d2, d = d1 ++ (tag, qs) :: d2 ∧ (tag ∉ d1.*1) ∧
           ∀ v, dict_set tag v d = d1 ++ (tag, v) :: d2.
Proof.
  induction d as [|[t ps] d IH]; [done|]. cbn [dict_get dict_set].
  destruct (decide (t = tag)) as [->|Hne].
  - intros [= ->]. exists [], d. split_and!; [done|apply not_elem_of_nil|done].
  - intros (d1 & d2 & -> & Hnot & Hset)%IH.
    exists ((t, ps) :: d1), d2. split_and!; [done| |].
    + rewrite fmap_cons. apply not_elem_of_cons. split; [by intros ->|done].
    + intros v. by rewrite Hset.
Qed.

Lemma dict_get_None tag (d : TagDict) :
  dict_get tag d = None → (tag ∉ d.*1) ∧ ∀ v, dict_set tag v d = d ++ [(tag, v)].
Proof.
  induction d as [|[t ps] d IH]; [by split; [apply not_elem_of_nil|]|].
  cbn [dict_get dict_set].
  destruct (decide (t = tag)) as [->|Hne]; [done|].
  intros [Hnot Hset]%IH. split.
  - rewrite fmap_cons. apply not_elem_of_cons. split; [by intros ->|done].
  - intros v. by rewrite Hset.
Qed.

Lemma dict_get_app_r tag (d1 d2 : TagDict) :
  tag ∉ d1.*1 → dict_get tag (d1 ++ d2) = dict_get tag d2.
Proof.
  induction d1 as [|[t ps] d1 IH]; [done|]. cbn.
  intros [Hne Hnot]%not_elem_of_cons.
  rewrite decide_False by (by intros ->). by apply IH.
Qed.

Lemma dict_get_is_Some tag (d : TagDict) :
  tag ∈ d.*1 → is_Some (dict_get tag d).
Proof.
  intros Hin. destruct (dict_get tag d) eqn:E; [done|].
  by apply dict_get_None in E as [? _].
Qed.

Lemma group_step_grouped d l q :
  grouped d l → grouped (group_step d q) (l ++ [q]).
Proof.
  intros (Hnd & Hperm & Hall). unfold group_step.
  destruct (dict_get (q_tag q) d) as [qs|] eqn:E.
  - apply dict_get_Some in E as (d1 & d2 & -> & Hnot & Hset).
    rewrite Hset. split_and!.
    + by rewrite fmap_app, fmap_cons in *.
    + rewrite <- Hperm, !fmap_app, !fmap_cons, !concat_app, !concat_cons. cbn.
      rewrite <- !(assoc_L (++)). f_equiv. f_equiv.
      apply Permutation_app_comm.
    + apply Forall_app in Hall as [H1 [[Hne Htag] H2]%Forall_cons].
      apply Forall_app; split; [done|]. apply Forall_cons; split; [|done].
      cbn in *. split; [by destruct qs|].
      apply Forall_app; split; [done|]. by apply Forall_singleton.
  - apply dict_get_None in E as [Hnot Hset]. rewrite Hset. split_and!.
    + rewrite fmap_app. cbn. apply NoDup_app. split_and!; [done| |apply NoDup_singleton].
      intros t Ht ->%list_elem_of_singleton. done.
    + rewrite fmap_app, concat_app. cbn. by rewrite Hperm.
    + apply Forall_app; split; [done|]. apply Forall_singleton. cbn.
      split; [done|]. by apply Forall_singleton.
Qed.

Lemma foldl_group_step_grouped l' d l :
  grouped d l → grouped (foldl group_step d l') (l ++ l').
Proof.
  revert d l. induction l' as [|q l' IH]; intros d l Hg; cbn.
  - by rewrite app_nil_r.
  - rewrite (cons_middle q l l'), (assoc_L (++)).
    apply IH. by apply group_step_grouped.
Qed.

Lemma group_by_tag_grouped l : grouped (group_by_tag l) l.
Proof.
  apply (foldl_group_step_grouped l [] []).
  split_and!; [apply NoDup_nil_2|done|done].
Qed.

(** ** The selector: ordering inside the groups *)

Lemma insert_desc_Permutation key q l : insert_desc key q l ≡ₚ q :: l.
Proof.
  induction l as [|y l IH]; [done|]. cbn.
  destruct (Qlt_le_dec _ _); [|done].
  rewrite IH. apply perm_swap.
Qed.

Lemma sort_desc_Permutation key l : sort_desc key l ≡ₚ l.
Proof.
  induction l as [|q l IH]; [done|]. cbn.
  by rewrite insert_desc_Permutation, IH.
Qed.

(** The groups keep their tags and their members. *)
Lemma order_groups_spec stats d g :
  Forall2 (λ p p', p'.1 = p.1 ∧ p'.2 ≡ₚ p.2) d (order_groups stats d g).1.
Proof.
  revert g. induction d as [|[t qs] d IH]; intros g; cbn; [constructor|].
  destruct (stats_given stats) as [m|].
  - specialize (IH g). destruct (order_groups stats d g) as [d'' g2].
    constructor; [|done]. split; [done|]. apply sort_desc_Permutation.
  - pose proof (shuffle_Permutation qs g) as Hs.
    destruct (shuffle qs g) as [qs' g1].
    specialize (IH g1). destruct (order_groups stats d g1) as [d'' g2].
    constructor; [|done]. by split.
Qed.

Lemma order_groups_keys stats d g : (order_groups stats d g).1.*1 = d.*1.
Proof.
  pose proof (order_groups_spec stats d g) as H.
  induction H as [|p p' d0 d1 [Hk _] _ IH]; [done|]. cbn. by rewrite Hk, IH.
Qed.

Lemma order_groups_concat stats d g :
  concat (order_groups stats d g).1.*2 ≡ₚ concat d.*2.
Proof.
  pose proof (order_groups_spec stats d g) as H.
  induction H as [|p p' d0 d1 [_ Hp] _ IH]; [done|]. cbn. by rewrite Hp, IH.
Qed.

(** ** The selector: the round-robin loop *)

Lemma keys_unique {B} (d : list (string * B)) t a b :
  NoDup d.*1 → (t, a) ∈ d → (t, b) ∈ d → a = b.
Proof.
  induction d as [|[t' c] d IH]; cbn; [by intros _ ?%elem_of_nil|].
  intros [Hnot Hnd]%NoDup_cons Ha%elem_of_cons Hb%elem_of_cons.
  assert (Hfst : ∀ x, (t, x) ∈ d → t ∈ d.*1).
  { intros x Hx. apply list_elem_of_fmap. by exists (t, x). }
  destruct Ha as [Ha|Ha], Hb as [Hb|Hb]; simplify_eq; auto.
  - by apply Hfst in Hb.
  - by apply Hfst in Ha.
Qed.

Lemma concat_all_nil {B} (d : list (string * list B)) :
  (∀ t qs, (t, qs) ∈ d → qs = []) → concat d.*2 = [].
Proof.
  induction d as [|[t qs] d IH]; [done|]. intros Hall. cbn.
  rewrite (Hall t qs) by apply list_elem_of_here.
  apply IH. intros t' qs' Hin. eapply Hall. by apply list_elem_of_further.
Qed.

Lemma list_remove_spec tag l :
  tag ∈ l →
  ∃ l', list_remove tag l = Ok l' ∧ length l = S (length l') ∧
        (∀ t, t ∈ l' → t ∈ l) ∧ (∀ t, t ∈ l → t = tag ∨ t ∈ l').
Proof.
  induction l as [|t0 l IH]; [by intros ?%elem_of_nil|].
  intros Hin. cbn. destruct (decide (t0 = tag)) as [->|Hne].
  - exists l. split_and!; [done|done| |].
    + intros t Ht. by apply list_elem_of_further.
    + intros t [->|Ht]%elem_of_cons; auto.
  - apply elem_of_cons in Hin as [->|Hin]; [done|].
    destruct (IH Hin) as (l' & -> & Hlen & Hsub & Hsup).
    exists (t0 :: l'). split_and!; [done|cbn; lia| |].
    + intros t [->|Ht]%elem_of_cons; [apply list_elem_of_here|].
      apply list_elem_of_further; auto.
    + intros t [->|Ht]%elem_of_cons; [right; apply list_elem_of_here|].
      destruct (Hsup _ Ht); [by left|right]. by apply list_elem_of_further.
Qed.

Lemma lookup_mod_length (l : list string) (i : nat) :
  l ≠ [] → ∃ t, l !! (i mod length l)%nat = Some t ∧ t ∈ l.
Proof.
  intros Hne.
  assert (Hlt : (i mod length l < length l)%nat).
  { apply Nat.mod_upper_bound. by destruct l. }
  apply lookup_lt_is_Some_2 in Hlt as [t Ht].
  exists t. split; [done|]. by eapply list_elem_of_lookup_2.
Qed.

(** The loop ends within the fuel [select_balanced_questions] gives it.
    It only moves questions from the groups to [selected], and stops
    with [num_questions] of them when the groups hold that many. *)
Lemma round_robin_spec fuel :
  ∀ num selected tag_list idx (d : TagDict),
    tag_list ≠ [] →
    NoDup d.*1 →
    (∀ t, t ∈ tag_list → t ∈ d.*1) →
    (∀ t qs, (t, qs) ∈ d → t ∉ tag_list → qs = []) →
    (length (concat d.*2) + length tag_list ≤ fuel)%nat →
    ∃ res rest,
      round_robin fuel num selected tag_list idx d = Ok res ∧
      res ++ rest ≡ₚ selected ++ concat d.*2 ∧
      Z.of_nat (length res)
      = Z.max (Z.of_nat (length selected))
              (Z.min num (Z.of_nat (length selected + length (concat d.*2)))).
Proof.
  induction fuel as [|fuel IH]; intros num selected tag_list idx d
    Hne Hnd Hkeys Hempty Hfuel.
  { destruct tag_list; [done|]. cbn in Hfuel. lia. }
  cbn [round_robin]. case_decide as Hcond.
  2:{ exists selected, (concat d.*2). split_and!; [done|done|lia]. }
  destruct (lookup_mod_length tag_list idx Hne) as (tag & Hlook & Htag).
  destruct tag_list as [|t0 tl] eqn:Etl; [done|]. rewrite <- Etl in *.
  rewrite Hlook.
  destruct (dict_get_is_Some tag d (Hkeys _ Htag)) as [qs Hget].
  rewrite Hget.
  destruct (dict_get_Some _ _ _ Hget) as (d1 & d2 & Hd & Hnot & Hset).
  destruct qs as [|q rest'].
  - (* the group is used up: it leaves the rotation *)
    destruct (list_remove_spec tag tag_list Htag) as (tl' & -> & Hlen & Hsub & Hsup).
    assert (Hempty' : ∀ t qs, (t, qs) ∈ d → t ∉ tl' → qs = []).
    { intros t qs Hin Hnin. destruct (decide (t ∈ tag_list)) as [Hi|Hi].
      - destruct (Hsup _ Hi) as [->|?]; [|done].
        eapply (keys_unique d tag); [done|done|].
        rewrite Hd. apply elem_of_app. right. apply list_elem_of_here.
      - by eapply Hempty. }
    destruct tl' as [|t1 tl'].
    + rewrite concat_all_nil.
      2:{ intros t qs Hin. eapply Hempty'; [done|apply not_elem_of_nil]. }
      exists selected, []. split_and!; [done|done|]. rewrite Nat.add_0_r. lia.
    + apply IH; [done|done| |done|lia].
      intros t Ht. apply Hkeys. by apply Hsub.
  - (* the head of the group is taken *)
    rewrite Hset. subst d.
    rewrite !fmap_app, !fmap_cons, !concat_app, !concat_cons in *. cbn in *.
    rewrite !length_app in Hfuel. cbn in Hfuel. rewrite !length_app in Hfuel.
    destruct (IH num (selected ++ [q]) tag_list (S idx)
                 (d1 ++ (tag, rest') :: d2)) as (res & rest & Hres & Hperm & Hl).
    + done.
    + by rewrite fmap_app, fmap_cons.
    + intros t Ht. rewrite fmap_app, fmap_cons. by apply Hkeys.
    + intros t qs [Hin|[[= -> ->]|Hin]%elem_of_cons]%elem_of_app Hnin.
      * eapply Hempty; [|done]. apply elem_of_app. by left.
      * done.
      * eapply Hempty; [|done]. apply elem_of_app. right.
        by apply list_elem_of_further.
    + rewrite fmap_app, fmap_cons, concat_app, concat_cons.
      rewrite !length_app. cbn. lia.
    + exists res, rest. rewrite Hres. split_and!; [done| |].
      * rewrite Hperm, fmap_app, fmap_cons, concat_app, concat_cons. cbn.
        rewrite <- !(assoc_L (++)). f_equiv. cbn.
        by rewrite Permutation_middle.
      * rewrite Hl, fmap_app, fmap_cons, concat_app, concat_cons.
        rewrite !length_app. cbn. rewrite !length_app. lia.
Qed.

(** ** The selector: what it answers *)

Lemma grouped_keys_nonempty d l : grouped d l → l ≠ [] → d.*1 ≠ [].
Proof.
  intros (_ & Hperm & _) Hl ->%fmap_nil_inv. cbn in Hperm.
  by apply Permutation_nil_l in Hperm.
Qed.

(** On any input the selector answers; every question
    of the answer carries an allowed tag; the answer takes no question
    more often than the filtered pool holds it, so it is free of
    duplicates whenever the pool is; for a count that is not negative its
    length is [min(count, |filtered|)], and for a negative count it is
    empty; when [count ≥ |filtered|] it is a rearrangement of the filtered
    pool. *)
Lemma select_balanced_questions_spec
    (questions : list Question) (selected_tags : list string) (num_questions : Z)
    (question_stats : option (gmap Z AnswerStat)) (g : Rng) :
  let filtered := filter (λ q, q_tag q ∈ selected_tags) questions in
  ∃ res,
    (select_balanced_questions questions selected_tags num_questions
                               question_stats g).1 = Ok res ∧
    (∀ q, q ∈ res → q_tag q ∈ selected_tags) ∧
    res ⊆+ filtered ∧
    (NoDup questions → NoDup res) ∧
    (0 ≤ num_questions →
     Z.of_nat (length res) = Z.min num_questions (Z.of_nat (length filtered))) ∧
    (num_questions < 0 → res = []) ∧
    (Z.of_nat (length filtered) ≤ num_questions → res ≡ₚ filtered).
Proof.
  intros filtered.
  assert (Hgoal : ∃ res,
    (select_balanced_questions questions selected_tags num_questions
                               question_stats g).1 = Ok res ∧
    res ⊆+ filtered ∧
    Z.of_nat (length res)
    = Z.max 0 (Z.min num_questions (Z.of_nat (length filtered))) ∧
    (Z.of_nat (length filtered) ≤ num_questions → res ≡ₚ filtered)).
  { unfold select_balanced_questions. fold filtered.
    destruct (decide (filtered = [])) as [Hnil|Hnil].
    { exists []. rewrite Hnil. split_and!; [done|done|cbn; lia|done]. }
    destruct (decide (Z.of_nat (length filtered) ≤ num_questions)) as [Hall|Hfew].
    { pose proof (shuffle_Permutation filtered g) as Hs.
      destruct (shuffle filtered g) as [l g']. cbn in *. exists l.
      split_and!; [done|by apply Permutation_submseteq| |done].
      rewrite Hs. lia. }
    pose proof (group_by_tag_grouped filtered) as Hg.
    pose proof (order_groups_keys question_stats (group_by_tag filtered) g) as Hk.
    pose proof (order_groups_concat question_stats (group_by_tag filtered) g) as Hc.
    destruct (order_groups question_stats (group_by_tag filtered) g) as [d g1].
    cbn [fst] in Hk, Hc.
    destruct Hg as (Hnd & Hperm & Hall).
    assert (Hlen : length (concat d.*2) = length filtered) by by rewrite Hc, Hperm.
    destruct (round_robin_spec (length filtered + length d.*1) num_questions []
                d.*1 0%nat d) as (sel & rest & -> & Hsel & Hl).
    - rewrite Hk. by eapply grouped_keys_nonempty.
    - by rewrite Hk.
    - done.
    - intros t qs Hin Hnin. destruct Hnin.
      apply list_elem_of_fmap. by exists (t, qs).
    - lia.
    - pose proof (shuffle_Permutation sel g1) as Hs.
      destruct (shuffle sel g1) as [l g2]. cbn in *. exists l.
      split_and!; [done| | |lia].
      + rewrite Hs, <- Hperm, <- Hc, <- Hsel. by apply submseteq_inserts_r.
      + rewrite Hs, Hl, Hlen. lia. }
  destruct Hgoal as (res & Hres & Hsub & Hl & Hfull).
  exists res. split_and!; [done| |done| | | |done].
  - intros q Hq. eapply elem_of_submseteq in Hq; [|done].
    by apply list_elem_of_filter in Hq as [? _].
  - intros Hnd. apply submseteq_Permutation in Hsub as [k Hk].
    assert (Hf : NoDup filtered) by by apply NoDup_filter.
    rewrite Hk in Hf. by apply NoDup_app in Hf as [? _].
  - lia.
  - intros Hneg. apply nil_length_inv. lia.
Qed.

Lemma NoDup_submseteq_fmap {A B} (f : A → B) (l k : list A) :
  l ⊆+ k → NoDup (f <$> k) → NoDup (f <$> l).
Proof.
  intros Hsub Hnd. apply (fmap_submseteq f) in Hsub.
  apply submseteq_Permutation in Hsub as [k' Hk']. rewrite Hk' in Hnd.
  by apply NoDup_app in Hnd as [? _].
Qed.

(** C1: the pool is the list of stored questions of one test, which
    holds no question twice, and the count comes from a number input
    whose minimum is 1.  For a pool without repeated questions and a
    count that is not negative the selector answers; every question of
    the answer carries an allowed tag; the answer holds no question
    twice (and no id twice when the ids of the pool are unique); its
    length is [min(count, |filtered|)]; and when [count ≥ |filtered|]
    the answer is a rearrangement of the filtered pool, hence equal to it
    as a set. *)
Theorem select_balanced_questions_contract
    (questions : list Question) (selected_tags : list string) (num_questions : Z)
    (question_stats : option (gmap Z AnswerStat)) (g : Rng) :
  NoDup questions → 0 ≤ num_questions →
  let filtered := filter (λ q, q_tag q ∈ selected_tags) questions in
  ∃ res,
    (select_balanced_questions questions selected_tags num_questions
                               question_stats g).1 = Ok res ∧
    (∀ q, q ∈ res → q_tag q ∈ selected_tags) ∧
    NoDup res ∧
    (NoDup (q_id <$> questions) → NoDup (q_id <$> res)) ∧
    Z.of_nat (length res) = Z.min num_questions (Z.of_nat (length filtered)) ∧
    (Z.of_nat (length filtered) ≤ num_questions →
     res ≡ₚ filtered ∧ ∀ q, q ∈ res ↔ q ∈ filtered).
Proof.
  intros Hnd Hnum filtered.
  destruct (select_balanced_questions_spec questions selected_tags num_questions
              question_stats g)
    as (res & Hres & Htags & Hsub & Hnodup & Hlen & _ & Hfull).
  fold filtered in Hsub, Hlen, Hfull.
  exists res. split_and!; [done|done|by apply Hnodup| |by apply Hlen|].
  - apply NoDup_submseteq_fmap. etransitivity; [exact Hsub|].
    apply sublist_submseteq, sublist_filter.
  - intros Hall. pose proof (Hfull Hall) as Hperm. split; [done|].
    intros q. by rewrite Hperm.
Qed.

(** ** The selector: two tags under a budget of two *)

Lemma filter_tag_absent t (d : TagDict) :
  t ∉ d.*1 → uniform_groups d → filter (λ q, q_tag q = t) (concat d.*2) = [].
Proof.
  induction d as [|[t' qs] d IH]; [done|]. cbn.
  intros [Hne Hnot]%not_elem_of_cons [[_ Htag] Hd]%Forall_cons. cbn in *.
  rewrite filter_app, IH by done. rewrite app_nil_r.
  clear -Hne Htag. induction Htag as [|q0 l0 Hq _ IH]; [done|].
  rewrite filter_cons_False; [done|]. rewrite Hq. by intros <-.
Qed.

Lemma filter_tag_present t qs (d : TagDict) :
  NoDup d.*1 → uniform_groups d → (t, qs) ∈ d →
  filter (λ q, q_tag q = t) (concat d.*2) = qs.
Proof.
  induction d as [|[t' qs'] d IH]; [by intros _ _ ?%elem_of_nil|]. cbn.
  intros [Hnot Hnd]%NoDup_cons [[_ Htag] Hd]%Forall_cons Hin. cbn in *.
  rewrite filter_app. apply elem_of_cons in Hin as [[= -> ->]|Hin].
  - rewrite filter_tag_absent by done. rewrite app_nil_r.
    clear -Htag. induction Htag as [|q0 l0 Hq _ IH]; [done|].
    by rewrite filter_cons_True, IH.
  - rewrite IH by done.
    assert (Hne : t' ≠ t).
    { intros ->. apply Hnot, list_elem_of_fmap. by exists (t, qs). }
    clear -Hne Htag. induction Htag as [|q0 l0 Hq _ IH]; [done|].
    rewrite filter_cons_False; [done|]. by rewrite Hq.
Qed.

Lemma grouped_lookup d l t qs :
  grouped d l → (t, qs) ∈ d → qs ≡ₚ filter (λ q, q_tag q = t) l.
Proof.
  intros (Hnd & Hperm & Hall) Hin.
  by rewrite <- Hperm, (filter_tag_present t qs d).
Qed.

Lemma grouped_key d l q : grouped d l → q ∈ l → q_tag q ∈ d.*1.
Proof.
  intros (Hnd & Hperm & Hall) Hq.
  destruct (decide (q_tag q ∈ d.*1)) as [|Hnot]; [done|].
  pose proof (filter_tag_absent _ d Hnot Hall) as Hnil.
  assert (Hin : q ∈ filter (λ q', q_tag q' = q_tag q) (concat d.*2)).
  { apply list_elem_of_filter. split; [done|]. by rewrite Hperm. }
  rewrite Hnil in Hin. by apply elem_of_nil in Hin.
Qed.

Section two_tags.
Variables (A B : string) (a1 a2 a3 b : Question).
Hypothesis HAB : A ≠ B.
Hypotheses (Ha1 : q_tag a1 = A) (Ha2 : q_tag a2 = A) (Ha3 : q_tag a3 = A).
Hypothesis Hb : q_tag b = B.

Lemma two_tags_filter t :
  filter (λ q, q_tag q = t) [a1; a2; a3; b]
  = if decide (t = A) then [a1; a2; a3]
    else if decide (t = B) then [b] else [].
Proof using HAB Ha1 Ha2 Ha3 Hb.
  destruct (decide (t = A)) as [->|HnA].
  - rewrite !filter_cons_True by done.
    rewrite filter_cons_False; [done|]. rewrite Hb. by intros <-.
  - rewrite !filter_cons_False by (by rewrite ?Ha1, ?Ha2, ?Ha3).
    destruct (decide (t = B)) as [->|HnB].
    + by rewrite filter_cons_True.
    + rewrite filter_cons_False; [done|]. by rewrite Hb.
Qed.

(** Grouping a pool of three [A]s and one [B] gives the two groups,
    in either order. *)
Lemma two_tags_groups d l :
  l ≡ₚ [a1; a2; a3; b] → grouped d l →
  ∃ x xs, d = [(A, x :: xs); (B, [b])] ∨ d = [(B, [b]); (A, x :: xs)].
Proof using HAB Ha1 Ha2 Ha3 Hb.
  intros Hl Hg.
  assert (Hin : ∀ t qs, (t, qs) ∈ d →
            (t = A ∧ ∃ x xs, qs = x :: xs) ∨ (t = B ∧ qs = [b])).
  { intros t qs Hin. pose proof (grouped_lookup _ _ _ _ Hg Hin) as Hqs.
    rewrite Hl, two_tags_filter in Hqs.
    destruct Hg as (_ & _ & Hall).
    rewrite Forall_forall in Hall. destruct (Hall _ Hin) as [Hne _].
    cbn in Hne. destruct (decide (t = A)) as [->|?].
    - left. split; [done|]. destruct qs; [done|eauto].
    - destruct (decide (t = B)) as [->|?].
      + right. split; [done|]. by apply Permutation_singleton_r.
      + by apply Permutation_nil_r in Hqs. }
  assert (HA : A ∈ d.*1).
  { rewrite <- Ha1. eapply grouped_key; [done|]. rewrite Hl. apply list_elem_of_here. }
  assert (HB : B ∈ d.*1).
  { rewrite <- Hb. eapply grouped_key; [done|]. rewrite Hl.
    do 3 apply list_elem_of_further. apply list_elem_of_here. }
  destruct Hg as (Hnd & _ & _).
  destruct d as [|[t1 q1] [|[t2 q2] [|[t3 q3] d]]]; cbn in HA, HB, Hnd.
  - by apply elem_of_nil in HA.
  - apply list_elem_of_singleton in HA, HB. congruence.
  - pose proof (Hin t1 q1 ltac:(apply list_elem_of_here)) as H1.
    pose proof (Hin t2 q2 ltac:(apply list_elem_of_further, list_elem_of_here)) as H2.
    apply NoDup_cons in Hnd as [Hne%not_elem_of_cons _].
    destruct H1 as [[-> (x & xs & ->)]|[-> ->]], H2 as [[-> (y & ys & ->)]|[-> ->]];
      try (by destruct Hne); eauto.
  - pose proof (Hin t1 q1 ltac:(apply list_elem_of_here)) as H1.
    pose proof (Hin t2 q2 ltac:(apply list_elem_of_further, list_elem_of_here)) as H2.
    pose proof (Hin t3 q3 ltac:(do 2 apply list_elem_of_further; apply list_elem_of_here)) as H3.
    apply NoDup_cons in Hnd as [[Hn12 [Hn13 _]%not_elem_of_cons]%not_elem_of_cons Hnd].
    apply NoDup_cons in Hnd as [[Hn23 _]%not_elem_of_cons _].
    destruct H1 as [[-> _]|[-> _]], H2 as [[-> _]|[-> _]], H3 as [[-> _]|[-> _]];
      done.
Qed.

(** With both groups stocked, two turns take one head from each. *)
Lemma round_robin_two fuel t1 t2 x xs y ys :
  t1 ≠ t2 →
  round_robin (S (S fuel)) 2 [] [t1; t2] 0 [(t1, x :: xs); (t2, y :: ys)]
  = Ok [x; y].
Proof.
  intros Hne. cbn. rewrite !decide_True by done.
  rewrite (decide_False (P := t1 = t2)) by done.
  rewrite !decide_True by done. cbn.
  rewrite (decide_False (P := t1 = t2)) by done.
  rewrite !decide_True by done.
  destruct fuel; by cbn.
Qed.
End two_tags.

(** C2: a pool of three questions tagged [A] and one tagged [B], both
    tags allowed, and a count of two: whatever the statistics and the
    random draws, the selector answers and its answer holds the one [B]
    question. *)
Theorem select_balanced_questions_round_robin
    (A B : string) (a1 a2 a3 b : Question) (pool : list Question)
    (selected_tags : list string) (question_stats : option (gmap Z AnswerStat))
    (g : Rng) :
  A ≠ B →
  q_tag a1 = A → q_tag a2 = A → q_tag a3 = A → q_tag b = B →
  pool ≡ₚ [a1; a2; a3; b] →
  A ∈ selected_tags → B ∈ selected_tags →
  ∃ res,
    (select_balanced_questions pool selected_tags 2 question_stats g).1 = Ok res ∧
    b ∈ res ∧ length res = 2%nat.
Proof.
  intros HAB Ha1 Ha2 Ha3 Hb Hpool HA HB.
  assert (Hfilter : filter (λ q, q_tag q ∈ selected_tags) pool = pool).
  { assert (Hall : Forall (λ q, q_tag q ∈ selected_tags) pool).
    { rewrite Hpool. repeat constructor; congruence. }
    clear -Hall. induction Hall as [|q l Hq _ IH]; [done|].
    by rewrite filter_cons_True, IH. }
  assert (Hlen : length pool = 4%nat) by by rewrite Hpool.
  unfold select_balanced_questions. rewrite Hfilter.
  rewrite decide_False by (intros ->; done).
  rewrite decide_False by lia.
  destruct (two_tags_groups A B a1 a2 a3 b HAB Ha1 Ha2 Ha3 Hb
              (group_by_tag pool) pool Hpool (group_by_tag_grouped pool))
    as (x & xs & Hd).
  pose proof (order_groups_spec question_stats (group_by_tag pool) g) as Ho.
  destruct (order_groups question_stats (group_by_tag pool) g) as [d' g1].
  cbn [fst] in Ho. rewrite Hlen.
  destruct Hd as [Hd|Hd]; rewrite Hd in Ho;
    apply Forall2_cons_inv_l in Ho as ([t1 q1] & d1 & [Ht1 Hq1] & Ho & ->);
    apply Forall2_cons_inv_l in Ho as ([t2 q2] & d2 & [Ht2 Hq2] & Ho & ->);
    apply Forall2_nil_inv_l in Ho as ->; cbn [fst snd] in *; subst t1 t2;
    change (4 + length ([(?t, ?q); (?t', ?q')].*1))%nat with (S (S 4)%nat);
    change ([(?t, ?q); (?t', ?q')].*1) with [t; t'].
  - apply Permutation_singleton_r in Hq2 as ->.
    destruct q1 as [|y ys]; [by apply Permutation_nil_l in Hq1|].
    rewrite round_robin_two by done.
    pose proof (shuffle_Permutation [y; b] g1) as Hs.
    destruct (shuffle [y; b] g1) as [l g2]. cbn in *. exists l.
    split_and!; [done| |by rewrite Hs].
    rewrite Hs. apply list_elem_of_further, list_elem_of_here.
  - apply Permutation_singleton_r in Hq1 as ->.
    destruct q2 as [|y ys]; [by apply Permutation_nil_l in Hq2|].
    rewrite round_robin_two by done.
    pose proof (shuffle_Permutation [b; y] g1) as Hs.
    destruct (shuffle [b; y] g1) as [l g2]. cbn in *. exists l.
    split_and!; [done| |by rewrite Hs].
    rewrite Hs. apply list_elem_of_here.
Qed.

(** ** The quiz flow: answering a question *)

(** [submit_answer] stores the answer, tells the history repository when
    a user is logged in, and asks for a rerun. *)
Lemma submit_answer_run (i : nat) (question : Question) (w : World) (q : Quiz) :
  quiz w = Some q →
  let is_correct := bool_decide (Z.of_nat i = q_answer_index question) in
  let q' := {| questions := questions q; current_index := current_index q;
               answered := true;
               score := if is_correct then score q + 1 else score q;
               selected_answer := Some i;
               wrong_questions :=
                 if is_correct then wrong_questions q
                 else wrong_questions q ++ [question];
               round_history := round_history q;
               current_round := current_round q;
               current_test_id := current_test_id q;
               current_session_id := current_session_id q;
               session_score_saved := session_score_saved q |} in
  ∃ w', submit_answer i question w = (Raise Rerun, w') ∧
        quiz w' = Some q' ∧ user_id w' = user_id w ∧ page w' = page w ∧
        db_log w' =
          db_log w ++
          (if truthy (user_id w)
           then [record_answer (default 0 (user_id w)) (current_test_id q)
                               (q_id question) is_correct (current_session_id q)]
           else []).
Proof.
  intros Hq is_correct q'. destruct w as [uid qz g log nxt repo pg].
  cbn in Hq. subst qz. unfold submit_answer. unfold_script. cbn.
  destruct uid as [u|]; cbn; [destruct (bool_decide (u ≠ 0)); cbn|];
    eexists; split_and!; try done; cbn; by rewrite app_nil_r.
Qed.

(** The loop over the options reaches the clicked button and stops there. *)
Lemma option_buttons_click (question : Question) (opt : nat) :
  ∀ options k w q, quiz w = Some q →
    (k ≤ opt < k + length options)%nat →
    ∃ p, option_buttons (ClickOption opt) question k options w
         = submit_answer opt question (set_page p w).
Proof.
  induction options as [|o options IH]; intros k w q Hq Hk; [cbn in Hk; lia|].
  cbn [option_buttons]. unfold button, draw. unfold mbind at 1 2 3, M_bind. cbn.
  destruct (decide (opt = k)) as [->|Hne].
  - rewrite bool_decide_eq_true_2 by done.
    destruct (submit_answer_run k question (set_page (page w ++ [option_button k]) w) q Hq)
      as (w' & Hrun & _).
    exists (page w ++ [option_button k]). unfold mbind, M_bind. by rewrite Hrun.
  - rewrite bool_decide_eq_false_2 by congruence. cbn.
    destruct (IH (S k) (set_page (page w ++ [option_button k]) w) q Hq) as [p Hp].
    { cbn in Hk. lia. }
    exists p. apply Hp.
Qed.

(** While the feedback of an answered question is on the page, a run
    started by anything but its two buttons changes neither the quiz nor
    the log, and draws the feedback and those two buttons. *)
Lemma answered_rerender (ev : Click) (w : World) (q : Quiz) (question : Question) :
  ev ≠ ClickNext → ev ≠ ClickAbandon →
  quiz w = Some q →
  questions q !! current_index q = Some question →
  answered q = true →
  ∃ w', run_script ev w = (Ok (), w') ∧ quiz w' = Some q ∧
        db_log w' = db_log w ∧
        page w' = [feedback (selected_answer q) (q_answer_index question);
                   next_button; abandon_button].
Proof.
  intros Hn Ha Hq Hlook Hans. destruct w as [uid qz g log nxt repo pg].
  cbn in Hq. subst qz. unfold run_script, show_quiz. unfold_script. cbn.
  rewrite decide_False by (apply lookup_lt_Some in Hlook; lia).
  unfold present_question. unfold_script. cbn. rewrite Hlook, Hans. cbn.
  rewrite !bool_decide_eq_false_2 by done.
  eexists. by split_and!.
Qed.

(** A click on option [opt] of the question on the page runs
    [submit_answer] for it. *)
Lemma run_script_submit (w : World) (q : Quiz) (question : Question) (opt : nat) :
  quiz w = Some q →
  questions q !! current_index q = Some question →
  answered q = false →
  (opt < length (q_options question))%nat →
  ∃ p, run_script (ClickOption opt) w = submit_answer opt question (set_page p w).
Proof.
  intros Hq Hlook Hans Hopt.
  destruct (option_buttons_click question opt (q_options question) 0%nat
              (set_page [] w) q Hq ltac:(lia)) as [p Hp].
  exists p. unfold run_script. rewrite Hq. unfold show_quiz, get_quiz.
  unfold mbind at 1, M_bind. cbn. rewrite Hq.
  rewrite decide_False by (apply lookup_lt_Some in Hlook; lia).
  unfold present_question, get_quiz. unfold mbind at 1, M_bind. cbn.
  rewrite Hq, Hlook, Hans. cbn. unfold mbind at 1, M_bind.
  rewrite Hp. change (set_page p (set_page [] w)) with (set_page p w).
  destruct (submit_answer_run opt question (set_page p w) q Hq) as (w' & -> & _).
  done.
Qed.

(** C4: in a round that is presenting question [i], a click on one of
    its options adds one to the score exactly when the option is the
    question's [answer_index], appends the question to the wrong list
    exactly when it is not, and leaves the round with question [i]
    answered; the index, the question list and every other key stay as
    they were.  The outcome goes to the history repository when a user
    is logged in. *)
Theorem submit_answer_transition
    (w : World) (q : Quiz) (question : Question) (opt : nat) :
  quiz w = Some q →
  questions q !! current_index q = Some question →
  answered q = false →
  (opt < length (q_options question))%nat →
  ∃ w' q',
    run_script (ClickOption opt) w = (Raise Rerun, w') ∧
    quiz w' = Some q' ∧
    quiz (interact (ClickOption opt) w) = Some q' ∧
    (score q' = score q + 1 ↔ Z.of_nat opt = q_answer_index question) ∧
    (score q' = score q ↔ Z.of_nat opt ≠ q_answer_index question) ∧
    (wrong_questions q' = wrong_questions q ++ [question]
     ↔ Z.of_nat opt ≠ q_answer_index question) ∧
    (wrong_questions q' = wrong_questions q
     ↔ Z.of_nat opt = q_answer_index question) ∧
    answered q' = true ∧
    selected_answer q' = Some opt ∧
    current_index q' = current_index q ∧
    questions q' = questions q ∧
    round_history q' = round_history q ∧
    current_round q' = current_round q ∧
    current_test_id q' = current_test_id q ∧
    current_session_id q' = current_session_id q ∧
    session_score_saved q' = session_score_saved q ∧
    db_log w' =
      db_log w ++
      (if truthy (user_id w)
       then [record_answer (default 0 (user_id w)) (current_test_id q)
               (q_id question)
               (bool_decide (Z.of_nat opt = q_answer_index question))
               (current_session_id q)]
       else []).
Proof.
  intros Hq Hlook Hans Hopt.
  destruct (run_script_submit w q question opt Hq Hlook Hans Hopt) as [p Hrun].
  destruct (submit_answer_run opt question (set_page p w) q Hq)
    as (w' & Hsub & Hq' & _ & _ & Hlog).
  rewrite Hsub in Hrun. eexists w', _. split; [done|]. split; [done|]. split.
  { unfold interact. rewrite Hrun.
    destruct (answered_rerender NoClick w' _ question ltac:(done) ltac:(done)
                Hq' Hlook eq_refl) as (w'' & -> & ? & _).
    done. }
  cbn. pose proof (length_app (wrong_questions q) [question]) as Hlen.
  cbn in Hlen.
  assert (Hgrow : wrong_questions q ++ [question] ≠ wrong_questions q).
  { intros Heq. rewrite Heq in Hlen. lia. }
  cbn in Hlog.
  destruct (bool_decide (Z.of_nat opt = q_answer_index question)) eqn:Hc;
    [apply bool_decide_eq_true in Hc|apply bool_decide_eq_false in Hc];
    split_and!; try done; split; intros; try done; lia.
Qed.

(** ** The quiz flow: the end of a round *)

Lemma set_page_same w : set_page (page w ++ []) w = w.
Proof. rewrite app_nil_r. by destruct w. Qed.

Lemma set_page_app w ws1 ws2 :
  set_page (page (set_page (page w ++ ws1) w) ++ ws2) (set_page (page w ++ ws1) w)
  = set_page (page w ++ ws1 ++ ws2) w.
Proof. unfold set_page. cbn. by rewrite (assoc_L (++)). Qed.

Lemma draws_page_only P m : draws P m → page_only P m.
Proof. intros H w. destruct (H w) as (ws & ? & ->). eauto. Qed.

Lemma page_only_bind {A B} P (m : M A) (f : A → M B) :
  page_only P m → (∀ a, page_only P (f a)) → page_only P (m ≫= f).
Proof.
  intros Hm Hf w. unfold mbind, M_bind. destruct (Hm w) as (r & ws & Hws & ->).
  destruct r as [a|e|]; [|by eauto..].
  destruct (Hf a (set_page (page w ++ ws) w)) as (r' & ws' & Hws' & ->).
  exists r', (ws ++ ws'). split; [by apply Forall_app|]. by rewrite set_page_app.
Qed.

(** Running on after a piece that draws. *)
Lemma bind_draws {B} P (m : M unit) (f : unit → M B) w :
  draws P m →
  ∃ ws, Forall P ws ∧ (m ≫= f) w = f () (set_page (page w ++ ws) w).
Proof.
  intros Hm. destruct (Hm w) as (ws & Hws & Hrun). exists ws. split; [done|].
  unfold mbind, M_bind. by rewrite Hrun.
Qed.

Lemma draws_bind P (m : M unit) (f : unit → M unit) :
  draws P m → (∀ a, draws P (f a)) → draws P (m ≫= f).
Proof.
  intros Hm Hf w. destruct (bind_draws P m f w Hm) as (ws & Hws & ->).
  destruct (Hf () (set_page (page w ++ ws) w)) as (ws' & Hws' & ->).
  exists (ws ++ ws'). split; [by apply Forall_app|]. by rewrite set_page_app.
Qed.

Lemma page_only_ret {A} P (a : A) : page_only P (mret a).
Proof. intros w. exists (Ok a), []. by rewrite set_page_same. Qed.

Lemma draws_ret P : draws P (mret ()).
Proof. intros w. exists []. by rewrite set_page_same. Qed.

Lemma page_only_raise {A} P e : page_only P (raise (A := A) e).
Proof. intros w. exists (Raise e), []. by rewrite set_page_same. Qed.

Lemma draws_draw (P : Widget → Prop) x : P x → draws P (draw x).
Proof. intros Hx w. exists [x]. split; [by apply Forall_singleton|done]. Qed.

Lemma page_only_dividing_by P d : page_only P (dividing_by d).
Proof.
  unfold dividing_by. case_decide; [apply page_only_raise|apply page_only_ret].
Qed.

Lemma draws_dividing_by P d : d ≠ 0 → draws P (dividing_by d).
Proof.
  intros Hd. unfold dividing_by. rewrite decide_False by done. apply draws_ret.
Qed.

Lemma page_only_py_index {A} P (l : list A) i : page_only P (py_index l i).
Proof.
  unfold py_index. cbn zeta. case_decide; [|apply page_only_raise].
  destruct (l !! _); [apply page_only_ret|apply page_only_raise].
Qed.

Lemma py_index_ok {A} (l : list A) i :
  0 ≤ i < Z.of_nat (length l) →
  ∃ a, ∀ w, py_index l i w = (Ok a, w).
Proof.
  intros Hi. destruct (lookup_lt_is_Some_2 l (Z.to_nat i)) as [a Ha]; [lia|].
  exists a. intros w. unfold py_index. cbn zeta.
  rewrite (decide_False (P := i < 0)) by lia.
  rewrite decide_True by lia. by rewrite Ha.
Qed.

Lemma page_only_for_each {A} P (l : list A) (body : A → M unit) :
  (∀ a, page_only P (body a)) → page_only P (for_each l body).
Proof.
  intros Hb. induction l as [|a l IH]; cbn; [apply page_only_ret|].
  apply page_only_bind; [apply Hb|done].
Qed.

Lemma draws_for_each {A} P (l : list A) (body : A → M unit) :
  Forall (λ a, draws P (body a)) l → draws P (for_each l body).
Proof.
  induction 1 as [|a l Ha _ IH]; cbn; [apply draws_ret|].
  apply draws_bind; [apply Ha|done].
Qed.

Lemma bind_ret {A B} (a : A) (f : A → M B) w : (mret a ≫= f) w = f a w.
Proof. reflexivity. Qed.

Lemma bind_draw {B} x (f : unit → M B) w :
  (draw x ≫= f) w = f () (set_page (page w ++ [x]) w).
Proof. reflexivity. Qed.

Lemma bind_button_other {B} ev this x (k : bool → M B) w :
  ev ≠ this →
  (button ev this x ≫= k) w = k false (set_page (page w ++ [x]) w).
Proof.
  intros Hne. unfold button, draw. unfold mbind, M_bind, mret, M_ret. cbn.
  by rewrite bool_decide_eq_false_2.
Qed.

Lemma bind_button_this {B} this x (k : bool → M B) w :
  (button this this x ≫= k) w = k true (set_page (page w ++ [x]) w).
Proof.
  unfold button, draw. unfold mbind, M_bind, mret, M_ret. cbn.
  by rewrite bool_decide_eq_true_2.
Qed.

Lemma total_of_py_sum l : py_sum l = total_of l.
Proof.
  unfold py_sum, total_of.
  assert (H : ∀ a, foldl Z.add a l = a + foldr Z.add 0 l).
  { induction l as [|x l IH]; intros a; cbn; [lia|]. rewrite IH. lia. }
  rewrite H. lia.
Qed.

Lemma total_of_pos l : l ≠ [] → Forall (λ x, 0 < x) l → 0 < total_of l.
Proof.
  intros Hne Hall. destruct Hall as [|x l Hx Hl]; [done|]. cbn.
  clear Hne. induction Hl as [|y l Hy _ IH]; cbn in *; lia.
Qed.

(** The first two steps of [round_complete]: the score is stored when it
    is due, the round enters the history when it is not there yet. *)
Lemma round_complete_saves (ev : Click) (w : World) (q : Quiz) :
  quiz w = Some q →
  ∃ w2,
    round_complete ev w =
      (dividing_by (Z.of_nat (length (questions q)));;
       draw (metric_round (current_round q) (score q)
                          (Z.of_nat (length (questions q))));;
       show_accumulated (history_after q);;
       show_wrong ev (current_round q) (wrong_questions q)) w2 ∧
    user_id w2 = user_id w ∧ random w2 = random w ∧
    db_next_session w2 = db_next_session w ∧
    db_questions w2 = db_questions w ∧ page w2 = page w ∧
    db_log w2 =
      db_log w ++
      (if score_due w q
       then [update_session_score (default 0 (current_session_id q)) (score q)
                                  (Z.of_nat (length (questions q)))]
       else []) ∧
    quiz w2 = Some
      {| questions := questions q; current_index := current_index q;
         answered := answered q; score := score q;
         selected_answer := selected_answer q;
         wrong_questions := wrong_questions q;
         round_history := history_after q;
         current_round := current_round q;
         current_test_id := current_test_id q;
         current_session_id := current_session_id q;
         session_score_saved :=
           if score_due w q then Some true else session_score_saved q |}.
Proof.
  intros Hq. destruct w as [uid qz g log nxt repo pg]. cbn in Hq. subst qz.
  unfold round_complete, save_session_score, save_round_history, score_due,
    history_after.
  unfold_script. cbn.
  destruct (truthy uid && truthy (current_session_id q)
            && negb (default false (session_score_saved q))); cbn;
    case_decide; cbn; eexists; (split; [reflexivity|]); cbn;
    rewrite ?app_nil_r; split_and!; try done; by destruct q.
Qed.

(** The first two steps of [round_complete], whatever was clicked. *)
Lemma round_complete_saves_all (w : World) (q : Quiz) :
  quiz w = Some q →
  ∃ w2,
    (∀ ev, round_complete ev w =
      (dividing_by (Z.of_nat (length (questions q)));;
       draw (metric_round (current_round q) (score q)
                          (Z.of_nat (length (questions q))));;
       show_accumulated (history_after q);;
       show_wrong ev (current_round q) (wrong_questions q)) w2) ∧
    user_id w2 = user_id w ∧ random w2 = random w ∧
    db_next_session w2 = db_next_session w ∧
    page w2 = page w ∧
    db_log w2 =
      db_log w ++
      (if score_due w q
       then [update_session_score (default 0 (current_session_id q)) (score q)
                                  (Z.of_nat (length (questions q)))]
       else []) ∧
    quiz w2 = Some
      {| questions := questions q; current_index := current_index q;
         answered := answered q; score := score q;
         selected_answer := selected_answer q;
         wrong_questions := wrong_questions q;
         round_history := history_after q;
         current_round := current_round q;
         current_test_id := current_test_id q;
         current_session_id := current_session_id q;
         session_score_saved :=
           if score_due w q then Some true else session_score_saved q |}.
Proof.
  intros Hq. destruct w as [uid qz g log nxt repo pg]. cbn in Hq. subst qz.
  unfold round_complete, save_session_score, save_round_history, score_due,
    history_after.
  unfold_script. cbn.
  destruct (truthy uid && truthy (current_session_id q)
            && negb (default false (session_score_saved q))); cbn;
    case_decide; cbn; eexists; (split; [intros ev; reflexivity|]); cbn;
    rewrite ?app_nil_r; split_and!; try done; by destruct q.
Qed.

Lemma page_only_mono {A} (P Q : Widget → Prop) (m : M A) :
  (∀ x, P x → Q x) → page_only P m → page_only Q m.
Proof.
  intros HPQ Hm w. destruct (Hm w) as (r & ws & Hws & ->).
  exists r, ws. split; [|done]. by eapply Forall_impl.
Qed.

Lemma page_only_show_accumulated history :
  page_only (summary_widget history) (show_accumulated history).
Proof.
  unfold show_accumulated. case_decide; [|apply page_only_ret]. cbn zeta.
  apply page_only_bind; [apply page_only_dividing_by|]. intros _.
  apply page_only_bind.
  { apply draws_page_only, draws_draw. cbn. by rewrite !total_of_py_sum. }
  intros _. apply page_only_for_each. intros r.
  apply page_only_bind; [apply page_only_dividing_by|]. intros _.
  by apply draws_page_only, draws_draw.
Qed.

(** With no empty round in it, the history is summed up and listed; the
    accumulated metric is there as soon as two rounds are. *)
Lemma show_accumulated_run history w :
  Forall (λ r, 0 < r_total r) history →
  ∃ ws, Forall (summary_widget history) ws ∧
        show_accumulated history w = (Ok (), set_page (page w ++ ws) w) ∧
        ((1 < length history)%nat →
         metric_accumulated (total_of (r_score <$> history))
                            (total_of (r_total <$> history)) ∈ ws).
Proof.
  intros Hpos. unfold show_accumulated. case_decide as Hlen.
  2:{ exists []. rewrite set_page_same. split_and!; [done|done|lia]. }
  cbn zeta. rewrite !total_of_py_sum.
  assert (Hsum : total_of (r_total <$> history) ≠ 0).
  { assert (0 < total_of (r_total <$> history)); [|lia].
    apply total_of_pos; [destruct history; [cbn in Hlen; lia|done]|].
    by apply Forall_fmap. }
  destruct (bind_draws (summary_widget history) _
              (λ _, draw (metric_accumulated (total_of (r_score <$> history))
                                             (total_of (r_total <$> history)));;
                    for_each history (λ r, dividing_by (r_total r);;
                      draw (round_line (r_round r) (r_score r) (r_total r))))
              w (draws_dividing_by _ _ Hsum)) as (ws1 & Hws1 & ->).
  assert (Hlines : draws (summary_widget history)
            (for_each history (λ r, dividing_by (r_total r);;
               draw (round_line (r_round r) (r_score r) (r_total r))))).
  { apply draws_for_each. eapply Forall_impl; [exact Hpos|]. intros r Hr.
    cbn in Hr |- *.
    apply draws_bind; [apply draws_dividing_by; lia|]. intros _.
    by apply draws_draw. }
  rewrite bind_draw.
  match goal with
  | |- context [for_each _ _ ?w'] => destruct (Hlines w') as (ws2 & Hws2 & ->)
  end.
  exists (ws1 ++ metric_accumulated (total_of (r_score <$> history))
                                    (total_of (r_total <$> history)) :: ws2).
  split_and!.
  - apply Forall_app. split; [done|]. by apply Forall_cons.
  - unfold set_page. cbn. by rewrite <- !(assoc_L (++)).
  - intros _. apply elem_of_app. right. apply list_elem_of_here.
Qed.

(** Without a click on "Repetir" or "Volver", the failed questions and
    the buttons are only drawn. *)
Lemma page_only_show_wrong history ev current_round wrong :
  ev ≠ ClickRepeat → ev ≠ ClickHome →
  page_only (completion_widget history) (show_wrong ev current_round wrong).
Proof.
  intros Hr Hh. unfold show_wrong. destruct wrong as [|x wrong].
  - intros w. rewrite bind_button_other by done. exists (Ok ()), [home_button].
    split; [|done]. apply Forall_singleton. right. by right.
  - apply page_only_bind.
    { apply page_only_for_each. intros q.
      apply page_only_bind; [apply page_only_py_index|]. intros c.
      apply draws_page_only, draws_draw. by left. }
    intros _ w. rewrite bind_button_other by done. cbn beta iota.
    rewrite bind_ret, bind_button_other by done.
    exists (Ok ()), [repeat_button; home_button]. split.
    + repeat constructor; right; auto.
    + unfold set_page. cbn. by rewrite <- (assoc_L (++)).
Qed.

Lemma page_only_completion_view ev q :
  ev ≠ ClickRepeat → ev ≠ ClickHome →
  page_only (completion_widget (history_after q))
    (dividing_by (Z.of_nat (length (questions q)));;
     draw (metric_round (current_round q) (score q)
                        (Z.of_nat (length (questions q))));;
     show_accumulated (history_after q);;
     show_wrong ev (current_round q) (wrong_questions q)).
Proof.
  intros Hr Hh.
  apply page_only_bind; [apply page_only_dividing_by|]. intros _.
  apply page_only_bind; [apply draws_page_only, draws_draw; by left|]. intros _.
  apply page_only_bind; [|intros _; by apply page_only_show_wrong].
  eapply page_only_mono; [|apply page_only_show_accumulated]. by left.
Qed.

Lemma show_quiz_round_over ev w q :
  quiz w = Some q → round_over q → show_quiz ev w = round_complete ev w.
Proof.
  intros Hq Hover. unfold show_quiz, get_quiz. unfold mbind at 1, M_bind.
  rewrite Hq. by rewrite decide_True.
Qed.

(** One more rendering of the completion view: the score is stored if
    it was due, and is not due afterwards; the round is in the history;
    the page holds the completion view. *)
Lemma rerender_step (w : World) (q : Quiz) :
  quiz w = Some q → round_over q →
  ∃ q1, quiz (run_script NoClick w).2 = Some q1 ∧ round_over q1 ∧
        score_due (run_script NoClick w).2 q1 = false ∧
        round_history q1 = history_after q ∧
        Forall (completion_widget (history_after q)) (page (run_script NoClick w).2) ∧
        db_log (run_script NoClick w).2 =
          db_log w ++
          (if score_due w q
           then [update_session_score (default 0 (current_session_id q)) (score q)
                                      (Z.of_nat (length (questions q)))]
           else []).
Proof.
  intros Hq Hover. unfold run_script. rewrite Hq.
  rewrite (show_quiz_round_over NoClick (set_page [] w) q Hq Hover).
  destruct (round_complete_saves NoClick (set_page [] w) q Hq)
    as (w2 & -> & Hu & _ & _ & _ & Hpage & Hlog & Hq2).
  destruct (page_only_completion_view NoClick q ltac:(done) ltac:(done) w2)
    as (r & ws & Hws & ->).
  cbn [snd]. eexists. split; [exact Hq2|]. split; [exact Hover|].
  change (score_due (set_page [] w) q) with (score_due w q) in *.
  split_and!.
  - unfold score_due in *. cbn. rewrite Hu. cbn.
    destruct (truthy (user_id w)), (truthy (current_session_id q)),
      (session_score_saved q) as [[]|]; done.
  - done.
  - cbn. by rewrite Hpage.
  - exact Hlog.
Qed.

(** ** The quiz flow: the summary and the repeat round *)

Lemma history_after_pos q :
  questions q ≠ [] → Forall (λ r, 0 < r_total r) (round_history q) →
  Forall (λ r, 0 < r_total r) (history_after q).
Proof.
  intros Hne Hpos. unfold history_after. case_decide; [|done].
  apply Forall_app. split; [done|]. apply Forall_singleton. cbn.
  destruct (questions q); [done|]. cbn. lia.
Qed.

(** When the top of the completion view can be drawn, [round_complete]
    comes to [show_wrong] with the summary on the page. *)
Lemma round_complete_header (ev : Click) (w : World) (q : Quiz) :
  quiz w = Some q →
  questions q ≠ [] → Forall (λ r, 0 < r_total r) (round_history q) →
  ∃ w3 ws,
    round_complete ev w = show_wrong ev (current_round q) (wrong_questions q) w3 ∧
    page w3 = page w ++ ws ∧
    Forall (summary_widget (history_after q)) ws ∧
    ((1 < length (history_after q))%nat →
     metric_accumulated (total_of (r_score <$> history_after q))
                        (total_of (r_total <$> history_after q)) ∈ ws) ∧
    user_id w3 = user_id w ∧ random w3 = random w ∧
    db_next_session w3 = db_next_session w ∧
    db_log w3 =
      db_log w ++
      (if score_due w q
       then [update_session_score (default 0 (current_session_id q)) (score q)
                                  (Z.of_nat (length (questions q)))]
       else []) ∧
    ∃ q3, quiz w3 = Some q3 ∧
          round_history q3 = history_after q ∧
          current_test_id q3 = current_test_id q ∧
          questions q3 = questions q ∧ current_index q3 = current_index q ∧
          current_round q3 = current_round q ∧ score q3 = score q ∧
          wrong_questions q3 = wrong_questions q.
Proof.
  intros Hq Hne Hpos.
  destruct (round_complete_saves ev w q Hq)
    as (w2 & -> & Hu & Hg & Hn & _ & Hpage & Hlog & Hq2).
  assert (Htotal : Z.of_nat (length (questions q)) ≠ 0).
  { destruct (questions q); [done|]. cbn. lia. }
  destruct (bind_draws (summary_widget (history_after q)) _
              (λ _, draw (metric_round (current_round q) (score q)
                                       (Z.of_nat (length (questions q))));;
                    show_accumulated (history_after q);;
                    show_wrong ev (current_round q) (wrong_questions q))
              w2 (draws_dividing_by _ _ Htotal)) as (ws1 & Hws1 & ->).
  rewrite bind_draw. unfold mbind at 1, M_bind.
  match goal with
  | |- context [show_accumulated _ ?w'] =>
      destruct (show_accumulated_run (history_after q) w'
                  (history_after_pos q Hne Hpos)) as (ws2 & Hws2 & -> & Hacc)
  end.
  eexists _, (ws1 ++ metric_round (current_round q) (score q)
                       (Z.of_nat (length (questions q))) :: ws2).
  split; [reflexivity|]. cbn. rewrite Hpage, Hu, Hg, Hn, Hlog, Hq2.
  split_and!; try done.
  - by rewrite <- !(assoc_L (++)).
  - apply Forall_app. split; [done|]. by apply Forall_cons.
  - intros Hlen. apply elem_of_app. right. apply list_elem_of_further. auto.
  - eexists. by split_and!.
Qed.

(** C6: the accumulated summary of the completion view is the plain sum
    over the stored round history: whenever the view shows an
    accumulated metric, its two numbers are the sum of the rounds' scores
    and the sum of the rounds' totals of [round_history] as it is stored
    after that rendering; the metric is shown as soon as the history has
    two rounds; for the rounds 8/10 and 3/3 it shows 11 and 13. *)
Theorem accumulated_summary (w : World) (q : Quiz) :
  quiz w = Some q → round_over q →
  ∃ q',
    quiz (run_script NoClick w).2 = Some q' ∧
    (∀ c t, metric_accumulated c t ∈ page (run_script NoClick w).2 →
       c = total_of (r_score <$> round_history q') ∧
       t = total_of (r_total <$> round_history q')) ∧
    (questions q ≠ [] → Forall (λ r, 0 < r_total r) (round_history q) →
     (1 < length (round_history q'))%nat →
     metric_accumulated (total_of (r_score <$> round_history q'))
                        (total_of (r_total <$> round_history q'))
       ∈ page (run_script NoClick w).2) ∧
    metric_accumulated 11 13
      ∈ page (run_script NoClick (sample_world None sample_second_round)).2.
Proof.
  intros Hq Hover.
  destruct (rerender_step w q Hq Hover) as (q' & Hq' & _ & _ & Hhist & Hpage & _).
  exists q'. rewrite Hhist. split_and!; [done| | |].
  - intros c t Hin. rewrite Forall_forall in Hpage.
    by destruct (Hpage _ Hin) as [?|[?|?]].
  - intros Hne Hpos Hlen. unfold run_script. rewrite Hq.
    rewrite (show_quiz_round_over NoClick (set_page [] w) q Hq Hover).
    destruct (round_complete_header NoClick (set_page [] w) q Hq Hne Hpos)
      as (w3 & ws & -> & Hp3 & _ & Hacc & _).
    destruct (page_only_show_wrong (history_after q) NoClick (current_round q)
                (wrong_questions q) ltac:(done) ltac:(done) w3)
      as (r & ws' & _ & ->).
    cbn. rewrite Hp3. cbn. apply elem_of_app. left. auto.
  - vm_compute. apply list_elem_of_further, list_elem_of_here.
Qed.

(** The click on "Repetir preguntas falladas" (lines 348-366). *)
Lemma repeat_wrong_run (current_round : Z) (wrong : list Question) (w : World) (q : Quiz) :
  quiz w = Some q →
  ∃ w', repeat_wrong current_round wrong w = (Raise Rerun, w') ∧
        page w' = page w ∧ user_id w' = user_id w ∧
        db_log w' =
          db_log w ++
          (if truthy (user_id w)
           then [create_session (default 0 (user_id w)) (current_test_id q) 0
                                (Z.of_nat (length wrong))]
           else []) ∧
        quiz w' = Some
          {| questions := (shuffle wrong (random w)).1; current_index := 0%nat;
             answered := false; score := 0; selected_answer := None;
             wrong_questions := [];
             round_history := round_history q;
             current_round := current_round + 1;
             current_test_id := current_test_id q;
             current_session_id :=
               if truthy (user_id w) then Some (db_next_session w) else None;
             session_score_saved := Some false |}.
Proof.
  intros Hq. destruct w as [uid qz g log nxt repo pg]. cbn in Hq. subst qz.
  unfold repeat_wrong, random_shuffle, db_create_session. unfold_script. cbn.
  pose proof (shuffle_Permutation wrong g) as Hs.
  destruct (shuffle wrong g) as [wrong' g']. cbn in *.
  destruct uid as [u|]; cbn; [destruct (bool_decide (u ≠ 0)); cbn|];
    eexists; split_and!; try done; cbn; by rewrite ?app_nil_r, ?Hs.
Qed.

Lemma draws_wrong_expanders P (wrong : list Question) :
  (∀ x c, P (wrong_expander x c)) →
  Forall (λ x, 0 ≤ q_answer_index x < Z.of_nat (length (q_options x))) wrong →
  draws P (for_each wrong (λ q,
    correct ← py_index (q_options q) (q_answer_index q);
    draw (wrong_expander q correct))).
Proof.
  intros HP Hvalid. apply draws_for_each.
  eapply Forall_impl; [exact Hvalid|]. intros x Hx w. cbn in Hx.
  destruct (py_index_ok (q_options x) (q_answer_index x) Hx) as [c Hc].
  exists [wrong_expander x c]. split; [by apply Forall_singleton|].
  unfold mbind, M_bind. by rewrite Hc.
Qed.

Lemma show_wrong_repeat (current_round : Z) (wrong : list Question) (w : World) (q : Quiz) :
  quiz w = Some q → wrong ≠ [] →
  Forall (λ x, 0 ≤ q_answer_index x < Z.of_nat (length (q_options x))) wrong →
  ∃ ws, show_wrong ClickRepeat current_round wrong w
        = repeat_wrong current_round wrong (set_page (page w ++ ws) w).
Proof.
  intros Hq Hne Hvalid. unfold show_wrong. destruct wrong as [|x l] eqn:E; [done|].
  rewrite <- E in *.
  destruct (bind_draws (λ _, True) _
    (λ _, clicked ← button ClickRepeat ClickRepeat repeat_button;
          (if (clicked : bool) then repeat_wrong current_round wrong else mret ());;
          clicked ← button ClickRepeat ClickHome home_button;
          if (clicked : bool) then reset_quiz;; rerun else mret ())
    w (draws_wrong_expanders (λ _, True) wrong (λ _ _, I) Hvalid)) as (ws & _ & ->).
  rewrite bind_button_this. cbn beta iota. unfold mbind at 1, M_bind.
  exists (ws ++ [repeat_button]).
  rewrite set_page_app.
  destruct (repeat_wrong_run current_round wrong
              (set_page (page w ++ ws ++ [repeat_button]) w) q Hq) as (w' & -> & _).
  done.
Qed.

(** When the completion view is drawn to its end without a click, every
    run comes to [show_wrong] with the summary on the page. *)
Lemma round_complete_drawn (w : World) (q : Quiz) :
  quiz w = Some q →
  (round_complete NoClick w).1 = Ok () →
  ∃ w3 ws,
    (∀ ev, round_complete ev w
           = show_wrong ev (current_round q) (wrong_questions q) w3) ∧
    page w3 = page w ++ ws ∧
    Forall (summary_widget (history_after q)) ws ∧
    user_id w3 = user_id w ∧ random w3 = random w ∧
    db_next_session w3 = db_next_session w ∧
    db_log w3 =
      db_log w ++
      (if score_due w q
       then [update_session_score (default 0 (current_session_id q)) (score q)
                                  (Z.of_nat (length (questions q)))]
       else []) ∧
    quiz w3 = Some
      {| questions := questions q; current_index := current_index q;
         answered := answered q; score := score q;
         selected_answer := selected_answer q;
         wrong_questions := wrong_questions q;
         round_history := history_after q;
         current_round := current_round q;
         current_test_id := current_test_id q;
         current_session_id := current_session_id q;
         session_score_saved :=
           if score_due w q then Some true else session_score_saved q |}.
Proof.
  intros Hq Hdrawn.
  destruct (round_complete_saves_all w q Hq)
    as (w2 & Hrun & Hu & Hg & Hn & Hpage & Hlog & Hq2).
  rewrite Hrun in Hdrawn.
  unfold dividing_by in Hrun, Hdrawn. case_decide as Htotal; [done|].
  rewrite bind_ret, bind_draw in Hdrawn.
  unfold mbind at 1 in Hdrawn. unfold M_bind at 1 in Hdrawn.
  destruct (page_only_show_accumulated (history_after q)
              (set_page (page w2 ++ [metric_round (current_round q) (score q)
                                       (Z.of_nat (length (questions q)))]) w2))
    as (r & ws & Hws & Hacc).
  rewrite Hacc in Hdrawn. destruct r as [[]| |]; [|done..].
  eexists _, (metric_round (current_round q) (score q)
                (Z.of_nat (length (questions q))) :: ws).
  split.
  { intros ev. rewrite Hrun, bind_ret, bind_draw.
    unfold mbind at 1. unfold M_bind at 1. rewrite Hacc. reflexivity. }
  cbn. rewrite Hpage, Hu, Hg, Hn, Hlog, Hq2.
  split_and!; try done.
  - by rewrite <- (assoc_L (++)).
  - by apply Forall_cons.
Qed.

(** When the failed questions are listed without an error, the click on
    "Repetir" reaches [repeat_wrong]. *)
Lemma show_wrong_drawn_repeat (current_round : Z) (wrong : list Question)
    (w : World) (q : Quiz) :
  quiz w = Some q → wrong ≠ [] →
  (show_wrong NoClick current_round wrong w).1 = Ok () →
  ∃ ws, show_wrong ClickRepeat current_round wrong w
        = repeat_wrong current_round wrong (set_page (page w ++ ws) w).
Proof.
  intros Hq Hne Hdrawn. unfold show_wrong in *.
  destruct wrong as [|x l] eqn:E; [done|]. rewrite <- E in *.
  unfold mbind at 1 in Hdrawn. unfold M_bind at 1 in Hdrawn.
  unfold mbind at 1. unfold M_bind at 1.
  destruct (page_only_for_each (λ _, True) wrong
              (λ q, correct ← py_index (q_options q) (q_answer_index q);
                    draw (wrong_expander q correct))) with (w := w)
    as (r & ws & _ & Hexp).
  { intros y. apply page_only_bind; [apply page_only_py_index|]. intros c.
    by apply draws_page_only, draws_draw. }
  rewrite Hexp in Hdrawn |- *. destruct r as [[]| |]; [|done..].
  rewrite bind_button_this. cbn beta iota. unfold mbind at 1, M_bind.
  exists (ws ++ [repeat_button]).
  rewrite set_page_app.
  destruct (repeat_wrong_run current_round wrong
              (set_page (page w ++ ws ++ [repeat_button]) w) q Hq) as (w' & -> & _).
  done.
Qed.

(** C5, as the code has it: at the end of a round whose completion view
    is drawn without error (the run without a click ends normally), a
    click on "Repetir" starts nothing when the wrong list is empty (the
    view has no such button, only the way back); with a wrong list that
    is not empty it starts a round over a rearrangement of that list,
    numbered one above the finished round, and opens a session record
    for the same test when a user is logged in, none otherwise. *)
Theorem repeat_wrong_round (w : World) (q : Quiz) :
  quiz w = Some q → round_over q →
  (run_script NoClick w).1 = Ok () →
  let stored :=
    if score_due w q
    then [update_session_score (default 0 (current_session_id q)) (score q)
                               (Z.of_nat (length (questions q)))]
    else [] in
  (wrong_questions q = [] →
   ∃ w' q',
     run_script ClickRepeat w = (Ok (), w') ∧ quiz w' = Some q' ∧
     questions q' = questions q ∧ current_index q' = current_index q ∧
     current_round q' = current_round q ∧
     (repeat_button ∉ page w') ∧ home_button ∈ page w' ∧
     db_log w' = db_log w ++ stored) ∧
  (wrong_questions q ≠ [] →
   ∃ w' q',
     run_script ClickRepeat w = (Raise Rerun, w') ∧ quiz w' = Some q' ∧
     questions q' ≡ₚ wrong_questions q ∧
     current_round q' = current_round q + 1 ∧
     current_index q' = 0%nat ∧ answered q' = false ∧ score q' = 0 ∧
     wrong_questions q' = [] ∧
     round_history q' = history_after q ∧
     current_test_id q' = current_test_id q ∧
     session_score_saved q' = Some false ∧
     current_session_id q' =
       (if truthy (user_id w) then Some (db_next_session w) else None) ∧
     db_log w' =
       db_log w ++ stored ++
       (if truthy (user_id w)
        then [create_session (default 0 (user_id w)) (current_test_id q) 0
                             (Z.of_nat (length (wrong_questions q)))]
        else [])).
Proof.
  intros Hq Hover Hdrawn stored.
  unfold run_script in *. rewrite Hq in *.
  rewrite (show_quiz_round_over NoClick (set_page [] w) q Hq Hover) in Hdrawn.
  rewrite (show_quiz_round_over ClickRepeat (set_page [] w) q Hq Hover).
  destruct (round_complete_drawn (set_page [] w) q Hq Hdrawn)
    as (w3 & ws & Hrun & Hp3 & Hws & Hu & Hg & Hn & Hlog & Hq3).
  rewrite Hrun in Hdrawn. rewrite Hrun.
  change (score_due (set_page [] w) q) with (score_due w q) in Hlog, Hq3.
  cbn in Hp3, Hu, Hg, Hn, Hlog. split.
  - intros Hw. rewrite Hw. unfold show_wrong.
    rewrite bind_button_other by done. cbn beta iota.
    eexists _, _. split; [reflexivity|]. cbn. rewrite Hp3.
    split_and!; [exact Hq3|done|done|done| | |done].
    + intros [Hin|Hin%list_elem_of_singleton]%elem_of_app; [|done].
      rewrite Forall_forall in Hws. by apply Hws in Hin.
    + apply elem_of_app. right. apply list_elem_of_here.
  - intros Hw.
    destruct (show_wrong_drawn_repeat (current_round q) (wrong_questions q) w3 _
                Hq3 Hw Hdrawn) as (ws' & ->).
    destruct (repeat_wrong_run (current_round q) (wrong_questions q)
                (set_page (page w3 ++ ws') w3) _ Hq3)
      as (w' & -> & _ & _ & Hlog' & Hq').
    cbn in Hlog', Hq'. rewrite Hu, Hlog in Hlog'. rewrite Hu, Hn, Hg in Hq'.
    eexists w', _. split; [reflexivity|]. split; [exact Hq'|]. cbn.
    split_and!; try done.
    + apply shuffle_Permutation.
    + by rewrite <- (assoc_L (++)) in Hlog'.
Qed.

(** ** The quiz flow: clicks the page does not offer *)

(** A run that was not started by one of the option buttons draws them
    all and goes on. *)
Lemma option_buttons_idle (ev : Click) (question : Question) :
  (∀ k, ev ≠ ClickOption k) →
  ∀ options k w,
    option_buttons ev question k options w
    = (Ok (), set_page (page w ++ (option_button <$> seq k (length options))) w).
Proof.
  intros Hev. induction options as [|o options IH]; intros k w.
  - cbn. by rewrite set_page_same.
  - cbn [option_buttons]. rewrite bind_button_other by done. cbn beta iota.
    rewrite bind_ret, IH. cbn. unfold set_page. cbn.
    by rewrite <- (assoc_L (++)).
Qed.

(** A click on a button that the completion view does not have leaves
    its buttons unclicked. *)
Lemma show_wrong_other (ev : Click) (current_round : Z) (wrong : list Question) :
  ev ≠ ClickRepeat → ev ≠ ClickHome →
  show_wrong ev current_round wrong = show_wrong NoClick current_round wrong.
Proof.
  intros Hr Hh. unfold show_wrong, button.
  rewrite !(bool_decide_eq_false_2 (ev = _)) by done.
  by rewrite !(bool_decide_eq_false_2 (NoClick = _)) by done.
Qed.

(** C8, as the code has it: a click that belongs to another state is
    not rejected but has no effect.  While a question shows its feedback
    the page has no option button, and a run started by an option click
    ends normally with the quiz and the log untouched; while a question
    waits for its answer the page has no "Siguiente" button, and a run
    started by that click ends normally with the quiz and the log
    untouched; at the end of a round the page has neither button, and a
    run started by an option click or by "Siguiente" is the run that a
    rendering without a click makes: it stores the score if that is
    still due and leaves the score, the wrong list, the index and the
    questions as they are. *)
Theorem clicks_outside_their_state (w : World) (q : Quiz) (i : nat) :
  quiz w = Some q →
  (answered_at i q →
   ∀ opt, ∃ w',
     run_script (ClickOption opt) w = (Ok (), w') ∧
     quiz w' = Some q ∧ db_log w' = db_log w ∧
     ∀ k, option_button k ∉ page w') ∧
  (presenting i q →
   ∃ w',
     run_script ClickNext w = (Ok (), w') ∧
     quiz w' = Some q ∧ db_log w' = db_log w ∧
     next_button ∉ page w') ∧
  (round_over q →
   ∀ ev, (ev = ClickNext ∨ ∃ opt, ev = ClickOption opt) →
     run_script ev w = run_script NoClick w ∧
     (∀ k, option_button k ∉ page (run_script ev w).2) ∧
     (next_button ∉ page (run_script ev w).2) ∧
     db_log (run_script ev w).2 =
       db_log w ++
       (if score_due w q
        then [update_session_score (default 0 (current_session_id q)) (score q)
                                   (Z.of_nat (length (questions q)))]
        else []) ∧
     ∃ q', quiz (run_script ev w).2 = Some q' ∧
           score q' = score q ∧ wrong_questions q' = wrong_questions q ∧
           current_index q' = current_index q ∧ answered q' = answered q ∧
           questions q' = questions q ∧ current_round q' = current_round q).
Proof.
  intros Hq. split_and!.
  - intros (Hi & Hlt & Hans) opt.
    destruct (lookup_lt_is_Some_2 (questions q) (current_index q)) as [x Hx]; [lia|].
    destruct (answered_rerender (ClickOption opt) w q x ltac:(done) ltac:(done)
                Hq Hx Hans) as (w' & Hrun & Hq' & Hlog & Hpage).
    exists w'. split_and!; [done..|]. intros k. rewrite Hpage.
    intros Hin. repeat (apply elem_of_cons in Hin as [?|Hin]; [done|]).
    by apply elem_of_nil in Hin.
  - intros (Hi & Hlt & Hans).
    destruct (lookup_lt_is_Some_2 (questions q) (current_index q)) as [x Hx]; [lia|].
    destruct w as [uid qz g log nxt repo pg]. cbn in Hq. subst qz.
    unfold run_script, show_quiz. unfold_script. cbn.
    rewrite decide_False by lia.
    unfold present_question, get_quiz. unfold mbind at 1, M_bind. cbn.
    rewrite Hx, Hans. cbn. unfold mbind at 1, M_bind.
    rewrite option_buttons_idle by done.
    rewrite bind_button_other by done. cbn.
    eexists. split_and!; [done..|].
    intros [Hin|Hin%list_elem_of_singleton]%elem_of_app; [|done].
    by apply list_elem_of_fmap in Hin as (? & ? & _).
  - intros Hover ev Hev.
    assert (Hr : ev ≠ ClickRepeat) by (by destruct Hev as [->|[? ->]]).
    assert (Hh : ev ≠ ClickHome) by (by destruct Hev as [->|[? ->]]).
    assert (Hsame : run_script ev w = run_script NoClick w).
    { unfold run_script. rewrite Hq.
      rewrite !(show_quiz_round_over _ (set_page [] w) q Hq Hover).
      destruct (round_complete_saves_all (set_page [] w) q Hq) as (w2 & Hrun & _).
      by rewrite !Hrun, show_wrong_other. }
    split; [exact Hsame|]. rewrite Hsame. clear Hsame.
    unfold run_script. rewrite Hq.
    rewrite (show_quiz_round_over NoClick (set_page [] w) q Hq Hover).
    destruct (round_complete_saves NoClick (set_page [] w) q Hq)
      as (w2 & -> & _ & _ & _ & _ & Hpage & Hlog & Hq2).
    destruct (page_only_completion_view NoClick q ltac:(done) ltac:(done) w2)
      as (r & ws & Hws & ->).
    cbn [snd]. cbn in Hpage.
    change (score_due (set_page [] w) q) with (score_due w q) in Hlog, Hq2.
    rewrite Forall_forall in Hws. split_and!.
    + intros k. cbn. rewrite Hpage. cbn. intros Hin.
      by destruct (Hws _ Hin) as [?|[?|?]].
    + cbn. rewrite Hpage. cbn. intros Hin.
      by destruct (Hws _ Hin) as [?|[?|?]].
    + exact Hlog.
    + eexists. split; [exact Hq2|]. by split_and!.
Qed.

(** ** Practice from stored failures: the de-duplication *)

Lemma NoDup_fmap_filter {A B} (f : A → B) (P : A → Prop) `{∀ x, Decision (P x)} l :
  NoDup (f <$> l) → NoDup (f <$> filter P l).
Proof.
  induction l as [|x l IH]; [done|]. rewrite fmap_cons.
  intros [Hx Hl]%NoDup_cons.
  destruct (decide (P x)).
  - rewrite filter_cons_True by done. rewrite fmap_cons.
    apply NoDup_cons. split; [|auto].
    intros (y & Hy & [_ Hin]%list_elem_of_filter)%list_elem_of_fmap.
    apply Hx, list_elem_of_fmap. eauto.
  - rewrite filter_cons_False by done. auto.
Qed.

Lemma dedup_first_cons w l :
  dedup_first (w :: l) = w :: filter (λ v, ref_key v ≠ ref_key w) (dedup_first l).
Proof. done. Qed.

(** Dropping a key before or after the de-duplication is the same. *)
Lemma dedup_first_filter k l :
  filter (λ v, ref_key v ≠ k) (dedup_first l)
  = dedup_first (filter (λ v, ref_key v ≠ k) l).
Proof.
  induction l as [|x l IH]; [done|]. rewrite dedup_first_cons.
  destruct (decide (ref_key x = k)) as [Hk|Hk].
  - rewrite !(filter_cons_False _ x) by (intros ?; done).
    rewrite <- IH, list_filter_filter. apply list_filter_iff.
    intros v. rewrite Hk. tauto.
  - rewrite !(filter_cons_True _ x) by done. rewrite dedup_first_cons.
    f_equal. rewrite <- IH, !list_filter_filter. apply list_filter_iff.
    intros v. tauto.
Qed.

(** The loop of lines 505-511 is the de-duplication of the design. *)
Lemma unique_wrong_loop_spec all_wrong :
  ∀ seen unique_wrong,
    unique_wrong_loop seen unique_wrong all_wrong
    = unique_wrong ++ dedup_first (filter (λ v, ref_key v ∉ seen) all_wrong).
Proof.
  induction all_wrong as [|x l IH]; intros seen acc; cbn [unique_wrong_loop].
  - by rewrite app_nil_r.
  - cbn zeta. fold (ref_key x). destruct (decide (ref_key x ∈ seen)) as [Hin|Hnot].
    + rewrite filter_cons_False by (intros ?; done). apply IH.
    + rewrite filter_cons_True by done. rewrite IH, dedup_first_cons.
      rewrite <- (assoc_L (++)). cbn. do 2 f_equal.
      rewrite dedup_first_filter, list_filter_filter. f_equal.
      apply list_filter_iff. intros v.
      rewrite not_elem_of_union, not_elem_of_singleton. tauto.
Qed.

Lemma unique_wrong_refs_dedup_first all_wrong :
  unique_wrong_refs all_wrong = dedup_first all_wrong.
Proof.
  unfold unique_wrong_refs. rewrite unique_wrong_loop_spec. cbn. f_equal.
  clear. induction all_wrong as [|x l IH]; [done|].
  rewrite filter_cons_True by apply not_elem_of_empty. by rewrite IH.
Qed.

Lemma dedup_first_keys l k :
  k ∈ ref_key <$> dedup_first l ↔ k ∈ ref_key <$> l.
Proof.
  induction l as [|x l IH]; [done|]. rewrite dedup_first_cons, !fmap_cons.
  rewrite !elem_of_cons, <- IH, !list_elem_of_fmap.
  split.
  - intros [->|(v & -> & [_ Hv]%list_elem_of_filter)]; [by left|right; eauto].
  - intros [->|(v & -> & Hv)]; [by left|].
    destruct (decide (ref_key v = ref_key x)) as [E|E]; [by left|right].
    exists v. split; [done|]. by apply list_elem_of_filter.
Qed.

Lemma dedup_first_NoDup l : NoDup (ref_key <$> dedup_first l).
Proof.
  induction l as [|x l IH]; [apply NoDup_nil_2|].
  rewrite dedup_first_cons, fmap_cons. apply NoDup_cons. split.
  - intros (v & Hk & [Hne _]%list_elem_of_filter)%list_elem_of_fmap. by destruct Hne.
  - by apply NoDup_fmap_filter.
Qed.

(** ** Practice from stored failures: grouping and resolving *)

Lemma in_dict_nil t qid : in_dict [] t qid ↔ False.
Proof. split; [|done]. by intros (s & ?%elem_of_nil & _). Qed.

Lemma in_dict_cons t0 s0 d t qid :
  in_dict ((t0, s0) :: d) t qid ↔ (t = t0 ∧ qid ∈ s0) ∨ in_dict d t qid.
Proof.
  unfold in_dict. split.
  - intros (s & [[= -> ->]|Hin]%elem_of_cons & Hq); [by left|right; eauto].
  - intros [[-> Hq]|(s & Hin & Hq)].
    + exists s0. split; [apply list_elem_of_here|done].
    + exists s. split; [by apply list_elem_of_further|done].
Qed.

Lemma setdefault_add_in_dict tid qid d t q :
  in_dict (setdefault_add tid qid d) t q ↔ in_dict d t q ∨ (t = tid ∧ q = qid).
Proof.
  induction d as [|[t0 s0] d IH]; cbn.
  - rewrite in_dict_cons, !in_dict_nil, elem_of_singleton. tauto.
  - destruct (decide (t0 = tid)) as [->|Hne].
    + rewrite !in_dict_cons, elem_of_union, elem_of_singleton. tauto.
    + rewrite !in_dict_cons, IH. tauto.
Qed.

Lemma setdefault_add_keys tid qid d :
  (setdefault_add tid qid d).*1 = if decide (tid ∈ d.*1) then d.*1 else d.*1 ++ [tid].
Proof.
  induction d as [|[t0 s0] d IH]; cbn.
  - rewrite decide_False; [done|apply not_elem_of_nil].
  - destruct (decide (t0 = tid)) as [->|Hne]; cbn.
    + rewrite decide_True; [done|apply list_elem_of_here].
    + rewrite IH. destruct (decide (tid ∈ d.*1)) as [Hin|Hnot].
      * rewrite decide_True; [done|by apply list_elem_of_further].
      * rewrite decide_False; [done|].
        apply not_elem_of_cons. split; [by intros ->|done].
Qed.

Lemma group_by_test_filed refs : filed (group_by_test refs) refs.
Proof.
  unfold group_by_test.
  assert (H : ∀ l d l0, filed d l0 →
            filed (foldl (λ d w, setdefault_add (w_test_id w) (w_question_id w) d) d l)
                  (l0 ++ l)).
  { induction l as [|x l IH]; intros d l0 Hd; cbn; [by rewrite app_nil_r|].
    rewrite (cons_middle x l0 l), (assoc_L (++)). apply IH.
    destruct Hd as [Hnd Hin]. split.
    - rewrite setdefault_add_keys. case_decide as Hk; [done|].
      apply NoDup_app. split_and!; [done| |apply NoDup_singleton].
      by intros t Ht ->%list_elem_of_singleton.
    - intros t qid. rewrite setdefault_add_in_dict, Hin, fmap_app, elem_of_app.
      cbn. rewrite list_elem_of_singleton. unfold ref_key.
      split; (intros [?|?]; [by left|right]); [by destruct H as [-> ->]|].
      by simplify_eq. }
  apply (H refs [] []). split; [apply NoDup_nil_2|].
  intros t qid. rewrite in_dict_nil. cbn. by rewrite elem_of_nil.
Qed.

Lemma truthy_true o : truthy o = true ↔ ∃ z, o = Some z ∧ z ≠ 0.
Proof.
  destruct o as [z|]; cbn.
  - rewrite bool_decide_eq_true. split; [eauto|]. by intros (? & [= <-] & ?).
  - split; [done|]. by intros (? & ? & _).
Qed.

Lemma fmap_snd_pair {A B} (a : A) (l : list B) : ((λ x, (a, x)) <$> l).*2 = l.
Proof. induction l as [|x l IH]; [done|]. cbn. by rewrite IH. Qed.

(** The loop of lines 526-530 always runs to its end and leaves the
    world as it is. *)
Lemma resolve_groups_run (w : World) (d : TestDict) :
  ∀ quiz_questions test_id,
    resolve_groups d quiz_questions test_id w
    = (Ok (quiz_questions ++ (resolve_tagged w d).*2, final_test_id test_id d), w).
Proof.
  induction d as [|[t s] d IH]; intros acc t0.
  - cbn. by rewrite app_nil_r.
  - cbn [resolve_groups]. unfold final_test_id, resolve_tagged in *.
    rewrite !fmap_cons, concat_cons, fmap_app. cbn [fst snd].
    destruct (truthy t) eqn:Ht.
    + rewrite filter_cons_True by done.
      unfold get_test_questions_by_ids. unfold mbind at 1, M_bind.
      rewrite IH. rewrite last_cons.
      rewrite fmap_snd_pair, (assoc_L (++)).
      by destruct (last _).
    + rewrite filter_cons_False by (by rewrite Ht). by rewrite IH.
Qed.

Lemma resolve_tagged_elem (w : World) (d : TestDict) t x :
  (t, x) ∈ resolve_tagged w d ↔
  t ≠ 0 ∧ in_dict d (Some t) (q_id x) ∧ x ∈ default [] (db_questions w !! t).
Proof.
  unfold resolve_tagged. induction d as [|[t0 s0] d IH]; cbn.
  - rewrite in_dict_nil, elem_of_nil. tauto.
  - rewrite elem_of_app, IH, in_dict_cons. clear IH. split.
    + intros [Hin|Hin]; [|tauto].
      destruct (truthy t0) eqn:Ht; [|by apply elem_of_nil in Hin].
      apply truthy_true in Ht as (z & -> & Hz). cbn in Hin.
      apply list_elem_of_fmap in Hin as (y & [= -> ->] & [Hy Hin]%list_elem_of_filter).
      apply elem_of_elements in Hy. tauto.
    + intros (Hz & [[<- Hq]|Hin] & Hx); [left|tauto].
      cbn. rewrite bool_decide_eq_true_2 by done.
      apply list_elem_of_fmap. exists x. split; [done|].
      apply list_elem_of_filter. by rewrite elem_of_elements.
Qed.

Lemma resolve_tagged_NoDup (w : World) (d : TestDict) :
  ids_unique w → NoDup d.*1 →
  NoDup ((λ p, (p.1, q_id p.2)) <$> resolve_tagged w d).
Proof.
  intros Hw. induction d as [|[t0 s0] d IH]; [intros _; apply NoDup_nil_2|].
  rewrite fmap_cons. intros [Hnot Hnd]%NoDup_cons.
  change (resolve_tagged w ((t0, s0) :: d))
    with ((if truthy t0
           then (λ x, (default 0 t0, x))
                  <$> filter (λ x, q_id x ∈ elements s0)
                             (default [] (db_questions w !! default 0 t0))
           else []) ++ resolve_tagged w d).
  rewrite fmap_app. apply NoDup_app. split_and!; [| |by apply IH].
  - destruct (truthy t0); [|apply NoDup_nil_2].
    rewrite <- list_fmap_compose.
    change ((λ p : Z * Question, (p.1, q_id p.2)) ∘ (λ x, (default 0 t0, x)))
      with ((λ i : Z, (default 0 t0, i)) ∘ q_id).
    rewrite list_fmap_compose. apply NoDup_fmap_2; [by intros ?? [= ?]|].
    apply NoDup_fmap_filter.
    destruct (db_questions w !! default 0 t0) as [qs|] eqn:E; [|apply NoDup_nil_2].
    by eapply Hw.
  - intros [t i] Hin1 Hin2.
    destruct (truthy t0) eqn:Ht; [|by apply elem_of_nil in Hin1].
    apply truthy_true in Ht as (z & -> & Hz). cbn in Hin1.
    apply list_elem_of_fmap in Hin1 as ([t' x] & [= -> ->] & Hx).
    apply list_elem_of_fmap in Hx as (y & [= -> ->] & _).
    apply list_elem_of_fmap in Hin2 as ([t' y'] & Heq & Hy).
    cbn in Heq. injection Heq as <- _.
    apply resolve_tagged_elem in Hy as (_ & (s & Hs & _) & _).
    apply Hnot, list_elem_of_fmap. by exists (Some z, s).
Qed.

(** ** Practice from stored failures: starting the quiz *)

Lemma start_quiz_from_wrong_run (wrong_refs : list WrongRef) (w : World) :
  let quiz_questions := (resolve_tagged w (group_by_test wrong_refs)).*2 in
  (quiz_questions = [] → _start_quiz_from_wrong wrong_refs w = (Ok (), w)) ∧
  (quiz_questions ≠ [] → ∀ u, user_id w = Some u →
   ∃ w', _start_quiz_from_wrong wrong_refs w = (Raise Rerun, w') ∧
         user_id w' = Some u ∧
         db_log w' =
           db_log w ++ [create_session u (started_test_id wrong_refs) 0
                                       (Z.of_nat (length quiz_questions))] ∧
         quiz w' = Some
           {| questions := (shuffle quiz_questions (random w)).1;
              current_index := 0%nat; answered := false; score := 0;
              selected_answer := None; wrong_questions := [];
              round_history := []; current_round := 1;
              current_test_id := started_test_id wrong_refs;
              current_session_id := Some (db_next_session w);
              session_score_saved := Some false |}).
Proof.
  intros qs.
  split; [intros E|intros Hne u Hu];
    unfold _start_quiz_from_wrong; unfold mbind at 1, M_bind;
    rewrite resolve_groups_run; cbn [app]; fold qs;
    fold (started_test_id wrong_refs).
  - by rewrite E.
  - destruct qs as [|x l] eqn:E; [done|]. rewrite <- E.
    destruct w as [uid qz g log nxt repo pg]. cbn in Hu. subst uid.
    unfold random_shuffle, db_create_session. unfold_script. cbn.
    pose proof (shuffle_Permutation qs g) as Hs.
    destruct (shuffle qs g) as [qs' g']. cbn in *.
    eexists. split_and!; try done. by rewrite (Permutation_length Hs).
Qed.

(** C9, as the code has it: the de-duplication keeps the first
    occurrence of every pair of test and question, in order.  With ids
    that are unique within a test, the round started from the references
    holds one question for every referenced pair whose test id is
    neither missing nor [0] and that names a stored question of that
    test, and nothing else: a reference without such a test id adds no
    question, and questions of two tests may carry the same id. *)
Theorem practice_wrong_unique (all_wrong : list WrongRef) (w : World) :
  ids_unique w →
  let tagged := resolve_tagged w (group_by_test (unique_wrong_refs all_wrong)) in
  unique_wrong_refs all_wrong = dedup_first all_wrong ∧
  NoDup (ref_key <$> unique_wrong_refs all_wrong) ∧
  (∀ k, k ∈ ref_key <$> unique_wrong_refs all_wrong ↔ k ∈ ref_key <$> all_wrong) ∧
  NoDup ((λ p, (p.1, q_id p.2)) <$> tagged) ∧
  (∀ t x, (t, x) ∈ tagged ↔ referenced w all_wrong t x) ∧
  (∀ r, r ∈ all_wrong → truthy (w_test_id r) = false →
        ∀ t x, (t, x) ∈ tagged → Some t ≠ w_test_id r) ∧
  (tagged = [] → practice_wrong all_wrong w = (Ok (), w)) ∧
  (tagged ≠ [] → ∀ u, user_id w = Some u →
   ∃ w' q', practice_wrong all_wrong w = (Raise Rerun, w') ∧
            quiz w' = Some q' ∧ questions q' ≡ₚ tagged.*2 ∧
            current_index q' = 0%nat ∧ current_round q' = 1).
Proof.
  intros Hw tagged.
  pose proof (group_by_test_filed (unique_wrong_refs all_wrong)) as [Hnd Hin].
  assert (Hmem : ∀ t x, (t, x) ∈ tagged ↔ referenced w all_wrong t x).
  { intros t x. unfold tagged. rewrite resolve_tagged_elem, Hin. unfold referenced.
    by rewrite unique_wrong_refs_dedup_first, dedup_first_keys. }
  destruct (start_quiz_from_wrong_run (unique_wrong_refs all_wrong) w)
    as [Hnone Hsome].
  fold tagged in Hnone, Hsome.
  split_and!.
  - apply unique_wrong_refs_dedup_first.
  - rewrite unique_wrong_refs_dedup_first. apply dedup_first_NoDup.
  - intros k. rewrite unique_wrong_refs_dedup_first. apply dedup_first_keys.
  - by apply resolve_tagged_NoDup.
  - exact Hmem.
  - intros r _ Hfalse t x Htx E. apply Hmem in Htx as (Ht & _).
    rewrite <- E in Hfalse. cbn in Hfalse.
    by apply bool_decide_eq_false in Hfalse.
  - intros E. apply Hnone. by rewrite E.
  - intros Hne u Hu.
    destruct (Hsome ltac:(by intros ?%fmap_nil_inv) u Hu) as (w' & Hrun & _ & _ & Hq).
    eexists w', _. split; [exact Hrun|]. split; [exact Hq|]. cbn.
    split_and!; [apply shuffle_Permutation|done|done].
Qed.

(** ** Invariants of the quiz flow *)

Lemma quiet_page_only {A} P (m : M A) : page_only P m → quiet m.
Proof. intros Hm w. by destruct (Hm w) as (r & ws & _ & ->). Qed.

Lemma quiet_ret {A} (a : A) : quiet (mret a).
Proof. by intros w. Qed.

Lemma quiet_raise {A} e : quiet (raise (A := A) e).
Proof. by intros w. Qed.

Lemma quiet_button ev this x : quiet (button ev this x).
Proof. by intros w. Qed.

Lemma quiet_is_logged_in : quiet _is_logged_in.
Proof. by intros w. Qed.

Lemma quiet_session_user : quiet session_user.
Proof. intros w. unfold session_user. by destruct (user_id w) eqn:E. Qed.

Lemma save_session_score_none (w : World) :
  quiz w = None → save_session_score w = (Raise AttributeError, w).
Proof.
  intros Hq. unfold save_session_score, get_quiz. unfold mbind, M_bind.
  by rewrite Hq.
Qed.

(** Lines 288-292 on a started quiz. *)
Lemma save_session_score_run (w : World) (q : Quiz) :
  quiz w = Some q →
  ∃ w1, save_session_score w = (Ok (), w1) ∧ user_id w1 = user_id w ∧
        db_log w1 =
          db_log w ++
          (if score_due w q
           then [update_session_score (default 0 (current_session_id q)) (score q)
                                      (Z.of_nat (length (questions q)))]
           else []) ∧
        ∃ q1, quiz w1 = Some q1 ∧
              current_test_id q1 = current_test_id q ∧
              current_session_id q1 = current_session_id q ∧
              session_score_saved q1 =
                (if score_due w q then Some true else session_score_saved q).
Proof.
  intros Hq. destruct w as [uid qz g log nxt repo pg]. cbn in Hq. subst qz.
  unfold save_session_score, score_due. unfold_script. cbn.
  destruct (truthy uid && truthy (current_session_id q)
            && negb (default false (session_score_saved q))); cbn;
    eexists; (split; [reflexivity|]); cbn; rewrite ?app_nil_r;
    split_and!; try done; by eexists.
Qed.

Lemma repeat_wrong_none (current_round : Z) (wrong : list Question) (w : World) :
  quiz w = None →
  quiz (repeat_wrong current_round wrong w).2 = None ∧
  db_log (repeat_wrong current_round wrong w).2 = db_log w ∧
  user_id (repeat_wrong current_round wrong w).2 = user_id w.
Proof.
  intros Hq. destruct w as [uid qz g log nxt repo pg]. cbn in Hq. subst qz.
  unfold repeat_wrong, random_shuffle, db_create_session. unfold_script. cbn.
  destruct (shuffle wrong g) as [wrong' g']. cbn.
  destruct uid as [u|]; cbn; [destruct (bool_decide (u ≠ 0)); cbn|]; done.
Qed.

(** Whatever is kept by the steps that write to the session store or to
    the log is kept by every run of the script and by every sequence of
    clicks. *)
Section flow_invariant.
Variable I : World → Prop.
Hypothesis I_quiet :
  ∀ w w', quiz w' = quiz w → db_log w' = db_log w → user_id w' = user_id w →
          I w → I w'.
Hypothesis I_put :
  ∀ w q q', quiz w = Some q → I w →
            current_test_id q' = current_test_id q →
            current_session_id q' = current_session_id q →
            session_score_saved q' = session_score_saved q →
            I (set_quiz (Some q') w).
Hypothesis I_reset : ∀ w, I w → I (set_quiz None w).
Hypothesis I_record :
  ∀ w q user qid c sid, quiz w = Some q → I w →
    I (log_call (record_answer user (current_test_id q) qid c sid) w).
Hypothesis I_save : preserves I save_session_score.
Hypothesis I_repeat : ∀ cr wrong, preserves I (repeat_wrong cr wrong).

Lemma preserves_quiet {A} (m : M A) : quiet m → preserves I m.
Proof. intros Hm w Hw. destruct (Hm w) as (? & ? & ?). by eapply I_quiet. Qed.

Lemma preserves_ret {A} (a : A) : preserves I (mret a).
Proof. apply preserves_quiet, quiet_ret. Qed.

Lemma preserves_raise {A} e : preserves I (raise (A := A) e).
Proof. apply preserves_quiet, quiet_raise. Qed.

Lemma preserves_bind {A B} (m : M A) (f : A → M B) :
  preserves I m → (∀ a, preserves I (f a)) → preserves I (m ≫= f).
Proof.
  intros Hm Hf w Hw. specialize (Hm w Hw).
  unfold mbind, M_bind. destruct (m w) as [[a|e|] w1]; [|done..].
  by apply Hf.
Qed.

Lemma preserves_get_quiz_bind {B} (f : Quiz → M B) :
  (∀ q, preserves_at I q (f q)) → preserves I (get_quiz ≫= f).
Proof.
  intros Hf w Hw. unfold mbind, M_bind, get_quiz.
  destruct (quiz w) as [q|] eqn:Hq; [|done]. by apply Hf.
Qed.

Lemma preserves_at_weaken {A} q (m : M A) : preserves I m → preserves_at I q m.
Proof. intros Hm w _. apply Hm. Qed.

Lemma preserves_at_bind {A B} q (m : M A) (f : A → M B) :
  preserves_at I q m → (∀ a, preserves I (f a)) → preserves_at I q (m ≫= f).
Proof.
  intros Hm Hf w Hq Hw. specialize (Hm w Hq Hw).
  unfold mbind, M_bind. destruct (m w) as [[a|e|] w1]; [|done..].
  by apply Hf.
Qed.

Lemma preserves_at_quiet_bind {A B} q (m : M A) (f : A → M B) :
  quiet m → (∀ a, preserves_at I q (f a)) → preserves_at I q (m ≫= f).
Proof.
  intros Hm Hf w Hq Hw. destruct (Hm w) as (Eq & El & Eu).
  assert (Hw1 : I (m w).2) by by eapply I_quiet.
  unfold mbind, M_bind. destruct (m w) as [[a|e|] w1]; [|done..].
  cbn in *. apply Hf; [by rewrite Eq|done].
Qed.

Lemma preserves_at_put_bind {B} q q' (f : unit → M B) :
  current_test_id q' = current_test_id q →
  current_session_id q' = current_session_id q →
  session_score_saved q' = session_score_saved q →
  (∀ a, preserves_at I q' (f a)) → preserves_at I q (put_quiz q' ≫= f).
Proof.
  intros Ht Hs Hf' Hf w Hq Hw. unfold mbind, M_bind, put_quiz.
  apply Hf; [done|]. by eapply I_put.
Qed.

Lemma preserves_reset : preserves I (reset_quiz;; rerun).
Proof. intros w Hw. by apply I_reset. Qed.

Lemma preserves_for_each {A} (l : list A) (body : A → M unit) :
  (∀ a, preserves I (body a)) → preserves I (for_each l body).
Proof.
  intros Hb. induction l as [|a l IH]; cbn; [apply preserves_ret|].
  apply preserves_bind; [apply Hb|done].
Qed.

Lemma preserves_save_round_history : preserves I save_round_history.
Proof.
  apply preserves_get_quiz_bind. intros q. cbn zeta.
  case_decide; [|apply preserves_at_weaken, preserves_ret].
  apply preserves_at_put_bind; [done..|]. intros _.
  apply preserves_at_weaken, preserves_ret.
Qed.

Lemma preserves_home ev :
  preserves I (clicked ← button ev ClickHome home_button;
               if (clicked : bool) then reset_quiz;; rerun else mret ()).
Proof.
  apply preserves_bind; [apply preserves_quiet, quiet_button|].
  intros [|]; [apply preserves_reset|apply preserves_ret].
Qed.

Lemma preserves_show_wrong ev current_round wrong :
  preserves I (show_wrong ev current_round wrong).
Proof.
  unfold show_wrong. destruct wrong as [|x wrong]; [apply preserves_home|].
  apply preserves_bind.
  { apply preserves_for_each. intros q.
    apply preserves_bind; [|intros c; apply preserves_quiet; by intros w].
    eapply preserves_quiet, quiet_page_only, (page_only_py_index (λ _, True)). }
  intros _. apply preserves_bind; [apply preserves_quiet, quiet_button|].
  intros clicked. apply preserves_bind; [|intros _; apply preserves_home].
  destruct clicked; [apply I_repeat|apply preserves_ret].
Qed.

Lemma preserves_round_complete ev : preserves I (round_complete ev).
Proof.
  apply preserves_get_quiz_bind. intros q. cbn zeta. apply preserves_at_weaken.
  apply preserves_bind; [apply I_save|]. intros _.
  apply preserves_bind; [apply preserves_save_round_history|]. intros history.
  apply preserves_bind.
  { eapply preserves_quiet, quiet_page_only, (page_only_dividing_by (λ _, True)). }
  intros _. apply preserves_bind; [apply preserves_quiet; by intros w|]. intros _.
  apply preserves_bind; [|intros _; apply preserves_show_wrong].
  eapply preserves_quiet, quiet_page_only, page_only_show_accumulated.
Qed.

Lemma preserves_submit_answer i question : preserves I (submit_answer i question).
Proof.
  apply preserves_get_quiz_bind. intros q. cbn zeta.
  apply preserves_at_put_bind; [done..|]. intros _.
  apply preserves_at_quiet_bind; [apply quiet_is_logged_in|]. intros logged_in.
  apply preserves_at_bind; [|intros _; apply preserves_raise].
  destruct logged_in; [|apply preserves_at_weaken, preserves_ret].
  apply preserves_at_quiet_bind; [apply quiet_session_user|]. intros user.
  intros w Hq Hw. exact (I_record w _ user _ _ _ Hq Hw).
Qed.

Lemma preserves_option_buttons ev question options :
  ∀ i, preserves I (option_buttons ev question i options).
Proof.
  induction options as [|o options IH]; intros i; cbn; [apply preserves_ret|].
  apply preserves_bind; [apply preserves_quiet, quiet_button|]. intros clicked.
  apply preserves_bind; [|intros _; apply IH].
  destruct clicked; [apply preserves_submit_answer|apply preserves_ret].
Qed.

Lemma preserves_next_question : preserves I next_question.
Proof.
  apply preserves_get_quiz_bind. intros q.
  apply preserves_at_put_bind; [done..|]. intros _.
  apply preserves_at_weaken, preserves_raise.
Qed.

Lemma preserves_present_question ev : preserves I (present_question ev).
Proof.
  apply preserves_get_quiz_bind. intros q. apply preserves_at_weaken.
  destruct (questions q !! current_index q) as [question|];
    [|apply preserves_raise].
  apply preserves_bind.
  { destruct (negb (answered q)); [apply preserves_option_buttons|].
    apply preserves_bind; [apply preserves_quiet; by intros w|]. intros _.
    apply preserves_bind; [apply preserves_quiet, quiet_button|].
    intros [|]; [apply preserves_next_question|apply preserves_ret]. }
  intros _. apply preserves_bind; [apply preserves_quiet, quiet_button|].
  intros [|]; [apply preserves_reset|apply preserves_ret].
Qed.

Lemma preserves_show_quiz ev : preserves I (show_quiz ev).
Proof.
  apply preserves_get_quiz_bind. intros q. apply preserves_at_weaken.
  case_decide; [apply preserves_round_complete|apply preserves_present_question].
Qed.

Lemma run_script_preserves ev w : I w → I (run_script ev w).2.
Proof.
  intros Hw. unfold run_script. destruct (quiz w) eqn:Hq; [|done].
  apply preserves_show_quiz. by apply (I_quiet w).
Qed.

Lemma interact_preserves ev w : I w → I (interact ev w).
Proof.
  intros Hw. unfold interact.
  pose proof (run_script_preserves ev w Hw) as H1.
  destruct (run_script ev w) as [[?|[]|] w1]; try done.
  by apply run_script_preserves.
Qed.

Lemma run_clicks_preserves evs : ∀ w, I w → I (run_clicks evs w).
Proof.
  unfold run_clicks. induction evs as [|ev evs IH]; intros w Hw; [done|].
  cbn. by apply IH, interact_preserves.
Qed.
End flow_invariant.

(** No step of the quiz flow changes the test the quiz is filed under. *)
Lemma run_clicks_under_test tid base evs w :
  under_test tid base w → under_test tid base (run_clicks evs w).
Proof.
  apply run_clicks_preserves.
  - intros w1 w2 Eq El Eu [H1 H2]. split; [by rewrite Eq|by rewrite El].
  - intros w1 q q' Hq [H1 H2] Ht _ _. split; [|done].
    cbn. intros ? [= <-]. rewrite Ht. by apply H1.
  - intros w1 [_ H2]. by split.
  - intros w1 q user qid c sid Hq [H1 (new & Hlog & Hnew)]. split; [done|].
    exists (new ++ [record_answer user (current_test_id q) qid c sid]).
    cbn. rewrite Hlog, (assoc_L (++)). split; [done|].
    apply Forall_app. split; [done|]. apply Forall_singleton. cbn. by apply H1.
  - intros w1 [H1 (new & Hlog & Hnew)]. destruct (quiz w1) as [q|] eqn:Hq.
    + destruct (save_session_score_run w1 q Hq)
        as (w2 & -> & _ & Hlog2 & q2 & Hq2 & Ht & _).
      cbn. split.
      * intros ?. rewrite Hq2. intros [= <-]. rewrite Ht. by apply H1.
      * eexists. rewrite Hlog2, Hlog, <- (assoc_L (++)). split; [done|].
        apply Forall_app. split; [done|]. by destruct (score_due w1 q); repeat constructor.
    + rewrite save_session_score_none by done. cbn. split; [by rewrite Hq|eauto].
  - intros cr wrong w1 [H1 (new & Hlog & Hnew)]. destruct (quiz w1) as [q|] eqn:Hq.
    + destruct (repeat_wrong_run cr wrong w1 q Hq) as (w2 & -> & _ & _ & Hlog2 & Hq2).
      cbn. split.
      * intros ?. rewrite Hq2. intros [= <-]. cbn. by apply H1.
      * eexists. rewrite Hlog2, Hlog, <- (assoc_L (++)). split; [done|].
        apply Forall_app. split; [done|].
        destruct (truthy (user_id w1)); repeat constructor. cbn. by apply H1.
    + destruct (repeat_wrong_none cr wrong w1 Hq) as (Eq & El & _). split.
      * by rewrite Eq.
      * rewrite El. eauto.
Qed.

Lemma stored_once_app s l1 l2 :
  stored_once s (l1 ++ l2) ↔ stored_once s l1 ∧ stored_once (stored_after s l1) l2.
Proof.
  revert s. induction l1 as [|c l1 IH]; intros s; cbn; [tauto|].
  destruct c; rewrite IH; tauto.
Qed.

Lemma stored_after_app s l1 l2 :
  stored_after s (l1 ++ l2) = stored_after (stored_after s l1) l2.
Proof. revert s. induction l1 as [|c l1 IH]; intros s; cbn; [done|]. by destruct c. Qed.

(** In whatever order the buttons are clicked, no final score is stored
    twice for one opened session record. *)
Lemma run_clicks_guarded s base evs w :
  guarded s base w → guarded s base (run_clicks evs w).
Proof.
  apply run_clicks_preserves.
  - intros w1 w2 Eq El Eu (new & Hlog & Hnew & Hdue).
    exists new. rewrite El. split_and!; [done|done|].
    intros Hs q. rewrite Eq. intros Hq. unfold score_due. rewrite Eu.
    by apply Hdue.
  - intros w1 q q' Hq (new & Hlog & Hnew & Hdue) _ Hsid Hflag.
    exists new. split_and!; [done|done|].
    intros Hs ? [= <-]. unfold score_due. cbn. rewrite Hsid, Hflag.
    by apply Hdue.
  - intros w1 (new & Hlog & Hnew & _). by exists new.
  - intros w1 q user qid c sid Hq (new & Hlog & Hnew & Hdue).
    exists (new ++ [record_answer user (current_test_id q) qid c sid]).
    cbn. rewrite Hlog, (assoc_L (++)), stored_once_app, stored_after_app.
    split_and!; [done|done|done|]. cbn. intros Hs q' Hq'. by apply Hdue.
  - intros w1 (new & Hlog & Hnew & Hdue). destruct (quiz w1) as [q|] eqn:Hq.
    + destruct (save_session_score_run w1 q Hq)
        as (w2 & -> & Hu & Hlog2 & q2 & Hq2 & _ & Hsid & Hflag).
      cbn. destruct (score_due w1 q) eqn:Hd.
      * exists (new ++ [update_session_score (default 0 (current_session_id q))
                          (score q) (Z.of_nat (length (questions q)))]).
        rewrite Hlog2, Hlog, (assoc_L (++)), stored_once_app, stored_after_app.
        split_and!; [done|done| |].
        -- cbn. split; [|done]. destruct (stored_after s new) eqn:Hs; [|done].
           by rewrite (Hdue eq_refl q eq_refl) in Hd.
        -- intros _ ?. rewrite Hq2. intros [= <-]. unfold score_due.
           rewrite Hflag. cbn. by rewrite andb_false_r.
      * exists new. rewrite Hlog2, Hlog, app_nil_r. split_and!; [done|done|].
        intros Hs ?. rewrite Hq2. intros [= <-]. unfold score_due.
        rewrite Hu, Hsid, Hflag. by apply Hdue.
    + rewrite save_session_score_none by done. cbn. exists new.
      split_and!; [done|done|]. intros _ ?. by rewrite Hq.
  - intros cr wrong w1 (new & Hlog & Hnew & Hdue).
    destruct (quiz w1) as [q|] eqn:Hq.
    + destruct (repeat_wrong_run cr wrong w1 q Hq) as (w2 & -> & _ & Hu & Hlog2 & Hq2).
      cbn. destruct (truthy (user_id w1)) eqn:Hlogged.
      * exists (new ++ [create_session (default 0 (user_id w1)) (current_test_id q)
                          0 (Z.of_nat (length wrong))]).
        rewrite Hlog2, Hlog, (assoc_L (++)), stored_once_app, stored_after_app.
        split_and!; done.
      * exists new. rewrite Hlog2, Hlog, app_nil_r. split_and!; [done|done|].
        intros _ ? _. unfold score_due. by rewrite Hu, Hlogged.
    + destruct (repeat_wrong_none cr wrong w1 Hq) as (Eq & El & _).
      exists new. rewrite El. split_and!; [done|done|].
      intros _ ?. by rewrite Eq.
Qed.

(** C7: once a round is over, rendering the completion view again and
    again stores the final score at most once: the first rendering
    stores it if it is due, no later one adds a call, and none does when
    the saved-flag is already set.  More generally, in whatever order the
    buttons are clicked from any state of the quiz, the log never takes
    two [update_session_score] calls without a [create_session] between
    them, and none before the next [create_session] when the saved-flag
    is set. *)
Theorem session_score_saved_once (w : World) (q : Quiz) (n : nat) :
  quiz w = Some q →
  (round_over q →
   db_log (rerender n w) =
     db_log w ++
     (if score_due w q && bool_decide (0 < n)%nat
      then [update_session_score (default 0 (current_session_id q)) (score q)
                                 (Z.of_nat (length (questions q)))]
      else []) ∧
   (length (filter is_update (db_log (rerender n w)))
    ≤ length (filter is_update (db_log w)) + 1)%nat ∧
   (session_score_saved q = Some true → db_log (rerender n w) = db_log w)) ∧
  ∀ evs, ∃ new,
    db_log (run_clicks evs w) = db_log w ++ new ∧
    stored_once (default false (session_score_saved q)) new.
Proof.
  intros Hq. split.
  - intros Hover.
    assert (Hlog : db_log (rerender n w) =
              db_log w ++
              (if score_due w q && bool_decide (0 < n)%nat
               then [update_session_score (default 0 (current_session_id q))
                       (score q) (Z.of_nat (length (questions q)))]
               else [])).
    { assert (Hidle : ∀ m w1 q1, quiz w1 = Some q1 → round_over q1 →
                score_due w1 q1 = false → db_log (rerender m w1) = db_log w1).
      { induction m as [|m IH]; intros w1 q1 Hq1 Ho1 Hd1; [done|]. cbn.
        destruct (rerender_step w1 q1 Hq1 Ho1)
          as (q2 & Hq2 & Ho2 & Hd2 & _ & _ & Hl).
        rewrite (IH _ _ Hq2 Ho2 Hd2), Hl, Hd1. by rewrite app_nil_r. }
      destruct n as [|n]; cbn.
      - by rewrite andb_false_r, app_nil_r.
      - destruct (rerender_step w q Hq Hover)
          as (q1 & Hq1 & Ho1 & Hd1 & _ & _ & Hl).
        rewrite (Hidle _ _ _ Hq1 Ho1 Hd1), Hl.
        rewrite bool_decide_eq_true_2 by lia. by rewrite andb_true_r. }
    split; [done|]. split.
    + rewrite Hlog, filter_app, length_app.
      destruct (score_due w q && bool_decide (0 < n)%nat);
        [rewrite filter_cons_True by done|]; cbn; lia.
    + intros Hsaved. rewrite Hlog. unfold score_due. rewrite Hsaved. cbn.
      by rewrite !andb_false_r, app_nil_r.
  - intros evs.
    destruct (run_clicks_guarded (default false (session_score_saved q))
                (db_log w) evs w) as (new & Hlog & Hnew & _); [|eauto].
    exists []. rewrite app_nil_r. split_and!; [done|done|]. cbn.
    intros Hs ? Hq'. rewrite Hq in Hq'. injection Hq' as <-.
    unfold score_due. rewrite Hs. by rewrite andb_false_r.
Qed.

(** C10: when the references resolve to at least one question,
    [_start_quiz_from_wrong] files the whole quiz under one test id, the
    last key of the grouping dictionary that is neither [None] nor [0]:
    the session record is created for it, [current_test_id] is set to
    it, and every answer recorded afterwards, to whatever test the
    question belongs, is recorded against it. *)
Theorem start_quiz_from_wrong_single_test
    (wrong_refs : list WrongRef) (w : World) (u : Z) :
  user_id w = Some u →
  resolve_tagged w (group_by_test wrong_refs) ≠ [] →
  ∃ tid w' q',
    last (filter (λ t, truthy t = true) (group_by_test wrong_refs).*1)
      = Some (Some tid) ∧
    tid ≠ 0 ∧
    _start_quiz_from_wrong wrong_refs w = (Raise Rerun, w') ∧
    quiz w' = Some q' ∧
    current_test_id q' = tid ∧
    current_session_id q' = Some (db_next_session w) ∧
    db_log w' =
      db_log w ++ [create_session u tid 0 (Z.of_nat (length (questions q')))] ∧
    (u ≠ 0 → ∀ question opt,
       questions q' !! 0%nat = Some question →
       (opt < length (q_options question))%nat →
       ∃ w'',
         run_script (ClickOption opt) w' = (Raise Rerun, w'') ∧
         db_log w'' =
           db_log w' ++
           [record_answer u tid (q_id question)
              (bool_decide (Z.of_nat opt = q_answer_index question))
              (Some (db_next_session w))]) ∧
    ∀ evs, ∃ new,
      db_log (run_clicks evs w') = db_log w' ++ new ∧
      Forall (names_test tid) new.
Proof.
  intros Hu Hne.
  assert (Hlast : ∃ tid,
            last (filter (λ t, truthy t = true) (group_by_test wrong_refs).*1)
              = Some (Some tid) ∧ tid ≠ 0).
  { destruct (resolve_tagged w (group_by_test wrong_refs)) as [|[t x] l] eqn:E;
      [done|].
    assert (Hin : (t, x) ∈ resolve_tagged w (group_by_test wrong_refs)).
    { rewrite E. apply list_elem_of_here. }
    apply resolve_tagged_elem in Hin as (Ht & (s & Hs & _) & _).
    assert (Hkey : Some t ∈ filter (λ t, truthy t = true)
                                   (group_by_test wrong_refs).*1).
    { apply list_elem_of_filter. split.
      - apply truthy_true. eauto.
      - apply list_elem_of_fmap. by exists (Some t, s). }
    destruct (last (filter _ _)) as [t'|] eqn:El.
    - apply last_Some_elem_of in El as Hin'.
      apply list_elem_of_filter in Hin' as [(z & -> & Hz)%truthy_true _]. eauto.
    - apply last_None in El. rewrite El in Hkey. by apply elem_of_nil in Hkey. }
  destruct Hlast as (tid & Hlast & Htid).
  assert (Hstart : started_test_id wrong_refs = tid).
  { unfold started_test_id, final_test_id. rewrite Hlast. cbn.
    by rewrite bool_decide_eq_true_2. }
  destruct (start_quiz_from_wrong_run wrong_refs w) as [_ Hsome].
  destruct (Hsome ltac:(by intros ?%fmap_nil_inv) u Hu)
    as (w' & Hrun & Hu' & Hlog & Hq).
  rewrite Hstart in Hlog, Hq.
  eexists tid, w', _. split_and!; [done|done|exact Hrun|exact Hq|done|done| | |].
  - cbn. rewrite Hlog. do 3 f_equal.
    by rewrite (Permutation_length (shuffle_Permutation _ _)).
  - intros Hu0 question opt Hlook Hopt.
    destruct (run_script_submit w' _ question opt Hq Hlook eq_refl Hopt)
      as [p Hclick].
    destruct (submit_answer_run opt question (set_page p w') _ Hq)
      as (w'' & Hsub & _ & _ & _ & Hlog'').
    exists w''. rewrite Hclick. split; [exact Hsub|].
    cbn in Hlog''. rewrite Hu' in Hlog''. cbn in Hlog''.
    by rewrite bool_decide_eq_true_2 in Hlog''.
  - intros evs.
    destruct (run_clicks_under_test tid (db_log w') evs w') as [_ Hnew]; [|done].
    split; [rewrite Hq; by intros ? [= <-]|].
    exists []. by rewrite app_nil_r.
Qed.

(** ** The difficulty scorer: the order it induces *)

Lemma Qdiv_inject_Z_le (a b c d : Z) :
  0 < b → 0 < d →
  (inject_Z a / inject_Z b <= inject_Z c / inject_Z d)%Q ↔ a * d ≤ c * b.
Proof.
  intros Hb Hd. destruct b as [|b|b]; try lia. destruct d as [|d|d]; try lia.
  unfold Qle, Qdiv, Qmult, Qinv, inject_Z. cbn.
  by rewrite !Z.mul_1_r.
Qed.

Lemma Qhalf_le_div (a b : Z) :
  0 < b → (1 # 2 <= inject_Z a / inject_Z b)%Q ↔ b ≤ 2 * a.
Proof.
  intros Hb. destruct b as [|b|b]; try lia.
  unfold Qle, Qdiv, Qmult, Qinv, inject_Z. cbn. lia.
Qed.

Lemma Qdiv_le_half (a b : Z) :
  0 < b → (inject_Z a / inject_Z b <= 1 # 2)%Q ↔ 2 * a ≤ b.
Proof.
  intros Hb. destruct b as [|b|b]; try lia.
  unfold Qle, Qdiv, Qmult, Qinv, inject_Z. cbn. lia.
Qed.

(** X1: with counts that are not negative, the scorer follows the
    proportion of wrong answers: of two questions that have been
    answered, the one failed in no larger proportion
    ([wrong x * correct y ≤ wrong y * correct x]) is scored no higher; a
    question with the neutral score [0.5], such as one never answered,
    is scored no higher than an answered question that was failed at
    least as often as it was got right, and no lower than one that was
    got right at least as often as it was failed.  (Rounding the
    quotient to a float keeps each of these inequalities.) *)
Theorem difficulty_score_order (x y : Question) (question_stats : gmap Z AnswerStat) :
  (∀ i st, question_stats !! i = Some st → 0 ≤ correct st ∧ 0 ≤ wrong st) →
  (∀ sx sy,
     question_stats !! q_id x = Some sx → question_stats !! q_id y = Some sy →
     correct sx + wrong sx ≠ 0 → correct sy + wrong sy ≠ 0 →
     wrong sx * correct sy ≤ wrong sy * correct sx →
     (_difficulty_score x question_stats <= _difficulty_score y question_stats)%Q) ∧
  (∀ sy,
     _difficulty_score x question_stats = 1 # 2 →
     question_stats !! q_id y = Some sy → correct sy + wrong sy ≠ 0 →
     (correct sy ≤ wrong sy →
      (_difficulty_score x question_stats <= _difficulty_score y question_stats)%Q) ∧
     (wrong sy ≤ correct sy →
      (_difficulty_score y question_stats <= _difficulty_score x question_stats)%Q)).
Proof.
  intros Hpos. split.
  - intros sx sy Hx Hy Hnx Hny Hle.
    destruct (Hpos _ _ Hx) as [Hcx Hwx]. destruct (Hpos _ _ Hy) as [Hcy Hwy].
    unfold _difficulty_score. rewrite Hx, Hy. cbn zeta.
    rewrite !decide_False by done.
    rewrite Qdiv_inject_Z_le by lia. nia.
  - intros sy Hhalf Hy Hny. rewrite Hhalf.
    destruct (Hpos _ _ Hy) as [Hcy Hwy].
    unfold _difficulty_score. rewrite Hy. cbn zeta.
    rewrite !decide_False by done.
    rewrite Qhalf_le_div, Qdiv_le_half by lia. split; lia.
Qed.

(** ** The selector: the rotation, tag by tag *)

Lemma quota_mono k j i i' : (i ≤ i')%nat → (quota k j i ≤ quota k j i')%nat.
Proof. induction 1; cbn; lia. Qed.

Lemma quota_closed k j i :
  (0 < k)%nat → (j < k)%nat →
  quota k j i = (i / k + if decide (j < i mod k)%nat then 1 else 0)%nat.
Proof.
  intros Hk Hj. induction i as [|i IH].
  - cbn. rewrite Nat.Div0.div_0_l, Nat.Div0.mod_0_l.
    by rewrite decide_False by lia.
  - cbn [quota]. rewrite IH. clear IH.
    pose proof (Nat.div_mod_eq i k) as Hi.
    pose proof (Nat.mod_upper_bound i k ltac:(lia)) as Hr.
    destruct (decide (S (i mod k) < k)%nat) as [Hlt|Hge].
    + assert (Hq : (S i / k = i / k ∧ S i mod k = S (i mod k))%nat).
      { symmetry in Hi.
        destruct (Nat.div_mod_unique k (S i / k) (i / k) (S i mod k) (S (i mod k)))
          as [-> ->]; [apply Nat.mod_upper_bound; lia|lia| |done].
        rewrite <- Nat.div_mod_eq. lia. }
      destruct Hq as [-> ->]. repeat case_decide; lia.
    + assert (Hq : (S i / k = S (i / k) ∧ S i mod k = 0)%nat).
      { destruct (Nat.div_mod_unique k (S i / k) (S (i / k)) (S i mod k) 0)
          as [-> ->]; [apply Nat.mod_upper_bound; lia|lia| |done].
        rewrite <- Nat.div_mod_eq. lia. }
      destruct Hq as [-> ->]. repeat case_decide; lia.
Qed.

Lemma dict_get_lookup (d : TagDict) j t qs :
  NoDup d.*1 → d !! j = Some (t, qs) →
  dict_get t d = Some qs ∧ ∀ v, dict_set t v d = <[j := (t, v)]> d.
Proof.
  revert j. induction d as [|[t0 q0] d IH]; intros j Hnd Hj; [done|].
  rewrite fmap_cons in Hnd. apply NoDup_cons in Hnd as [Hnot Hnd]. cbn in Hnot.
  destruct j as [|j]; cbn in Hj |- *.
  - injection Hj as -> ->. rewrite decide_True by done.
    split; [done|]. intros v. by rewrite decide_True.
  - assert (t0 ≠ t).
    { intros ->. apply Hnot, list_elem_of_fmap. exists (t, qs).
      split; [done|]. by eapply list_elem_of_lookup_2. }
    rewrite decide_False by done.
    destruct (IH j Hnd Hj) as [-> Hset]. split; [done|].
    intros v. by rewrite decide_False, Hset.
Qed.

Lemma round_robin_done fuel num selected tag_list idx d :
  ¬ Z.of_nat (length selected) < num →
  round_robin fuel num selected tag_list idx d = Ok selected.
Proof. intros H. destruct fuel; cbn; by rewrite decide_False. Qed.

Lemma round_robin_extends fuel :
  ∀ num selected tag_list idx d res,
    round_robin fuel num selected tag_list idx d = Ok res →
    ∃ more, res = selected ++ more.
Proof.
  induction fuel as [|fuel IH]; intros num selected tag_list idx d res; cbn.
  { case_decide; [done|]. intros [= <-]. exists []. by rewrite app_nil_r. }
  case_decide; [|intros [= <-]; exists []; by rewrite app_nil_r].
  destruct tag_list as [|t0 tl]; [done|].
  destruct (_ !! _) as [tag|]; [|done].
  destruct (dict_get tag d) as [[|q rest]|]; [| |done].
  - destruct (list_remove tag (t0 :: tl)) as [[|t1 tl']| |]; [|apply IH|done..].
    intros [= <-]. exists []. by rewrite app_nil_r.
  - intros (more & ->)%IH. exists (q :: more). by rewrite <- (assoc_L (++)).
Qed.

(** One turn of the rotation while the group in turn has a question. *)
Lemma round_robin_turn (d0 : TagDict) fuel num selected i d :
  NoDup d0.*1 → tagged_groups d0 →
  robin_state d0 i selected d →
  Z.of_nat (length selected) < num →
  (∀ j t qs, d0 !! j = Some (t, qs) → (quota (length d0) j (S i) ≤ length qs)%nat) →
  d0 ≠ [] →
  ∃ q d',
    round_robin (S fuel) num selected d0.*1 i d
    = round_robin fuel num (selected ++ [q]) d0.*1 (S i) d' ∧
    robin_state d0 (S i) (selected ++ [q]) d'.
Proof.
  intros Hnd Htag [Hkeys Hst] Hlt Hstock Hne. unfold TagDict in *.
  assert (Hk : (0 < length d0)%nat) by (destruct d0; [done|cbn; lia]).
  pose proof (Nat.mod_upper_bound i (length d0) ltac:(lia)) as Hj.
  destruct (lookup_lt_is_Some_2 d0 (i mod length d0)%nat Hj) as [[t qs] Hlook].
  destruct (Hst _ _ _ Hlook) as [Hd Hsel].
  pose proof (Hstock _ _ _ Hlook) as Hc. cbn [quota] in Hc.
  rewrite decide_True in Hc by done.
  destruct (lookup_lt_is_Some_2 qs (quota (length d0) (i mod length d0) i)
              ltac:(lia)) as [q Hq].
  rewrite (drop_S _ _ _ Hq) in Hd.
  assert (Hnd' : NoDup d.*1) by by rewrite Hkeys.
  destruct (dict_get_lookup d _ _ _ Hnd' Hd) as [Hget Hset].
  assert (Hqtag : q_tag q = t).
  { unfold tagged_groups in Htag. rewrite Forall_forall in Htag.
    specialize (Htag (t, qs) ltac:(by eapply list_elem_of_lookup_2)).
    cbn in Htag. rewrite Forall_forall in Htag. apply Htag.
    by eapply list_elem_of_lookup_2. }
  eexists q, _. split.
  - cbn [round_robin]. rewrite decide_True by done.
    destruct (d0.*1) as [|t0 tl] eqn:Etl.
    { destruct d0; [done|discriminate]. }
    rewrite <- Etl.
    assert (Hlen : length d0.*1 = length d0) by by rewrite length_fmap.
    rewrite Hlen.
    assert (Htl : d0.*1 !! (i mod length d0)%nat = Some t).
    { by rewrite list_lookup_fmap, Hlook. }
    rewrite Htl, Hget, Hset. reflexivity.
  - unfold robin_state, TagDict. split.
    + rewrite list_fmap_insert. cbn.
      rewrite list_insert_id; [done|].
      by rewrite Hkeys, list_lookup_fmap, Hlook.
    + intros j t' qs' Hj'. cbn [quota]. destruct (Hst _ _ _ Hj') as [Hd' Hsel'].
      destruct (decide (i mod length d0 = j)%nat) as [E|Hne'].
      * subst j. rewrite Hlook in Hj'. injection Hj' as <- <-.
        rewrite list_lookup_insert_eq by (by eapply lookup_lt_Some).
        rewrite Nat.add_1_r. split; [done|].
        rewrite filter_app, filter_cons_True, filter_nil by done.
        rewrite Hsel. by erewrite take_S_r.
      * rewrite list_lookup_insert_ne by done. rewrite Nat.add_0_r.
        split; [done|].
        rewrite filter_app, filter_cons_False, filter_nil, app_nil_r; [done|].
        rewrite Hqtag. intros ->.
        apply Hne'. eapply NoDup_lookup; [exact Hnd| |].
        -- by rewrite list_lookup_fmap, Hlook.
        -- by rewrite list_lookup_fmap, Hj'.
Qed.

(** The first [n] turns, when every group is stocked for them. *)
Lemma round_robin_turns (d0 : TagDict) num n :
  NoDup d0.*1 → tagged_groups d0 → d0 ≠ [] →
  Z.of_nat n ≤ num →
  (∀ j t qs, d0 !! j = Some (t, qs) → (quota (length d0) j n ≤ length qs)%nat) →
  ∀ fuel, (n ≤ fuel)%nat →
  ∃ selected d,
    round_robin fuel num [] d0.*1 0 d0
    = round_robin (fuel - n) num selected d0.*1 n d ∧
    length selected = n ∧ robin_state d0 n selected d.
Proof.
  intros Hnd Htag Hne. induction n as [|n IH]; intros Hnum Hstock fuel Hfuel.
  - exists [], d0. rewrite Nat.sub_0_r. split_and!; [done|done|].
    split; [done|]. intros j t qs Hj. cbn. by rewrite drop_0, take_0.
  - destruct (IH ltac:(lia)) with (fuel := fuel)
      as (selected & d & Heq & Hlen & Hst); [|lia|].
    { intros j t qs Hj. etransitivity; [|by eapply Hstock].
      apply quota_mono. lia. }
    destruct (round_robin_turn d0 (fuel - S n) num selected n d)
      as (q & d' & Hturn & Hst'); [done..|lia|done|done|].
    exists (selected ++ [q]), d'. split_and!; [|rewrite length_app; cbn; lia|done].
    rewrite Heq. replace (fuel - n)%nat with (S (fuel - S n)) by lia. done.
Qed.

(** ** Sorting *)

Lemma insert_desc_sorted (key : Question → Q) q l :
  StronglySorted (λ x y, (key y <= key x)%Q) l →
  StronglySorted (λ x y, (key y <= key x)%Q) (insert_desc key q l).
Proof.
  induction 1 as [|y l Hl IH Hy]; cbn; [repeat constructor|].
  destruct (Qlt_le_dec (key q) (key y)) as [Hlt|Hle].
  - constructor; [done|]. rewrite insert_desc_Permutation.
    constructor; [by apply Qlt_le_weak|done].
  - constructor; [by constructor|]. constructor; [done|].
    eapply Forall_impl; [exact Hy|]. intros z Hz. cbn in Hz |- *.
    by eapply Qle_trans.
Qed.

Lemma sort_desc_sorted (key : Question → Q) l :
  StronglySorted (λ x y, (key y <= key x)%Q) (sort_desc key l).
Proof.
  induction l as [|q l IH]; cbn; [constructor|]. by apply insert_desc_sorted.
Qed.

(** With statistics every group comes out hardest first. *)
Lemma order_groups_sorted stats m d g :
  stats_given stats = Some m →
  Forall (λ p, StronglySorted
                 (λ x y, (_difficulty_score y m <= _difficulty_score x m)%Q) p.2)
         (order_groups stats d g).1.
Proof.
  intros Hm. revert g. induction d as [|[t qs] d IH]; intros g; cbn; [constructor|].
  rewrite Hm. specialize (IH g). destruct (order_groups stats d g) as [d'' g2].
  constructor; [|done]. cbn. apply sort_desc_sorted.
Qed.

(** ** The groups and the tags of the pool *)

Lemma uniform_tagged d : uniform_groups d → tagged_groups d.
Proof. intros H. eapply Forall_impl; [exact H|]. by intros p [_ ?]. Qed.

Lemma order_groups_tagged stats d g :
  tagged_groups d → tagged_groups (order_groups stats d g).1.
Proof.
  intros Hd. pose proof (order_groups_spec stats d g) as H.
  unfold tagged_groups in *.
  induction H as [|p p' d0 d1 [Hk Hp] _ IH]; [constructor|].
  apply Forall_cons in Hd as [Hp0 Hd]. constructor; [|auto].
  rewrite Hk, Hp. done.
Qed.

(** A group of the ordered dictionary holds the questions of its tag. *)
Lemma order_groups_lookup stats l g j t qs :
  (order_groups stats (group_by_tag l) g).1 !! j = Some (t, qs) →
  qs ≡ₚ filter (λ q, q_tag q = t) l ∧ qs ≠ [] ∧ (group_by_tag l).*1 !! j = Some t.
Proof.
  intros Hj. pose proof (order_groups_spec stats (group_by_tag l) g) as H.
  destruct (Forall2_lookup_r _ _ _ _ _ H Hj) as ([t0 qs0] & Hj0 & Ht & Hp).
  cbn in Ht, Hp. subst t0.
  pose proof (group_by_tag_grouped l) as Hg.
  assert (Hin : (t, qs0) ∈ group_by_tag l) by by eapply list_elem_of_lookup_2.
  split_and!.
  - rewrite Hp. by eapply grouped_lookup.
  - destruct Hg as (_ & _ & Hall). rewrite Forall_forall in Hall.
    destruct (Hall _ Hin) as [Hne _]. cbn in Hne.
    intros ->. by apply Permutation_nil_l in Hp.
  - by rewrite list_lookup_fmap, Hj0.
Qed.

Lemma tags_lookup l q :
  q ∈ l → ∃ j, (group_by_tag l).*1 !! j = Some (q_tag q).
Proof.
  intros Hq. apply list_elem_of_lookup_1.
  eapply grouped_key; [apply group_by_tag_grouped|done].
Qed.

Lemma count_tag_Permutation t l l' : l ≡ₚ l' → count_tag t l = count_tag t l'.
Proof. intros H. unfold count_tag. by rewrite H. Qed.

(** ** The per-tag view of a run of the loop *)

Lemma round_robin_prefix fuel :
  ∀ num selected tag_list idx (d : TagDict) res,
    NoDup d.*1 → tagged_groups d →
    round_robin fuel num selected tag_list idx d = Ok res →
    ∀ t qs, (t, qs) ∈ d →
      ∃ n, filter (λ q, q_tag q = t) res
           = filter (λ q, q_tag q = t) selected ++ take n qs.
Proof.
  induction fuel as [|fuel IH]; intros num selected tag_list idx d res Hnd Htag;
    cbn [round_robin].
  { case_decide; [done|]. intros [= <-] t qs _. exists 0%nat.
    by rewrite take_0, app_nil_r. }
  case_decide; [|intros [= <-] t qs _; exists 0%nat; by rewrite take_0, app_nil_r].
  destruct tag_list as [|t0 tl]; [done|].
  destruct (_ !! _) as [tag|]; [|done].
  destruct (dict_get tag d) as [[|q rest]|] eqn:Hget; [| |done].
  - destruct (list_remove tag (t0 :: tl)) as [[|t1 tl']| |]; [| |done..].
    + intros [= <-] t qs _. exists 0%nat. by rewrite take_0, app_nil_r.
    + by apply IH.
  - destruct (dict_get_Some _ _ _ Hget) as (d1 & d2 & -> & Hnot & Hset).
    rewrite Hset. intros Hrun t qs Hin.
    assert (Hq : q_tag q = tag).
    { unfold tagged_groups in Htag.
      apply Forall_app in Htag as [_ [Hh _]%Forall_cons]. cbn in Hh.
      by apply Forall_cons in Hh as [? _]. }
    assert (Hnd' : NoDup (d1 ++ (tag, rest) :: d2).*1).
    { by rewrite fmap_app, fmap_cons in *. }
    assert (Htag' : tagged_groups (d1 ++ (tag, rest) :: d2)).
    { unfold tagged_groups in *.
      apply Forall_app in Htag as [H1 [Hh H2]%Forall_cons].
      apply Forall_app. split; [done|]. constructor; [|done]. cbn in *.
      by apply Forall_cons in Hh as [_ ?]. }
    destruct (decide (t = tag)) as [->|Hne].
    + assert (qs = q :: rest) as ->.
      { eapply (keys_unique _ tag); [exact Hnd|done|].
        apply elem_of_app. right. apply list_elem_of_here. }
      destruct (IH _ _ _ _ _ _ Hnd' Htag' Hrun tag rest) as [n Hn].
      { apply elem_of_app. right. apply list_elem_of_here. }
      exists (S n). rewrite Hn, filter_app, filter_cons_True, filter_nil by done.
      by rewrite <- (assoc_L (++)).
    + destruct (IH _ _ _ _ _ _ Hnd' Htag' Hrun t qs) as [n Hn].
      { apply elem_of_app in Hin as [Hin|[[= ? ?]|Hin]%elem_of_cons]; [|done|].
        - apply elem_of_app. by left.
        - apply elem_of_app. right. by apply list_elem_of_further. }
      exists n. rewrite Hn, filter_app, filter_cons_False, filter_nil, app_nil_r; [done|].
      by rewrite Hq.
Qed.

(** The selector answers; [filtered] is not empty and larger than the count. *)
Lemma select_balanced_questions_robin questions selected_tags num stats g :
  let filtered := filter (λ q, q_tag q ∈ selected_tags) questions in
  filtered ≠ [] → ¬ Z.of_nat (length filtered) ≤ num →
  let d := (order_groups stats (group_by_tag filtered) g).1 in
  ∃ selected,
    round_robin (length filtered + length d.*1) num [] d.*1 0 d = Ok selected ∧
    (select_balanced_questions questions selected_tags num stats g).1
    = Ok (shuffle selected (order_groups stats (group_by_tag filtered) g).2).1 ∧
    NoDup d.*1 ∧ tagged_groups d ∧ d ≠ [].
Proof.
  intros filtered Hne Hfew d.
  pose proof (group_by_tag_grouped filtered) as Hg.
  pose proof (order_groups_keys stats (group_by_tag filtered) g) as Hk.
  pose proof (order_groups_concat stats (group_by_tag filtered) g) as Hc.
  pose proof (order_groups_tagged stats (group_by_tag filtered) g) as Ht.
  unfold select_balanced_questions. fold filtered.
  rewrite decide_False by done. rewrite decide_False by done.
  subst d. destruct (order_groups stats (group_by_tag filtered) g) as [d g1].
  cbn [fst snd] in *. destruct Hg as (Hnd & Hperm & Hall).
  assert (Hlen : length (concat d.*2) = length filtered) by by rewrite Hc, Hperm.
  destruct (round_robin_spec (length filtered + length d.*1) num []
              d.*1 0%nat d) as (sel & rest & Hrun & _).
  - rewrite Hk. by eapply grouped_keys_nonempty.
  - by rewrite Hk.
  - done.
  - intros t qs Hin Hnin. destruct Hnin.
    apply list_elem_of_fmap. by exists (t, qs).
  - lia.
  - exists sel. rewrite Hrun. split; [done|]. split.
    + by destruct (shuffle sel g1).
    + split_and!; [by rewrite Hk|by apply Ht, uniform_tagged|].
      intros ->. cbn in Hk. symmetry in Hk.
      by eapply grouped_keys_nonempty.
Qed.

Lemma select_balanced_questions_empty questions selected_tags num stats g :
  filter (λ q, q_tag q ∈ selected_tags) questions = [] →
  (select_balanced_questions questions selected_tags num stats g).1 = Ok [].
Proof.
  intros E. unfold select_balanced_questions. rewrite E. by rewrite decide_True.
Qed.

Lemma select_balanced_questions_all questions selected_tags num stats g :
  let filtered := filter (λ q, q_tag q ∈ selected_tags) questions in
  filtered ≠ [] → Z.of_nat (length filtered) ≤ num →
  ∃ res, (select_balanced_questions questions selected_tags num stats g).1 = Ok res ∧
         res ≡ₚ filtered.
Proof.
  intros filtered Hne Hall. unfold select_balanced_questions. fold filtered.
  rewrite decide_False by done. rewrite decide_True by done.
  pose proof (shuffle_Permutation filtered g) as Hs.
  destruct (shuffle filtered g) as [l g']. by exists l.
Qed.

(** With statistics, the questions taken of a tag are its hardest. *)
Lemma hardest_first_with_stats
    (questions : list Question) (selected_tags : list string) (num_questions : Z)
    (question_stats : gmap Z AnswerStat) (g : Rng) :
  question_stats ≠ ∅ →
  ∃ res,
    (select_balanced_questions questions selected_tags num_questions
                               (Some question_stats) g).1 = Ok res ∧
    ∀ x y, x ∈ res → y ∈ questions → q_tag y ∈ selected_tags →
           q_tag y = q_tag x → y ∉ res →
           (_difficulty_score y question_stats
            <= _difficulty_score x question_stats)%Q.
Proof.
  intros Hm.
  set (filtered := filter (λ q, q_tag q ∈ selected_tags) questions).
  destruct (decide (filtered = [])) as [Hnil|Hne].
  { exists []. split; [by apply select_balanced_questions_empty|].
    by intros x y ?%elem_of_nil. }
  destruct (decide (Z.of_nat (length filtered) ≤ num_questions)) as [Hall|Hfew].
  { destruct (select_balanced_questions_all questions selected_tags num_questions
                (Some question_stats) g Hne Hall) as (res & Hres & Hperm).
    exists res. split; [done|]. intros x y _ Hy Htag _ Hnot. destruct Hnot.
    rewrite Hperm. by apply list_elem_of_filter. }
  destruct (select_balanced_questions_robin questions selected_tags num_questions
              (Some question_stats) g Hne Hfew)
    as (sel & Hrun & Hres & Hnd & Htagged & _).
  fold filtered in Hrun, Hres, Hnd, Htagged.
  pose proof (shuffle_Permutation sel
    (order_groups (Some question_stats) (group_by_tag filtered) g).2) as Hs.
  eexists. split; [exact Hres|]. intros x y Hx Hy Hsel Htag Hnot.
  rewrite Hs in Hx, Hnot.
  assert (Hyf : y ∈ filtered) by by apply list_elem_of_filter.
  destruct (tags_lookup filtered y Hyf) as [j Hj].
  rewrite <- (order_groups_keys (Some question_stats) _ g) in Hj.
  apply list_lookup_fmap_Some in Hj as ([t qs] & Hjt & Hlook).
  cbn in Hjt. subst t.
  destruct (order_groups_lookup _ _ _ _ _ _ Hlook) as (Hqs & _ & _).
  destruct (round_robin_prefix _ _ _ _ _ _ _ Hnd Htagged Hrun (q_tag y) qs)
    as [n Hn]; [by eapply list_elem_of_lookup_2|].
  cbn in Hn.
  assert (Hxt : x ∈ take n qs).
  { rewrite <- Hn. by apply list_elem_of_filter. }
  assert (Hyd : y ∈ drop n qs).
  { assert (Hyq : y ∈ qs) by (rewrite Hqs; by apply list_elem_of_filter).
    rewrite <- (take_drop n qs) in Hyq. apply elem_of_app in Hyq as [Hyq|]; [|done].
    destruct Hnot. rewrite <- Hn in Hyq. by apply list_elem_of_filter in Hyq as [_ ?]. }
  assert (Hsorted : StronglySorted
            (λ x y, (_difficulty_score y question_stats
                     <= _difficulty_score x question_stats)%Q) qs).
  { pose proof (order_groups_sorted (Some question_stats) question_stats
                  (group_by_tag filtered) g) as Hall.
    rewrite Forall_forall in Hall. apply (Hall ltac:(cbn; by rewrite decide_False) (q_tag y, qs)).
    by eapply list_elem_of_lookup_2. }
  rewrite <- (take_drop n qs) in Hsorted.
  exact (StronglySorted_app_1_elem_of _ _ _ _ _ Hsorted Hxt Hyd).
Qed.

(** X2: when the count is at least the number of tags of the
    filtered pool, the answer of the selector holds a question of every
    allowed tag that the pool shows, whatever the sizes of the groups,
    the statistics and the random draws. *)
Theorem select_balanced_questions_covers_tags
    (questions : list Question) (selected_tags : list string) (num_questions : Z)
    (question_stats : option (gmap Z AnswerStat)) (g : Rng) :
  let filtered := filter (λ q, q_tag q ∈ selected_tags) questions in
  Z.of_nat (length (tags_of filtered)) ≤ num_questions →
  ∃ res,
    (select_balanced_questions questions selected_tags num_questions
                               question_stats g).1 = Ok res ∧
    ∀ q, q ∈ questions → q_tag q ∈ selected_tags →
         ∃ x, x ∈ res ∧ q_tag x = q_tag q.
Proof.
  intros filtered Hnum.
  destruct (decide (filtered = [])) as [Hnil|Hne].
  { exists []. split; [by apply select_balanced_questions_empty|].
    intros q Hq Ht. assert (Hin : q ∈ filtered) by by apply list_elem_of_filter.
    rewrite Hnil in Hin. by apply elem_of_nil in Hin. }
  destruct (decide (Z.of_nat (length filtered) ≤ num_questions)) as [Hall|Hfew].
  { destruct (select_balanced_questions_all questions selected_tags num_questions
                question_stats g Hne Hall) as (res & Hres & Hperm).
    exists res. split; [done|]. intros q Hq Ht. exists q. split; [|done].
    rewrite Hperm. by apply list_elem_of_filter. }
  destruct (select_balanced_questions_robin questions selected_tags num_questions
              question_stats g Hne Hfew)
    as (sel & Hrun & Hres & Hnd & Htagged & Hd).
  fold filtered in Hrun, Hres, Hnd, Htagged, Hd.
  set (d := (order_groups question_stats (group_by_tag filtered) g).1) in *.
  assert (Hk : length d = length (tags_of filtered)).
  { unfold tags_of. rewrite <- (order_groups_keys question_stats _ g).
    by rewrite length_fmap. }
  assert (Hpos : (0 < length d)%nat) by (destruct d; [done|cbn; lia]).
  destruct (round_robin_turns d num_questions (length d) Hnd Htagged Hd)
    with (fuel := (length filtered + length d.*1)%nat)
    as (sel0 & d' & Heq & _ & _ & Hst); [lia| |rewrite length_fmap; lia|].
  { intros j t qs Hj.
    rewrite quota_closed by (done || by eapply lookup_lt_Some).
    rewrite Nat.div_same, Nat.Div0.mod_same by lia.
    rewrite decide_False by lia.
    destruct (order_groups_lookup _ _ _ _ _ _ Hj) as (_ & Hqs & _).
    destruct qs; [done|cbn; lia]. }
  rewrite Heq in Hrun. apply round_robin_extends in Hrun as [more ->].
  pose proof (shuffle_Permutation (sel0 ++ more)
    (order_groups question_stats (group_by_tag filtered) g).2) as Hs.
  eexists. split; [exact Hres|]. intros q Hq Ht.
  assert (Hqf : q ∈ filtered) by by apply list_elem_of_filter.
  destruct (tags_lookup filtered q Hqf) as [j Hj].
  rewrite <- (order_groups_keys question_stats _ g) in Hj.
  fold d in Hj.
  apply list_lookup_fmap_Some in Hj as ([t qs] & Hjt & Hlook).
  cbn in Hjt. subst t.
  destruct (Hst _ _ _ Hlook) as [_ Htake].
  destruct (order_groups_lookup _ _ _ _ _ _ Hlook) as (_ & Hqs & _).
  rewrite quota_closed in Htake by (done || by eapply lookup_lt_Some).
  rewrite Nat.div_same, Nat.Div0.mod_same in Htake by lia.
  rewrite decide_False in Htake by lia.
  destruct qs as [|x qs]; [done|]. cbn in Htake.
  assert (Hx : x ∈ filter (λ q0, q_tag q0 = q_tag q) sel0).
  { rewrite Htake. apply list_elem_of_here. }
  apply list_elem_of_filter in Hx as [Hxt Hx].
  exists x. split; [|done]. rewrite Hs. apply elem_of_app. by left.
Qed.

Lemma concat_length_lower {A} (ls : list (list A)) (n k : nat) :
  Forall (λ l, n ≤ k * length l)%nat ls →
  (length ls * n ≤ k * length (concat ls))%nat.
Proof.
  induction 1 as [|l ls Hl _ IH]; cbn; [lia|]. rewrite length_app. lia.
Qed.

Lemma concat_length_strict {A} (ls : list (list A)) (n k : nat) l0 :
  Forall (λ l, n ≤ k * length l)%nat ls →
  l0 ∈ ls → (n < k * length l0)%nat →
  (length ls * n < k * length (concat ls))%nat.
Proof.
  intros Hall Hin Hlt. induction Hall as [|l ls Hl Hall IH]; cbn.
  { by apply elem_of_nil in Hin. }
  rewrite length_app. pose proof (concat_length_lower ls n k Hall).
  apply elem_of_cons in Hin as [->|Hin]; [lia|]. specialize (IH Hin). lia.
Qed.

(** Groups that each hold a [k]-th of [n] or more, [k] of them, with no
    more than [n] members in all, hold exactly a [k]-th each. *)
Lemma concat_length_even {A} (ls : list (list A)) (n : nat) l0 :
  Forall (λ l, n ≤ length ls * length l)%nat ls →
  (length (concat ls) ≤ n)%nat →
  l0 ∈ ls → (length ls * length l0)%nat = n.
Proof.
  intros Hall Hsum Hin.
  destruct (decide (n < length ls * length l0)%nat) as [Hlt|Hge].
  - pose proof (concat_length_strict ls n _ l0 Hall Hin Hlt). nia.
  - rewrite Forall_forall in Hall. specialize (Hall _ Hin). lia.
Qed.

Lemma quota_stocked k j n c :
  (0 < k)%nat → (j < k)%nat → (n ≤ k * c)%nat → (quota k j n ≤ c)%nat.
Proof.
  intros Hk Hj Hn. rewrite quota_closed by done.
  pose proof (Nat.div_mod_eq n k) as Hdm.
  pose proof (Nat.mod_upper_bound n k ltac:(lia)) as Hr.
  case_decide; nia.
Qed.

(** X3: for a count that is not negative, when every tag of the
    filtered pool holds at least [num_questions / k] questions, rounded
    up, [k] being the number of tags, the selector takes [num_questions div k] questions of each tag
    and one more of the first [num_questions mod k] tags, in the order
    in which the pool first shows the tags; so no tag gets more than one
    question above another. *)
Theorem select_balanced_questions_balanced
    (questions : list Question) (selected_tags : list string) (num_questions : Z)
    (question_stats : option (gmap Z AnswerStat)) (g : Rng) :
  let filtered := filter (λ q, q_tag q ∈ selected_tags) questions in
  let k := Z.of_nat (length (tags_of filtered)) in
  0 ≤ num_questions →
  (∀ t, t ∈ tags_of filtered →
        num_questions ≤ k * Z.of_nat (count_tag t filtered)) →
  ∃ res,
    (select_balanced_questions questions selected_tags num_questions
                               question_stats g).1 = Ok res ∧
    (∀ j t, tags_of filtered !! j = Some t →
       Z.of_nat (count_tag t res)
       = num_questions `div` k
         + (if decide (Z.of_nat j < num_questions `mod` k) then 1 else 0)) ∧
    (∀ t t', t ∈ tags_of filtered → t' ∈ tags_of filtered →
       (count_tag t res ≤ count_tag t' res + 1)%nat).
Proof.
  intros filtered k Hnum Hshare.
  assert (Hgoal : ∃ res,
    (select_balanced_questions questions selected_tags num_questions
                               question_stats g).1 = Ok res ∧
    (∀ j t, tags_of filtered !! j = Some t →
       Z.of_nat (count_tag t res)
       = num_questions `div` k
         + (if decide (Z.of_nat j < num_questions `mod` k) then 1 else 0))).
  2:{ destruct Hgoal as (res & Hres & Hcount). exists res.
      split; [done|]. split; [done|].
      intros t t' [j Hj]%list_elem_of_lookup_1 [j' Hj']%list_elem_of_lookup_1.
      pose proof (Hcount _ _ Hj). pose proof (Hcount _ _ Hj').
      repeat case_decide; lia. }
  pose proof (group_by_tag_grouped filtered) as Hg.
  destruct (decide (filtered = [])) as [Hnil|Hne].
  { exists []. split; [by apply select_balanced_questions_empty|].
    intros j t. unfold tags_of. by rewrite Hnil. }
  assert (Hk : (0 < length (tags_of filtered))%nat).
  { unfold tags_of. pose proof (grouped_keys_nonempty _ _ Hg Hne).
    destruct (_.*1); [done|cbn; lia]. }
  assert (Hcnt : ∀ j t qs, group_by_tag filtered !! j = Some (t, qs) →
            length qs = count_tag t filtered).
  { intros j t qs Hj. unfold count_tag.
    rewrite <- (grouped_lookup _ _ t qs Hg); [done|].
    by eapply list_elem_of_lookup_2. }
  destruct (decide (Z.of_nat (length filtered) ≤ num_questions)) as [Hall|Hfew].
  { destruct (select_balanced_questions_all questions selected_tags num_questions
                question_stats g Hne Hall) as (res & Hres & Hperm).
    exists res. split; [done|]. intros j t Hj.
    rewrite (count_tag_Permutation _ _ _ Hperm).
    apply list_lookup_fmap_Some in Hj as ([t0 qs] & Ht0 & Hj). cbn in Ht0. subst t0.
    assert (Heven : (length (group_by_tag filtered).*2 * length qs)%nat
                    = Z.to_nat num_questions).
    { apply concat_length_even.
      - apply Forall_forall. intros l Hl.
        apply list_elem_of_lookup_1 in Hl as [i Hi].
        apply list_lookup_fmap_Some in Hi as ([t1 l1] & Hl1 & Hi). cbn in Hl1. subst l1.
        rewrite (Hcnt _ _ _ Hi), length_fmap.
        specialize (Hshare t1). unfold k, tags_of in Hshare.
        rewrite length_fmap in Hshare.
        assert (Z.of_nat (Z.to_nat num_questions)
                ≤ Z.of_nat (length (group_by_tag filtered) * count_tag t1 filtered)); [|lia].
        rewrite Z2Nat.id, Nat2Z.inj_mul by done. apply Hshare.
        apply list_elem_of_fmap. exists (t1, l). split; [done|].
        by eapply list_elem_of_lookup_2.
      - destruct Hg as (_ & Hp & _). rewrite Hp. lia.
      - apply list_elem_of_fmap. exists (t, qs). split; [done|].
        by eapply list_elem_of_lookup_2. }
    rewrite length_fmap in Heven. fold filtered. rewrite <- (Hcnt _ _ _ Hj).
    assert (Hnk : num_questions = k * Z.of_nat (length qs)).
    { unfold k, tags_of. rewrite length_fmap. lia. }
    rewrite Hnk. rewrite Z.mul_comm, Z.div_mul, Z.mod_mul by lia.
    rewrite decide_False by lia. lia. }
  destruct (select_balanced_questions_robin questions selected_tags num_questions
              question_stats g Hne Hfew)
    as (sel & Hrun & Hres & Hnd & Htagged & Hd).
  fold filtered in Hrun, Hres, Hnd, Htagged, Hd.
  set (d := (order_groups question_stats (group_by_tag filtered) g).1) in *.
  assert (Hlen : length d = length (tags_of filtered)).
  { unfold tags_of. rewrite <- (order_groups_keys question_stats _ g).
    by rewrite length_fmap. }
  assert (Hstock : ∀ j t qs, d !! j = Some (t, qs) →
            (quota (length d) j (Z.to_nat num_questions) ≤ length qs)%nat).
  { intros j t qs Hj. apply quota_stocked; [lia|by eapply lookup_lt_Some|].
    destruct (order_groups_lookup _ _ _ _ _ _ Hj) as (Hqs & _ & Hjt).
    specialize (Hshare t ltac:(by eapply list_elem_of_lookup_2)).
    unfold count_tag in Hshare. rewrite <- Hqs in Hshare. unfold k in Hshare.
    rewrite Hlen. lia. }
  destruct (round_robin_turns d num_questions (Z.to_nat num_questions)
              Hnd Htagged Hd ltac:(lia) Hstock)
    with (fuel := (length filtered + length d.*1)%nat)
    as (sel0 & d' & Heq & Hsel0 & _ & Hst); [lia|].
  rewrite Heq, round_robin_done in Hrun by lia. injection Hrun as <-.
  pose proof (shuffle_Permutation sel0
    (order_groups question_stats (group_by_tag filtered) g).2) as Hs.
  eexists. split; [exact Hres|]. intros j t Hj.
  rewrite (count_tag_Permutation _ _ _ Hs).
  unfold tags_of in Hj.
  rewrite <- (order_groups_keys question_stats _ g) in Hj. fold d in Hj.
  apply list_lookup_fmap_Some in Hj as ([t0 qs] & Ht0 & Hj). cbn in Ht0. subst t0.
  destruct (Hst _ _ _ Hj) as [_ Htake]. unfold count_tag.
  rewrite Htake, length_take, Nat.min_l by by eapply Hstock.
  rewrite quota_closed by (lia || by eapply lookup_lt_Some).
  rewrite Nat2Z.inj_add, Nat2Z.inj_div, Z2Nat.id, Hlen by done. fold k.
  f_equal.
  assert (Hmod : Z.of_nat (Z.to_nat num_questions `mod` length (tags_of filtered))
                 = num_questions `mod` k).
  { rewrite Nat2Z.inj_mod, Z2Nat.id by done. done. }
  repeat case_decide; lia.
Qed.

(** ** The quiz flow: one run of the script is one transition *)

(** A piece that only draws, followed by the rest of the script. *)
Lemma bind_page_only {A B} P (m : M A) (f : A → M B) (Post : World → Prop) w :
  page_only P m →
  (∀ p, Post (set_page p w)) →
  (∀ a p, Post (f a (set_page p w)).2) →
  Post ((m ≫= f) w).2.
Proof.
  intros Hm Hstop Hgo. unfold mbind, M_bind.
  destruct (Hm w) as (r & ws & _ & ->). destruct r as [a|e|]; cbn; auto.
Qed.

Lemma set_page_set_page p p' w : set_page p (set_page p' w) = set_page p w.
Proof. done. Qed.

(** The loop over the options when the click is on none of them. *)
Lemma option_buttons_pass (ev : Click) (question : Question) :
  ∀ options k w,
    (∀ j, (k ≤ j < k + length options)%nat → ev ≠ ClickOption j) →
    option_buttons ev question k options w
    = (Ok (), set_page (page w ++ (option_button <$> seq k (length options))) w).
Proof.
  induction options as [|o options IH]; intros k w Hev.
  - cbn. by rewrite set_page_same.
  - cbn [option_buttons]. rewrite bind_button_other by (apply Hev; cbn; lia).
    cbn beta iota. rewrite bind_ret, IH by (intros j Hj; apply Hev; cbn; lia).
    cbn. unfold set_page. cbn. by rewrite <- (assoc_L (++)).
Qed.

Lemma next_question_run (w : World) (q : Quiz) :
  quiz w = Some q →
  next_question w = (Raise Rerun, set_quiz (Some (advanced q)) w).
Proof.
  intros Hq. destruct w as [uid qz g log nxt repo pg]. cbn in Hq. subst qz.
  unfold next_question. unfold_script. done.
Qed.

Lemma opened_nil : opened [] = 0.
Proof. done. Qed.

Lemma opened_app l1 l2 : opened (l1 ++ l2) = opened l1 + opened l2.
Proof. unfold opened. rewrite filter_app, length_app. lia. Qed.

Lemma opened_stored_call u q : opened (stored_call u q) = 0.
Proof. unfold stored_call. by destruct (due u q). Qed.

Lemma opened_recorded_call u q i question : opened (recorded_call u q i question) = 0.
Proof. unfold recorded_call. by destruct (truthy u). Qed.

Lemma opened_created_call u q :
  opened (created_call u q) = if truthy u then 1 else 0.
Proof. unfold created_call. by destruct (truthy u). Qed.

Lemma submit_answer_next (i : nat) (question : Question) (w : World) (q : Quiz) :
  quiz w = Some q →
  db_next_session (submit_answer i question w).2 = db_next_session w.
Proof.
  intros Hq. destruct w as [uid qz g log nxt repo pg]. cbn in Hq. subst qz.
  unfold submit_answer. unfold_script. cbn.
  destruct uid as [u|]; cbn; [destruct (bool_decide (u ≠ 0)); cbn|]; done.
Qed.

Lemma repeat_wrong_next (current_round : Z) (wrong : list Question) (w : World) (q : Quiz) :
  quiz w = Some q →
  db_next_session (repeat_wrong current_round wrong w).2
  = db_next_session w + if truthy (user_id w) then 1 else 0.
Proof.
  intros Hq. destruct w as [uid qz g log nxt repo pg]. cbn in Hq. subst qz.
  unfold repeat_wrong, random_shuffle, db_create_session. unfold_script. cbn.
  destruct (shuffle wrong g) as [wrong' g']. cbn.
  destruct uid as [u|]; cbn; [destruct (bool_decide (u ≠ 0)); cbn|]; lia.
Qed.

(** One run of the script is one transition. *)
Lemma run_script_step (ev : Click) (w : World) (q : Quiz) :
  quiz w = Some q →
  ∃ new,
    quiz_step (user_id w) (db_next_session w) q (quiz (run_script ev w).2) new ∧
    db_log (run_script ev w).2 = db_log w ++ new ∧
    user_id (run_script ev w).2 = user_id w ∧
    db_next_session (run_script ev w).2 = db_next_session w + opened new.
Proof.
  intros Hq.
  set (Post := λ w' : World, ∃ new,
    quiz_step (user_id w) (db_next_session w) q (quiz w') new ∧
    db_log w' = db_log w ++ new ∧ user_id w' = user_id w ∧
    db_next_session w' = db_next_session w + opened new).
  change (Post (run_script ev w).2).
  unfold run_script. rewrite Hq.
  destruct (decide (round_over q)) as [Hover|Hin].
  - (* the completion view *)
    rewrite (show_quiz_round_over ev (set_page [] w) q Hq Hover).
    destruct (round_complete_saves ev (set_page [] w) q Hq)
      as (w2 & -> & Hu & Hg & Hn & Hrepo & _ & Hlog & Hq2).
    change (score_due (set_page [] w) q) with (due (user_id w) q) in Hlog, Hq2.
    fold (stored_call (user_id w) q) in Hlog. fold (rendered (user_id w) q) in Hq2.
    cbn in Hu, Hg, Hn, Hlog, Hrepo.
    assert (Hrender : ∀ p, Post (set_page p w2)).
    { intros p. exists (stored_call (user_id w) q). cbn.
      rewrite Hq2, opened_stored_call.
      split_and!; [by apply step_render|done|done|lia]. }
    assert (Hhome : ∀ p, questions q ≠ [] →
              Post ((clicked ← button ev ClickHome home_button;
                     if (clicked : bool) then reset_quiz;; rerun else mret ())
                      (set_page p w2)).2).
    { intros p Hne. destruct (decide (ev = ClickHome)) as [->|Hev].
      - rewrite bind_button_this. cbn.
        exists (stored_call (user_id w) q). rewrite opened_stored_call.
        split_and!; [by apply step_home|done|done|].
        rewrite Z.add_0_r. exact Hn.
      - rewrite bind_button_other by done. cbn. apply Hrender. }
    unfold dividing_by. case_decide as Htotal.
    { apply (Hrender (page w2)). }
    assert (Hne : questions q ≠ []).
    { intros E. rewrite E in Htotal. done. }
    rewrite bind_ret, bind_draw.
    apply (bind_page_only _ _ _ Post _ (page_only_show_accumulated _)).
    { intros p. rewrite set_page_set_page. apply Hrender. }
    intros _ p. rewrite set_page_set_page.
    unfold show_wrong. destruct (wrong_questions q) as [|x l] eqn:Hwrong.
    { by apply Hhome. }
    rewrite <- Hwrong.
    eapply (bind_page_only (λ _, True)).
    { apply page_only_for_each. intros y.
      apply page_only_bind; [apply page_only_py_index|]. intros c.
      by apply draws_page_only, draws_draw. }
    { intros p'. rewrite set_page_set_page. apply Hrender. }
    intros _ p'. rewrite set_page_set_page.
    destruct (decide (ev = ClickRepeat)) as [->|Hev].
    + rewrite bind_button_this. cbn beta iota. unfold mbind at 1, M_bind.
      rewrite set_page_set_page.
      pose proof (repeat_wrong_next (current_round q) (wrong_questions q)
                    (set_page (page (set_page p' w2) ++ [repeat_button]) w2)
                    (rendered (user_id w) q) Hq2) as Hnext.
      destruct (repeat_wrong_run (current_round q) (wrong_questions q)
                  (set_page (page (set_page p' w2) ++ [repeat_button]) w2)
                  (rendered (user_id w) q) Hq2)
        as (w' & Hrun & _ & Hu' & Hlog' & Hq').
      rewrite Hrun in Hnext |- *.
      cbn in Hu', Hlog', Hq', Hnext. cbn [snd]. rewrite Hu in Hnext.
      exists (stored_call (user_id w) q ++ created_call (user_id w) q).
      rewrite Hq', Hlog', Hlog, Hu', Hu, Hnext, Hn, Hg.
      rewrite opened_app, opened_stored_call, opened_created_call.
      unfold created_call.
      rewrite <- (assoc_L (++)).
      split_and!; [|done|done|destruct (truthy (user_id w)); lia].
      apply (step_repeat _ _ _ (shuffle (wrong_questions q) (random w)).1);
        [done|done|by rewrite Hwrong|apply shuffle_Permutation].
    + rewrite bind_button_other by done. cbn beta iota. rewrite bind_ret.
      by apply Hhome.
  - (* a question is on the page *)
    unfold round_over in Hin.
    destruct (lookup_lt_is_Some_2 (questions q) (current_index q)) as [question Hlook];
      [lia|].
    assert (Hsame : ∀ p, Post (set_page p w)).
    { intros p. exists []. rewrite app_nil_r. cbn. rewrite Hq.
      split_and!; [by apply step_idle|done|done|by rewrite opened_nil, Z.add_0_r]. }
    assert (Habandon : ∀ p,
              Post ((clicked ← button ev ClickAbandon abandon_button;
                     if (clicked : bool) then reset_quiz;; rerun else mret ())
                      (set_page p w)).2).
    { intros p. destruct (decide (ev = ClickAbandon)) as [->|Hev].
      - rewrite bind_button_this. cbn. exists []. rewrite app_nil_r.
        split_and!; [by apply step_abandon|done|done|by rewrite opened_nil, Z.add_0_r].
      - rewrite bind_button_other by done. cbn. apply Hsame. }
    unfold show_quiz, get_quiz. unfold mbind at 1, M_bind. cbn. rewrite Hq.
    rewrite decide_False by lia.
    unfold present_question, get_quiz. unfold mbind at 1, M_bind. cbn.
    rewrite Hq, Hlook. destruct (answered q) eqn:Hans; cbn [negb].
    + (* the feedback *)
      unfold mbind at 1, M_bind. rewrite bind_draw.
      destruct (decide (ev = ClickNext)) as [->|Hev].
      * rewrite bind_button_this. cbn beta iota.
        rewrite next_question_run with (q := q) by exact Hq. cbn.
        exists []. rewrite app_nil_r.
        split_and!; [apply step_next; [lia|done]|done|done|by rewrite opened_nil, Z.add_0_r].
      * rewrite bind_button_other by done. cbn beta iota. unfold mret, M_ret.
        apply Habandon.
    + (* the options *)
      unfold mbind at 1, M_bind.
      assert (Hcase : (∃ i, ev = ClickOption i ∧ (i < length (q_options question))%nat)
                      ∨ ∀ j, (j < length (q_options question))%nat → ev ≠ ClickOption j).
      { destruct ev as [|i| | | |]; try (right; by intros j _).
        destruct (decide (i < length (q_options question))%nat); [left; eauto|].
        right. intros j Hj [= ->]. done. }
      destruct Hcase as [(i & -> & Hi)|Hno].
      * destruct (option_buttons_click question i (q_options question) 0%nat
                    (set_page [] w) q Hq ltac:(lia)) as [p ->].
        rewrite set_page_set_page.
        pose proof (submit_answer_next i question (set_page p w) q Hq) as Hnext.
        destruct (submit_answer_run i question (set_page p w) q Hq)
          as (w' & Hrun & Hq' & Hu' & _ & Hlog').
        rewrite Hrun in Hnext |- *.
        cbn in Hu', Hlog', Hnext. cbn [snd].
        exists (recorded_call (user_id w) q i question).
        rewrite Hq', Hlog', Hu', Hnext, opened_recorded_call.
        split_and!; [by apply step_submit|done|done|lia].
      * rewrite option_buttons_pass.
        2:{ intros j Hj. apply Hno. lia. }
        apply Habandon.
Qed.

(** Every sequence of clicks is a path of transitions. *)
Section paths.
Variable u : option Z.
Variable next : Z.
Variable base : list DbCall.
Variable J : option Quiz → list DbCall → Prop.
Hypothesis J_step :
  ∀ q oq' log new,
    J (Some q) log → quiz_step u (next + opened log) q oq' new → J oq' (log ++ new).

Lemma run_script_tracks ev w :
  tracks u next base J w → tracks u next base J (run_script ev w).2.
Proof.
  intros (Hu & log & Hlog & Hnext & HJ). destruct (quiz w) as [q|] eqn:Hq.
  - destruct (run_script_step ev w q Hq) as (new & Hstep & Hlog' & Hu' & Hnext').
    split; [by rewrite Hu'|]. exists (log ++ new). split_and!.
    + by rewrite Hlog', Hlog, (assoc_L (++)).
    + rewrite Hnext', Hnext, opened_app. lia.
    + eapply J_step; [done|]. by rewrite <- Hu, <- Hnext.
  - unfold run_script. rewrite Hq. cbn. split; [done|]. exists log. by rewrite Hq.
Qed.

Lemma interact_tracks ev w :
  tracks u next base J w → tracks u next base J (interact ev w).
Proof.
  intros Hw. unfold interact.
  pose proof (run_script_tracks ev w Hw) as H1.
  destruct (run_script ev w) as [[?|[]|] w1]; try done.
  by apply run_script_tracks.
Qed.

Lemma run_clicks_tracks evs :
  ∀ w, tracks u next base J w → tracks u next base J (run_clicks evs w).
Proof.
  unfold run_clicks. induction evs as [|ev evs IH]; intros w Hw; [done|].
  cbn. by apply IH, interact_tracks.
Qed.
End paths.

(** ** What the flow keeps *)

Lemma fresh_flow_inv q : fresh_quiz q → questions q ≠ [] → flow_inv (questions q) q.
Proof.
  intros (Hi & Ha & Hs & Hw & Hh & Hr) Hne. unfold flow_inv, answered_count.
  rewrite Hi, Ha, Hs, Hw, Hh, Hr. cbn.
  split_and!; try done; try lia; left; lia.
Qed.

Lemma flow_inv_over qs0 q :
  flow_inv qs0 q → round_over q →
  current_index q = length (questions q) ∧ answered q = false ∧
  score q + Z.of_nat (length (wrong_questions q)) = Z.of_nat (length (questions q)).
Proof.
  unfold flow_inv, answered_count, round_over.
  intros (_ & _ & Hc & _ & _ & Hs & _) Hover.
  destruct (answered q); split_and!; try done; lia.
Qed.

(** The history once the finished round is in it. *)
Lemma history_after_inv qs0 q :
  flow_inv qs0 q → round_over q →
  r_round <$> history_after q = Z.of_nat <$> seq 1 (length (history_after q)) ∧
  Z.of_nat (length (history_after q)) = current_round q ∧
  Forall entry_ok (history_after q).
Proof.
  intros Hinv Hover. destruct (flow_inv_over _ _ Hinv Hover) as (_ & _ & Hsum).
  destruct Hinv as (Hne & _ & _ & _ & Hs & _ & Hnum & Hlen & Hall).
  unfold history_after. case_decide as Hlt.
  - destruct Hlen as [Hlen|[Hlen _]]; [|lia].
    rewrite fmap_app, length_app, Hnum. cbn.
    rewrite Nat.add_1_r, seq_S, fmap_app. cbn.
    split_and!; [f_equal; f_equal; lia|lia|].
    apply Forall_app. split; [done|]. apply Forall_singleton.
    split_and!; cbn; [done|done|]. destruct (questions q); [done|cbn; lia].
  - destruct Hlen as [Hlen|[Hlen _]]; [lia|]. by split_and!.
Qed.

Lemma flow_inv_step u next qs0 q oq' new :
  (∀ q0, Some q = Some q0 → flow_inv qs0 q0) →
  quiz_step u next q oq' new →
  ∀ q', oq' = Some q' → flow_inv qs0 q'.
Proof.
  intros Hinv Hstep q' Hq'. specialize (Hinv q eq_refl).
  destruct Hstep as [Hin|i question Hlook Hans Hi|Hlt Hans|Hin|Hover
                     |qs Hover Hne Hw Hqs|Hover Hne];
    simplify_eq.
  - done.
  - (* an answer *)
    pose proof (lookup_lt_Some _ _ _ Hlook) as Hlt.
    destruct Hinv as (Hne & Hsub & Hc & Hwrong & Hs & Hsum & Hnum & Hlen & Hall).
    unfold flow_inv, answered_count, round_over in *. cbn. rewrite Hans in *.
    rewrite Nat.add_0_r in *. rewrite Nat.add_1_r.
    rewrite (take_S_r _ _ _ Hlook).
    split_and!; try done; try lia;
      destruct (bool_decide (Z.of_nat i = q_answer_index question)).
    + by apply sublist_inserts_r.
    + by apply sublist_app.
    + lia.
    + lia.
    + lia.
    + rewrite length_app. cbn. lia.
  - (* the next question *)
    destruct Hinv as (Hne & Hsub & Hc & Hwrong & Hs & Hsum & Hnum & Hlen & Hall).
    unfold flow_inv, answered_count, round_over in *. cbn. rewrite Hans in *.
    rewrite Nat.add_1_r, Nat.add_0_r in *.
    split_and!; try done. destruct Hlen as [?|[_ ?]]; [by left|lia].
  - (* the completion view *)
    destruct (history_after_inv _ _ Hinv Hover) as (Hnum' & Hlen' & Hall').
    destruct Hinv as (Hne & Hsub & Hc & Hwrong & Hs & Hsum & Hnum & Hlen & Hall).
    unfold flow_inv, answered_count in *. cbn.
    split_and!; try done. by right.
  - (* the repeat round *)
    destruct (history_after_inv _ _ Hinv Hover) as (Hnum' & Hlen' & Hall').
    destruct Hinv as (_ & Hsub & Hc & Hwrong & Hs & Hsum & Hnum & Hlen & Hall).
    unfold flow_inv, answered_count. cbn.
    split_and!; try done; try lia.
    + intros ->. by apply Permutation_nil_l in Hqs.
    + rewrite Hqs. etransitivity; [|exact Hsub].
      etransitivity; [by apply sublist_submseteq|].
      apply sublist_submseteq, sublist_take.
Qed.

Lemma tally_inv_step u next q oq' new :
  tally_inv q → quiz_step u next q oq' new →
  ∀ q', oq' = Some q' → tally_inv q'.
Proof.
  intros (Hc & Hwrong & Hs & Hsum) Hstep q' Hq'.
  destruct Hstep as [Hin|i question Hlook Hans Hi|Hlt Hans|Hin|Hover
                     |qs Hover Hne Hw Hqs|Hover Hne];
    simplify_eq.
  - done.
  - pose proof (lookup_lt_Some _ _ _ Hlook) as Hlt.
    unfold tally_inv, answered_count in *. cbn. rewrite Hans in *.
    rewrite Nat.add_0_r in *. rewrite Nat.add_1_r.
    rewrite (take_S_r _ _ _ Hlook).
    split_and!; try lia;
      destruct (bool_decide (Z.of_nat i = q_answer_index question)).
    + by apply sublist_inserts_r.
    + by apply sublist_app.
    + lia.
    + lia.
    + lia.
    + rewrite length_app. cbn. lia.
  - unfold tally_inv, answered_count in *. cbn. rewrite Hans in *.
    rewrite Nat.add_1_r, Nat.add_0_r in *. by split_and!.
  - done.
  - unfold tally_inv, answered_count. cbn. split_and!; try done; lia.
Qed.

Lemma tally_inv_over q :
  tally_inv q → round_over q →
  score q + Z.of_nat (length (wrong_questions q)) = Z.of_nat (length (questions q)).
Proof.
  unfold tally_inv, answered_count, round_over. intros (Hc & _ & _ & Hs) Hover.
  destruct (answered q); lia.
Qed.

Lemma history_after_length q :
  history_inv q → Z.of_nat (length (history_after q)) = current_round q.
Proof.
  intros Hh. unfold history_after. case_decide as Hlt.
  - destruct Hh as [Hh|[Hh _]]; [|lia]. rewrite length_app. cbn. lia.
  - destruct Hh as [Hh|[Hh _]]; [lia|done].
Qed.

Lemma history_inv_step u next q oq' new :
  history_inv q → quiz_step u next q oq' new →
  ∀ q', oq' = Some q' → history_inv q'.
Proof.
  intros Hh Hstep q' Hq'. pose proof (history_after_length q Hh) as Hlen.
  destruct Hstep as [Hin|i question Hlook Hans Hi|Hlt Hans|Hin|Hover
                     |qs Hover Hne Hw Hqs|Hover Hne];
    simplify_eq.
  - done.
  - done.
  - unfold history_inv, round_over in *. cbn.
    destruct Hh as [Hh|[_ Hh]]; [by left|lia].
  - right. by split.
  - left. cbn. lia.
Qed.

Lemma run_clicks_flow_inv (w : World) (q0 : Quiz) (evs : list Click) :
  quiz w = Some q0 → fresh_quiz q0 → questions q0 ≠ [] →
  ∀ q, quiz (run_clicks evs w) = Some q → flow_inv (questions q0) q.
Proof.
  intros Hq Hfresh Hne.
  destruct (run_clicks_tracks (user_id w) (db_next_session w) (db_log w)
              (λ oq _, ∀ q, oq = Some q → flow_inv (questions q0) q)) with (evs := evs) (w := w)
    as (_ & log & _ & _ & HJ).
  - intros q oq' log new HJ Hstep. by eapply flow_inv_step.
  - split; [done|]. exists []. rewrite app_nil_r.
    split_and!; [done|by rewrite opened_nil, Z.add_0_r|].
    rewrite Hq. intros ? [= <-]. by apply fresh_flow_inv.
  - done.
Qed.

Lemma answers_inv_step u next q oq' log new :
  truthy u = true → answers_inv q log → quiz_step u next q oq' new →
  ∀ q', oq' = Some q' → answers_inv q' (log ++ new).
Proof.
  intros Hu [Hids Hscore] Hstep q' Hq'.
  unfold answers_inv, answers_since in *. rewrite foldl_app.
  destruct Hstep as [Hin|i question Hlook Hans Hi|Hlt Hans|Hin|Hover
                     |qs Hover Hne Hw Hqs|Hover Hne];
    simplify_eq.
  - done.
  - unfold recorded_call, answered_count in *. rewrite Hu. cbn. rewrite Hans in *.
    rewrite Nat.add_0_r in Hids. rewrite Nat.add_1_r, (take_S_r _ _ _ Hlook).
    rewrite !fmap_app, Hids. split; [done|].
    rewrite filter_app, length_app, Nat2Z.inj_add, Hscore.
    destruct (bool_decide (Z.of_nat i = q_answer_index question)).
    + by rewrite filter_cons_True.
    + rewrite filter_cons_False by done. cbn. lia.
  - unfold answered_count in *. cbn. rewrite Hans in *.
    by rewrite Nat.add_1_r, Nat.add_0_r in *.
  - unfold stored_call. by destruct (due u q).
  - unfold stored_call, created_call, answered_count. rewrite Hu, foldl_app. cbn.
    by rewrite take_0.
Qed.

Lemma home_ends ev w :
  ends_well ((clicked ← button ev ClickHome home_button;
              if (clicked : bool) then reset_quiz;; rerun else mret ()) w).1.
Proof.
  destruct (decide (ev = ClickHome)) as [->|Hev].
  - rewrite bind_button_this. by right.
  - rewrite bind_button_other by done. by left.
Qed.

Lemma show_wrong_ends ev current_round wrong w q :
  quiz w = Some q → Forall answer_in_range wrong →
  ends_well (show_wrong ev current_round wrong w).1.
Proof.
  intros Hq Hvalid. unfold show_wrong. destruct wrong as [|x l] eqn:E.
  { apply home_ends. }
  rewrite <- E in *.
  destruct (bind_draws (λ _, True) _
    (λ _, clicked ← button ev ClickRepeat repeat_button;
          (if (clicked : bool) then repeat_wrong current_round wrong else mret ());;
          clicked ← button ev ClickHome home_button;
          if (clicked : bool) then reset_quiz;; rerun else mret ())
    w (draws_wrong_expanders (λ _, True) wrong (λ _ _, I) Hvalid)) as (ws & _ & ->).
  destruct (decide (ev = ClickRepeat)) as [->|Hev].
  - rewrite bind_button_this. cbn beta iota. unfold mbind at 1, M_bind.
    destruct (repeat_wrong_run current_round wrong
                (set_page (page (set_page (page w ++ ws) w) ++ [repeat_button])
                          (set_page (page w ++ ws) w)) q Hq) as (w' & -> & _).
    by right.
  - rewrite bind_button_other by done. cbn beta iota. rewrite bind_ret.
    apply home_ends.
Qed.

(** A run of the script on a quiz whose completion view can be drawn
    raises nothing. *)
Lemma run_script_ends (ev : Click) (w : World) (q : Quiz) :
  quiz w = Some q → (round_over q → drawable q) →
  ends_well (run_script ev w).1.
Proof.
  intros Hq Hdraw. unfold run_script. rewrite Hq.
  destruct (decide (round_over q)) as [Hover|Hin].
  - destruct (Hdraw Hover) as (Hne & Hpos & Hvalid).
    rewrite (show_quiz_round_over ev (set_page [] w) q Hq Hover).
    destruct (round_complete_header ev (set_page [] w) q Hq Hne Hpos)
      as (w3 & ws & -> & _ & _ & _ & _ & _ & _ & _ & q3 & Hq3 & _).
    by eapply show_wrong_ends.
  - unfold round_over in Hin.
    destruct (lookup_lt_is_Some_2 (questions q) (current_index q)) as [question Hlook];
      [lia|].
    assert (Habandon : ∀ w0,
              ends_well ((clicked ← button ev ClickAbandon abandon_button;
                          if (clicked : bool) then reset_quiz;; rerun else mret ())
                           w0).1).
    { intros w0. destruct (decide (ev = ClickAbandon)) as [->|Hev].
      - rewrite bind_button_this. by right.
      - rewrite bind_button_other by done. by left. }
    unfold show_quiz, get_quiz. unfold mbind at 1, M_bind. cbn. rewrite Hq.
    rewrite decide_False by lia.
    unfold present_question, get_quiz. unfold mbind at 1, M_bind. cbn.
    rewrite Hq, Hlook. destruct (answered q) eqn:Hans; cbn [negb].
    + unfold mbind at 1, M_bind. rewrite bind_draw.
      destruct (decide (ev = ClickNext)) as [->|Hev].
      * rewrite bind_button_this. cbn beta iota.
        rewrite next_question_run with (q := q) by exact Hq. by right.
      * rewrite bind_button_other by done. cbn beta iota. unfold mret, M_ret.
        apply Habandon.
    + unfold mbind at 1, M_bind.
      assert (Hcase : (∃ i, ev = ClickOption i ∧ (i < length (q_options question))%nat)
                      ∨ ∀ j, (j < length (q_options question))%nat → ev ≠ ClickOption j).
      { destruct ev as [|i| | | |]; try (right; by intros j _).
        destruct (decide (i < length (q_options question))%nat); [left; eauto|].
        right. intros j Hj [= ->]. done. }
      destruct Hcase as [(i & -> & Hi)|Hno].
      * destruct (option_buttons_click question i (q_options question) 0%nat
                    (set_page [] w) q Hq ltac:(lia)) as [p ->].
        destruct (submit_answer_run i question (set_page p (set_page [] w)) q Hq)
          as (w' & -> & _). by right.
      * rewrite option_buttons_pass.
        2:{ intros j Hj. apply Hno. lia. }
        apply Habandon.
Qed.

Lemma flow_inv_drawable qs0 q :
  Forall answer_in_range qs0 → flow_inv qs0 q → drawable q.
Proof.
  intros Hvalid (Hne & Hsub & _ & Hwrong & _ & _ & _ & _ & Hall).
  split_and!; [done| |].
  - eapply Forall_impl; [exact Hall|]. by intros r (_ & _ & ?).
  - apply Forall_forall. intros x Hx.
    rewrite Forall_forall in Hvalid. apply Hvalid.
    eapply elem_of_submseteq; [|exact Hsub].
    pose proof (elem_of_sublist _ _ _ Hx Hwrong) as Hx'.
    by apply elem_of_take in Hx' as (? & ?%list_elem_of_lookup_2 & _).
Qed.

(** ** The quiz from its start *)

(** X4: in a quiz that was started at its first question with
    score 0 and no failures, after any sequence of clicks the score is
    not negative, the score and the number of failed questions add up to
    the number of questions answered in the round, and the failed
    questions are among the answered ones, in the order in which they
    were asked; at the end of a round they add up to the number of
    questions. *)
Theorem quiz_flow_score_bookkeeping (w : World) (q0 : Quiz) (evs : list Click) :
  quiz w = Some q0 → fresh_quiz q0 →
  ∀ q, quiz (run_clicks evs w) = Some q →
    0 ≤ score q ∧
    score q + Z.of_nat (length (wrong_questions q)) = Z.of_nat (answered_count q) ∧
    (answered_count q ≤ length (questions q))%nat ∧
    wrong_questions q `sublist_of` take (answered_count q) (questions q) ∧
    (round_over q →
     score q + Z.of_nat (length (wrong_questions q))
     = Z.of_nat (length (questions q))).
Proof.
  intros Hq (Hi & Ha & Hs & Hw & _) q Hq'.
  destruct (run_clicks_tracks (user_id w) (db_next_session w) (db_log w)
              (λ oq _, ∀ q, oq = Some q → tally_inv q)) with (evs := evs) (w := w)
    as (_ & log & _ & _ & HJ).
  - intros q1 oq' log new HJ Hstep. eapply tally_inv_step; [|done]. by apply HJ.
  - split; [done|]. exists []. rewrite app_nil_r.
    split_and!; [done|by rewrite opened_nil, Z.add_0_r|].
    rewrite Hq. intros ? [= <-]. unfold tally_inv, answered_count.
    rewrite Hi, Ha, Hs, Hw. cbn. split_and!; try done; lia.
  - pose proof (HJ q Hq') as Hinv. pose proof Hinv as (Hc & Hsub & Hpos & Hsum).
    split_and!; [done..|]. intros Hover. by apply tally_inv_over.
Qed.

(** X5: in a quiz that was started afresh, after any sequence of
    clicks the round asks at least one question and only questions of
    the first round, each no more often than the first round held it,
    and the failed questions are among those of the round; a first round
    without duplicates gives rounds and wrong lists without
    duplicates. *)
Theorem quiz_flow_rounds_shrink (w : World) (q0 : Quiz) (evs : list Click) :
  quiz w = Some q0 → fresh_quiz q0 → questions q0 ≠ [] →
  ∀ q, quiz (run_clicks evs w) = Some q →
    questions q ≠ [] ∧ questions q ⊆+ questions q0 ∧
    wrong_questions q ⊆+ questions q ∧
    (NoDup (questions q0) → NoDup (questions q) ∧ NoDup (wrong_questions q)).
Proof.
  intros Hq Hfresh Hne q Hq'.
  destruct (run_clicks_flow_inv w q0 evs Hq Hfresh Hne q Hq')
    as (Hne' & Hsub & _ & Hwrong & _).
  assert (Hw : wrong_questions q ⊆+ questions q).
  { etransitivity; [by apply sublist_submseteq|].
    apply sublist_submseteq, sublist_take. }
  split_and!; [done..|]. intros Hnd.
  assert (Hq0 : NoDup (questions q)).
  { apply submseteq_Permutation in Hsub as [k Hk]. rewrite Hk in Hnd.
    by apply NoDup_app in Hnd as [? _]. }
  split; [done|].
  apply submseteq_Permutation in Hw as [k Hk]. rewrite Hk in Hq0.
  by apply NoDup_app in Hq0 as [? _].
Qed.

Lemma entries_total l :
  Forall entry_ok l →
  0 ≤ total_of (r_score <$> l) ≤ total_of (r_total <$> l).
Proof.
  unfold total_of.
  induction 1 as [|r l (Hs & Hsum & Ht) _ IH]; cbn in *; lia.
Qed.

(** X6: in a quiz that was started afresh, after any sequence of
    clicks the history holds the finished rounds once each, numbered 1,
    2, ... in order: as many as the rounds before the current one, and
    the current one as well once its completion view has been drawn;
    every entry has a positive total, a score that is not negative and,
    with its failures, adds up to the total, so the accumulated score
    lies between 0 and the accumulated total. *)
Theorem quiz_flow_history (w : World) (q0 : Quiz) (evs : list Click) :
  quiz w = Some q0 → fresh_quiz q0 → questions q0 ≠ [] →
  ∀ q, quiz (run_clicks evs w) = Some q →
    r_round <$> round_history q = Z.of_nat <$> seq 1 (length (round_history q)) ∧
    (Z.of_nat (length (round_history q)) = current_round q - 1 ∨
     (Z.of_nat (length (round_history q)) = current_round q ∧ round_over q)) ∧
    Forall entry_ok (round_history q) ∧
    0 ≤ total_of (r_score <$> round_history q)
      ≤ total_of (r_total <$> round_history q).
Proof.
  intros Hq Hfresh Hne q Hq'.
  destruct (run_clicks_flow_inv w q0 evs Hq Hfresh Hne q Hq')
    as (_ & _ & _ & _ & _ & _ & Hnum & Hlen & Hall).
  split_and!; [done..|by apply entries_total|by apply entries_total].
Qed.

(** X7: in a quiz that was started afresh over questions whose
    [answer_index] names one of their options, no run of the script
    fails, whatever has been clicked before and whatever is clicked now:
    it ends normally or in a rerun. *)
Theorem quiz_flow_never_raises (w : World) (q0 : Quiz) (evs : list Click) (ev : Click) :
  quiz w = Some q0 → fresh_quiz q0 → questions q0 ≠ [] →
  Forall answer_in_range (questions q0) →
  ends_well (run_script ev (run_clicks evs w)).1.
Proof.
  intros Hq Hfresh Hne Hvalid.
  destruct (quiz (run_clicks evs w)) as [q|] eqn:Hq'.
  - eapply run_script_ends; [done|]. intros _.
    eapply flow_inv_drawable; [done|]. by eapply run_clicks_flow_inv.
  - unfold run_script. rewrite Hq'. by left.
Qed.

(** X8: for a logged-in user and a quiz that was started afresh,
    after any sequence of clicks the answers recorded since the session
    record of the round was opened are the answers of the round: one
    [record_answer] for each question answered so far, in the order of
    the questions, and as many of them correct as the score says. *)
Theorem quiz_flow_answers_recorded (w : World) (q0 : Quiz) (evs : list Click) :
  quiz w = Some q0 → fresh_quiz q0 → truthy (user_id w) = true →
  ∃ new,
    db_log (run_clicks evs w) = db_log w ++ new ∧
    ∀ q, quiz (run_clicks evs w) = Some q →
      (answers_since new).*1 = q_id <$> take (answered_count q) (questions q) ∧
      Z.of_nat (length (filter (λ a, a.2 = true) (answers_since new))) = score q.
Proof.
  intros Hq (Hi & Ha & Hs & _) Hu.
  destruct (run_clicks_tracks (user_id w) (db_next_session w) (db_log w)
              (λ oq log, ∀ q, oq = Some q → answers_inv q log)) with (evs := evs) (w := w)
    as (_ & log & Hlog & _ & HJ).
  - intros q oq' log new HJ Hstep. eapply answers_inv_step; [done| |done].
    by apply HJ.
  - split; [done|]. exists []. rewrite app_nil_r.
    split_and!; [done|by rewrite opened_nil, Z.add_0_r|].
    rewrite Hq. intros ? [= <-]. unfold answers_inv, answered_count.
    by rewrite Hi, Ha, Hs.
  - exists log. split; [done|]. intros q Hq'. by apply HJ.
Qed.

(** ** Single transitions *)

(** The completion view, drawn without a click, leaves the quiz as
    [rendered]. *)
Lemma completion_rerender (w : World) (q : Quiz) :
  quiz w = Some q → round_over q →
  quiz (run_script NoClick w).2 = Some (rendered (user_id w) q) ∧
  db_log (run_script NoClick w).2 = db_log w ++ stored_call (user_id w) q.
Proof.
  intros Hq Hover. unfold run_script. rewrite Hq.
  rewrite (show_quiz_round_over NoClick (set_page [] w) q Hq Hover).
  destruct (round_complete_saves NoClick (set_page [] w) q Hq)
    as (w2 & -> & _ & _ & _ & _ & _ & Hlog & Hq2).
  destruct (page_only_completion_view NoClick q ltac:(done) ltac:(done) w2)
    as (r & ws & _ & ->).
  done.
Qed.

(** X9: a click on "Siguiente pregunta" at an answered question
    moves the index on by one, clears the answer, keeps the score, the
    wrong list and the history, makes no call and reruns; the rerun
    shows the option buttons of the next question, or, after the last
    question, the completion view, which stores the round in the history
    and the score in the session record when that is due. *)
Theorem next_question_transition (w : World) (q : Quiz) :
  quiz w = Some q →
  (current_index q < length (questions q))%nat → answered q = true →
  ∃ w',
    run_script ClickNext w = (Raise Rerun, w') ∧
    quiz w' = Some (advanced q) ∧ db_log w' = db_log w ∧
    (∀ question, questions q !! S (current_index q) = Some question →
       quiz (interact ClickNext w) = Some (advanced q) ∧
       db_log (interact ClickNext w) = db_log w ∧
       page (interact ClickNext w)
       = (option_button <$> seq 0 (length (q_options question)))
         ++ [abandon_button]) ∧
    (S (current_index q) = length (questions q) →
       quiz (interact ClickNext w) = Some (rendered (user_id w) (advanced q)) ∧
       round_history (rendered (user_id w) (advanced q)) = history_after q ∧
       db_log (interact ClickNext w) = db_log w ++ stored_call (user_id w) q).
Proof.
  intros Hq Hlt Hans.
  destruct (lookup_lt_is_Some_2 (questions q) (current_index q) Hlt) as [x Hx].
  assert (Hrun : ∃ p, run_script ClickNext w
                      = (Raise Rerun, set_quiz (Some (advanced q)) (set_page p w))).
  { unfold run_script. rewrite Hq.
    unfold show_quiz, get_quiz. unfold mbind at 1, M_bind. cbn. rewrite Hq.
    rewrite decide_False by lia.
    unfold present_question, get_quiz. unfold mbind at 1, M_bind. cbn.
    rewrite Hq, Hx, Hans. cbn [negb].
    unfold mbind at 1, M_bind. rewrite bind_draw, bind_button_this. cbn beta iota.
    rewrite next_question_run with (q := q) by exact Hq. cbn. eauto. }
  destruct Hrun as [p Hrun]. eexists. split; [exact Hrun|].
  split; [done|]. split; [done|]. unfold interact. rewrite Hrun. split.
  - intros question Hlook.
    assert (Hlt' : (S (current_index q) < length (questions q))%nat)
      by by eapply lookup_lt_Some.
    assert (Hshow : run_script NoClick (set_quiz (Some (advanced q)) (set_page p w))
              = (Ok (), set_page ((option_button <$> seq 0 (length (q_options question)))
                                  ++ [abandon_button])
                                 (set_quiz (Some (advanced q)) (set_page p w)))).
    { unfold run_script. cbn [quiz set_quiz].
      unfold show_quiz, get_quiz. unfold mbind at 1, M_bind. cbn.
      rewrite decide_False by lia.
      unfold present_question, get_quiz. unfold mbind at 1, M_bind. cbn.
      rewrite Hlook. unfold mbind at 1, M_bind.
      rewrite option_buttons_pass by done.
      by rewrite bind_button_other by done. }
    by rewrite Hshow.
  - intros Hlast.
    assert (Hover : round_over (advanced q)) by (unfold round_over; cbn; lia).
    destruct (completion_rerender (set_quiz (Some (advanced q)) (set_page p w))
                (advanced q) eq_refl Hover) as [Hq' Hlog'].
    split; [exact Hq'|]. split; [done|]. exact Hlog'.
Qed.

(** X10: "Abandonar test" during a round and "Volver al inicio" at
    the end of a round that can be drawn delete the quiz and rerun;
    abandoning makes no call, going home stores the score first when
    that is due; afterwards no click changes anything. *)
Theorem leaving_the_quiz (w : World) (q : Quiz) :
  quiz w = Some q →
  (¬ round_over q →
   ∃ w', run_script ClickAbandon w = (Raise Rerun, w') ∧
         quiz w' = None ∧ db_log w' = db_log w ∧
         ∀ evs, run_clicks evs w' = w') ∧
  (round_over q → drawable q →
   ∃ w', run_script ClickHome w = (Raise Rerun, w') ∧
         quiz w' = None ∧
         db_log w' = db_log w ++ stored_call (user_id w) q ∧
         ∀ evs, run_clicks evs w' = w').
Proof.
  intros Hq.
  assert (Hgone : ∀ w', quiz w' = None → ∀ evs, run_clicks evs w' = w').
  { intros w' Hnone evs. unfold run_clicks.
    induction evs as [|ev evs IH]; [done|]. cbn.
    unfold interact, run_script. by rewrite Hnone. }
  split.
  - intros Hin. unfold round_over in Hin.
    destruct (lookup_lt_is_Some_2 (questions q) (current_index q)) as [x Hx]; [lia|].
    unfold run_script. rewrite Hq.
    unfold show_quiz, get_quiz. unfold mbind at 1, M_bind. cbn. rewrite Hq.
    rewrite decide_False by lia.
    unfold present_question, get_quiz. unfold mbind at 1, M_bind. cbn.
    rewrite Hq, Hx. destruct (answered q); cbn [negb]; unfold mbind at 1, M_bind.
    + rewrite bind_draw, bind_button_other by done. cbn beta iota.
      unfold mret at 1, M_ret at 1. rewrite bind_button_this. cbn.
      eexists. split; [done|]. split_and!; [done|done|]. by apply Hgone.
    + rewrite option_buttons_pass by done. rewrite bind_button_this. cbn.
      eexists. split; [done|]. split_and!; [done|done|]. by apply Hgone.
  - intros Hover (Hne & Hpos & Hvalid).
    unfold run_script. rewrite Hq.
    rewrite (show_quiz_round_over ClickHome (set_page [] w) q Hq Hover).
    destruct (round_complete_header ClickHome (set_page [] w) q Hq Hne Hpos)
      as (w3 & ws & -> & _ & _ & _ & _ & _ & _ & Hlog & _).
    change (score_due (set_page [] w) q) with (due (user_id w) q) in Hlog.
    fold (stored_call (user_id w) q) in Hlog. cbn in Hlog.
    unfold show_wrong. destruct (wrong_questions q) as [|y l] eqn:E.
    + rewrite bind_button_this. cbn.
      eexists. split; [done|]. split_and!; [done|done|]. by apply Hgone.
    + rewrite <- E in *.
      destruct (bind_draws (λ _, True) _
        (λ _, clicked ← button ClickHome ClickRepeat repeat_button;
              (if (clicked : bool)
               then repeat_wrong (current_round q) (wrong_questions q) else mret ());;
              clicked ← button ClickHome ClickHome home_button;
              if (clicked : bool) then reset_quiz;; rerun else mret ())
        w3 (draws_wrong_expanders (λ _, True) (wrong_questions q) (λ _ _, I) Hvalid))
        as (ws' & _ & ->).
      rewrite bind_button_other by done. cbn beta iota.
      rewrite bind_ret, bind_button_this. cbn.
      eexists. split; [done|]. split_and!; [done|done|]. by apply Hgone.
Qed.

(** ** Starting a test *)

(** The selector always answers, with questions of the filtered pool,
    as many as asked for when there are that many. *)
Lemma select_balanced_questions_length
    (questions : list Question) (selected_tags : list string) (num_questions : Z)
    (question_stats : option (gmap Z AnswerStat)) (g : Rng) :
  let filtered := filter (λ q, q_tag q ∈ selected_tags) questions in
  ∃ res,
    (select_balanced_questions questions selected_tags num_questions
                               question_stats g).1 = Ok res ∧
    res ⊆+ filtered ∧
    Z.of_nat (length res)
    = Z.max 0 (Z.min num_questions (Z.of_nat (length filtered))).
Proof.
  intros filtered.
  destruct (decide (filtered = [])) as [Hnil|Hne].
  { exists []. split; [by apply select_balanced_questions_empty|].
    rewrite Hnil. split; [done|]. cbn [length]. lia. }
  destruct (decide (Z.of_nat (length filtered) ≤ num_questions)) as [Hall|Hfew].
  { destruct (select_balanced_questions_all questions selected_tags num_questions
                question_stats g Hne Hall) as (res & Hres & Hperm).
    exists res. split; [done|]. split; [by apply Permutation_submseteq|].
    rewrite Hperm. unfold filtered in *. lia. }
  unfold select_balanced_questions. fold filtered.
  rewrite decide_False by done. rewrite decide_False by done.
  pose proof (group_by_tag_grouped filtered) as Hg.
  pose proof (order_groups_keys question_stats (group_by_tag filtered) g) as Hk.
  pose proof (order_groups_concat question_stats (group_by_tag filtered) g) as Hc.
  destruct (order_groups question_stats (group_by_tag filtered) g) as [d g1].
  cbn [fst] in Hk, Hc. destruct Hg as (Hnd & Hperm & Hall).
  assert (Hlen : length (concat d.*2) = length filtered) by by rewrite Hc, Hperm.
  destruct (round_robin_spec (length filtered + length d.*1) num_questions []
              d.*1 0%nat d) as (sel & rest & -> & Hsel & Hl).
  - rewrite Hk. by eapply grouped_keys_nonempty.
  - by rewrite Hk.
  - done.
  - intros t qs Hin Hnin. destruct Hnin.
    apply list_elem_of_fmap. by exists (t, qs).
  - lia.
  - pose proof (shuffle_Permutation sel g1) as Hs.
    destruct (shuffle sel g1) as [l g2]. cbn in *. exists l.
    split_and!; [done| |].
    + rewrite Hs, <- Hperm, <- Hc, <- Hsel. by apply submseteq_inserts_r.
    + rewrite Hs, Hl, Hlen. lia.
Qed.

(** X11: when statistics are given, the questions the selector
    takes of a tag are the hardest of that tag: a question of the
    filtered pool that is left out has a difficulty score no higher than
    any taken question of the same tag. *)
Theorem select_balanced_questions_hardest_first
    (questions : list Question) (selected_tags : list string) (num_questions : Z)
    (question_stats : gmap Z AnswerStat) (g : Rng) :
  ∃ res,
    (select_balanced_questions questions selected_tags num_questions
                               (Some question_stats) g).1 = Ok res ∧
    ∀ x y, x ∈ res → y ∈ questions → q_tag y ∈ selected_tags →
           q_tag y = q_tag x → y ∉ res →
           (_difficulty_score y question_stats
            <= _difficulty_score x question_stats)%Q.
Proof.
  destruct (decide (question_stats = ∅)) as [->|Hgiven].
  - destruct (select_balanced_questions_length questions selected_tags
                num_questions (Some ∅) g) as (res & Hres & _).
    exists res. split; [exact Hres|]. intros x y _ _ _ _ _.
    unfold _difficulty_score. by rewrite !lookup_empty.
  - by apply hardest_first_with_stats.
Qed.

(** The steps of [start_test]. *)
Lemma start_test_run
    (get_question_stats : Z → Z → gmap Z AnswerStat)
    (test_id : Z) (pool : list Question) (selected_tags : list string)
    (num_questions : Z) (w : World) (res : list Question) :
  (select_balanced_questions pool selected_tags num_questions
     (if truthy (user_id w)
      then Some (get_question_stats (default 0 (user_id w)) test_id) else None)
     (random w)).1 = Ok res →
  ∃ w',
    start_test get_question_stats test_id pool selected_tags num_questions w
      = (Raise Rerun, w') ∧
    user_id w' = user_id w ∧ db_questions w' = db_questions w ∧
    db_log w' =
      db_log w ++
      (if truthy (user_id w)
       then [create_session (default 0 (user_id w)) test_id 0
                            (Z.of_nat (length res))]
       else []) ∧
    quiz w' = Some
      {| questions := res; current_index := 0%nat; answered := false; score := 0;
         selected_answer := None; wrong_questions := [];
         round_history := []; current_round := 1;
         current_test_id := test_id;
         current_session_id :=
           if truthy (user_id w) then Some (db_next_session w) else None;
         session_score_saved := q ← quiz w; session_score_saved q |}.
Proof.
  intros Hsel. destruct w as [uid qz g log nxt repo pg]. cbn in Hsel.
  unfold start_test, select_questions, get_score_saved, db_create_session.
  unfold_script. cbn.
  destruct uid as [u|]; cbn in *; [destruct (bool_decide (u ≠ 0)); cbn in *|];
    destruct (select_balanced_questions _ _ _ _ g) as [r g']; cbn in Hsel; subst r;
    cbn; eexists; split_and!; try done; cbn; by rewrite ?app_nil_r.
Qed.

(** X12: a click on "Comenzar Test" always ends in a rerun with a
    quiz at its first question, score 0, no failures, an empty history
    and round 1, over [min(num_questions, |filtered|)] questions of the
    filtered pool (none for a negative count); the quiz carries the
    chosen test and, for a logged-in user, the id of the one session
    record that is opened for that many questions; nothing is opened for
    a visitor.  The flag [session_score_saved] is not assigned: it stays
    as the session had it. *)
Theorem start_test_fresh_round
    (get_question_stats : Z → Z → gmap Z AnswerStat)
    (test_id : Z) (pool : list Question) (selected_tags : list string)
    (num_questions : Z) (w : World) :
  let filtered := filter (λ q, q_tag q ∈ selected_tags) pool in
  ∃ w' q',
    start_test get_question_stats test_id pool selected_tags num_questions w
      = (Raise Rerun, w') ∧
    quiz w' = Some q' ∧ fresh_quiz q' ∧
    questions q' ⊆+ filtered ∧
    Z.of_nat (length (questions q'))
      = Z.max 0 (Z.min num_questions (Z.of_nat (length filtered))) ∧
    current_test_id q' = test_id ∧
    current_session_id q'
      = (if truthy (user_id w) then Some (db_next_session w) else None) ∧
    session_score_saved q' = (q ← quiz w; session_score_saved q) ∧
    user_id w' = user_id w ∧
    db_log w' =
      db_log w ++
      (if truthy (user_id w)
       then [create_session (default 0 (user_id w)) test_id 0
                            (Z.of_nat (length (questions q')))]
       else []).
Proof.
  intros filtered.
  destruct (select_balanced_questions_length pool selected_tags num_questions
              (if truthy (user_id w)
               then Some (get_question_stats (default 0 (user_id w)) test_id)
               else None) (random w)) as (res & Hres & Hsub & Hlen).
  destruct (start_test_run get_question_stats test_id pool selected_tags
              num_questions w res Hres) as (w' & Hrun & Hu & _ & Hlog & Hq).
  eexists w', _. split; [exact Hrun|]. split; [exact Hq|]. cbn.
  split_and!; try done.
Qed.

(** A quiz without questions cannot be shown. *)
Lemma empty_round_run (ev : Click) (w : World) (q : Quiz) :
  quiz w = Some q → questions q = [] →
  ∃ w', run_script ev w = (Raise ZeroDivisionError, w') ∧
        quiz w' = Some (rendered (user_id w) q) ∧
        user_id w' = user_id w ∧
        db_log w' = db_log w ++ stored_call (user_id w) q.
Proof.
  intros Hq Hnil.
  assert (Hover : round_over q) by (unfold round_over; rewrite Hnil; cbn; lia).
  unfold run_script. rewrite Hq.
  rewrite (show_quiz_round_over ev (set_page [] w) q Hq Hover).
  destruct (round_complete_saves ev (set_page [] w) q Hq)
    as (w2 & -> & Hu & _ & _ & _ & _ & Hlog & Hq2).
  rewrite Hnil. cbn [length]. unfold dividing_by. rewrite decide_True by done.
  unfold mbind, M_bind, raise. eexists. split; [done|].
  split_and!; [exact Hq2|exact Hu|exact Hlog].
Qed.

Lemma empty_round_clicks (evs : list Click) :
  ∀ (w : World) (q : Quiz),
    quiz w = Some q → questions q = [] →
    ∃ q', quiz (run_clicks evs w) = Some q' ∧ questions q' = [] ∧
          current_session_id q' = current_session_id q ∧
          user_id (run_clicks evs w) = user_id w ∧
          ∃ new, db_log (run_clicks evs w) = db_log w ++ new ∧
                 stored_once (default false (session_score_saved q)) new ∧
                 Forall (λ c, is_update c = true) new.
Proof.
  unfold run_clicks. induction evs as [|ev evs IH]; intros w q Hq Hnil; cbn.
  { exists q. split_and!; try done. exists []. by rewrite app_nil_r. }
  destruct (empty_round_run ev w q Hq Hnil) as (w' & Hrun & Hq' & Hu & Hlog).
  assert (Hi : interact ev w = w') by (unfold interact; by rewrite Hrun).
  rewrite Hi.
  destruct (IH w' _ Hq' Hnil) as (q'' & Hq'' & Hnil'' & Hsid & Hu'' & new & Hnew & Honce & Hall).
  exists q''. split_and!; [done|done|done|etransitivity; [exact Hu''|exact Hu]|].
  exists (stored_call (user_id w) q ++ new).
  rewrite Hnew, Hlog, (assoc_L (++)). split; [done|].
  unfold stored_call in *. cbn in Honce.
  destruct (due (user_id w) q) eqn:Hdue; cbn.
  - split; [split; [|done]|by constructor].
    unfold due in Hdue. destruct (session_score_saved q) as [[]|]; cbn in *;
      by rewrite ?andb_false_r in Hdue.
  - done.
Qed.

(** X13: when no question of the pool carries a ticked tag,
    "Comenzar Test" still starts a quiz, over no question at all, and
    from then on every run of the script fails with a division by zero
    in the completion view, whatever is clicked: the quiz can not be
    left. *)
Theorem start_test_empty_selection
    (get_question_stats : Z → Z → gmap Z AnswerStat)
    (test_id : Z) (pool : list Question) (selected_tags : list string)
    (num_questions : Z) (w : World) :
  filter (λ q, q_tag q ∈ selected_tags) pool = [] →
  ∃ w' q',
    start_test get_question_stats test_id pool selected_tags num_questions w
      = (Raise Rerun, w') ∧
    quiz w' = Some q' ∧ questions q' = [] ∧
    ∀ evs ev,
      (run_script ev (run_clicks evs w')).1 = Raise ZeroDivisionError ∧
      ∃ q'', quiz (run_clicks evs w') = Some q'' ∧ questions q'' = [].
Proof.
  intros Hnil.
  destruct (start_test_run get_question_stats test_id pool selected_tags
              num_questions w []
              (select_balanced_questions_empty _ _ _ _ _ Hnil))
    as (w' & Hrun & _ & _ & _ & Hq).
  eexists w', _. split; [exact Hrun|]. split; [exact Hq|]. split; [done|].
  intros evs ev.
  destruct (empty_round_clicks evs w' _ Hq eq_refl) as (q'' & Hq'' & Hnil'' & _).
  destruct (empty_round_run ev _ q'' Hq'' Hnil'') as (w'' & -> & _).
  split; [done|]. eauto.
Qed.

(** X14: when the count is at least 1, some question carries a
    ticked tag and every such question has its [answer_index] among its
    options, a quiz started with "Comenzar Test" never fails: after any
    sequence of clicks every run of the script ends normally or in a
    rerun, and the quiz, while there is one, asks questions of the
    filtered pool for the chosen test. *)
Theorem start_test_runs_well
    (get_question_stats : Z → Z → gmap Z AnswerStat)
    (test_id : Z) (pool : list Question) (selected_tags : list string)
    (num_questions : Z) (w : World) :
  let filtered := filter (λ q, q_tag q ∈ selected_tags) pool in
  1 ≤ num_questions → filtered ≠ [] → Forall answer_in_range filtered →
  ∃ w',
    start_test get_question_stats test_id pool selected_tags num_questions w
      = (Raise Rerun, w') ∧
    ∀ evs,
      (∀ ev, ends_well (run_script ev (run_clicks evs w')).1) ∧
      ∀ q, quiz (run_clicks evs w') = Some q →
           questions q ≠ [] ∧ questions q ⊆+ filtered ∧
           current_test_id q = test_id.
Proof.
  intros filtered Hnum Hne Hvalid.
  destruct (select_balanced_questions_length pool selected_tags num_questions
              (if truthy (user_id w)
               then Some (get_question_stats (default 0 (user_id w)) test_id)
               else None) (random w)) as (res & Hres & Hsub & Hlen).
  fold filtered in Hsub, Hlen.
  destruct (start_test_run get_question_stats test_id pool selected_tags
              num_questions w res Hres) as (w' & Hrun & Hu & _ & Hlog & Hq).
  assert (Hres_ne : res ≠ []).
  { intros ->. cbn in Hlen. destruct filtered; [done|]. cbn in Hlen. lia. }
  assert (Hres_valid : Forall answer_in_range res).
  { apply Forall_forall. intros x Hx. rewrite Forall_forall in Hvalid.
    apply Hvalid. by eapply elem_of_submseteq. }
  exists w'. split; [exact Hrun|]. intros evs.
  assert (Hfresh : fresh_quiz {| questions := res; current_index := 0%nat;
                            answered := false; score := 0;
                            selected_answer := None; wrong_questions := [];
                            round_history := []; current_round := 1;
                            current_test_id := test_id;
                            current_session_id :=
                              if truthy (user_id w)
                              then Some (db_next_session w) else None;
                            session_score_saved :=
                              q ← quiz w; session_score_saved q |}) by done.
  split.
  - intros ev. destruct (quiz (run_clicks evs w')) as [q|] eqn:Hq'.
    + eapply run_script_ends; [done|]. intros _.
      eapply flow_inv_drawable; [exact Hres_valid|].
      by eapply (run_clicks_flow_inv w' _ evs Hq Hfresh Hres_ne).
    + unfold run_script. rewrite Hq'. by left.
  - intros q Hq'.
    destruct (run_clicks_flow_inv w' _ evs Hq Hfresh Hres_ne q Hq')
      as (Hne' & Hsub' & _).
    split; [done|]. split; [by etransitivity|].
    destruct (run_clicks_under_test test_id (db_log w') evs w') as [Htid _].
    + split; [rewrite Hq; by intros ? [= <-]|]. exists []. by rewrite app_nil_r.
    + by apply Htid.
Qed.

(** ** Practice from stored failures: how many questions *)

(** X15: when the selected references resolve to a question, the
    practice round holds at most as many questions as the dashboard
    announces ([len(unique_wrong)]), which is at most the number of
    references; it holds fewer when a reference has no test id, since
    such references are announced and then skipped. *)
Theorem practice_wrong_count (all_wrong : list WrongRef) (w : World) (u : Z) :
  ids_unique w → user_id w = Some u →
  resolve_tagged w (group_by_test (unique_wrong_refs all_wrong)) ≠ [] →
  ∃ w' q',
    practice_wrong all_wrong w = (Raise Rerun, w') ∧ quiz w' = Some q' ∧
    (length (questions q') ≤ length (unique_wrong_refs all_wrong))%nat ∧
    (length (unique_wrong_refs all_wrong) ≤ length all_wrong)%nat ∧
    ((∃ r, r ∈ all_wrong ∧ truthy (w_test_id r) = false) →
     (length (questions q') < length (unique_wrong_refs all_wrong))%nat).
Proof.
  intros Hw Hu Hne.
  set (refs := unique_wrong_refs all_wrong) in *.
  set (tagged := resolve_tagged w (group_by_test refs)) in *.
  destruct (start_quiz_from_wrong_run refs w) as [_ Hsome].
  destruct (Hsome ltac:(by intros ?%fmap_nil_inv) u Hu) as (w' & Hrun & _ & _ & Hq).
  fold tagged in Hq.
  pose proof (group_by_test_filed refs) as [Hnd Hin].
  pose proof (resolve_tagged_NoDup w _ Hw Hnd) as Hkeys. fold tagged in Hkeys.
  set (keys := (λ p : Z * Question, (Some p.1, q_id p.2)) <$> tagged).
  assert (Hkeys' : NoDup keys).
  { unfold keys.
    replace ((λ p : Z * Question, (Some p.1, q_id p.2)) <$> tagged)
      with ((λ k : Z * Z, (Some k.1, k.2)) <$> ((λ p, (p.1, q_id p.2)) <$> tagged)).
    - apply NoDup_fmap_2; [|done]. by intros [??] [??] [= -> ->].
    - by rewrite <- list_fmap_compose. }
  assert (Hsub : ∀ k, k ∈ keys → k ∈ ref_key <$> refs ∧ truthy k.1 = true).
  { intros k (p & -> & Hp)%list_elem_of_fmap. destruct p as [t x].
    apply resolve_tagged_elem in Hp as (Ht & Hd & _). cbn. split.
    - by apply Hin.
    - by apply bool_decide_eq_true_2. }
  assert (Hlen : length (questions
            {| questions := (shuffle tagged.*2 (random w)).1;
               current_index := 0%nat; answered := false; score := 0;
               selected_answer := None; wrong_questions := [];
               round_history := []; current_round := 1;
               current_test_id := started_test_id refs;
               current_session_id := Some (db_next_session w);
               session_score_saved := Some false |}) = length keys).
  { cbn. rewrite (Permutation_length (shuffle_Permutation _ _)).
    unfold keys. by rewrite !length_fmap. }
  eexists w', _. split; [exact Hrun|]. split; [exact Hq|]. rewrite Hlen.
  split_and!.
  - rewrite <- (length_fmap ref_key refs). apply submseteq_length.
    apply NoDup_submseteq; [done|]. intros k Hk. by apply Hsub.
  - unfold refs. rewrite unique_wrong_refs_dedup_first.
    clear. induction all_wrong as [|x l IH]; [done|].
    rewrite dedup_first_cons. cbn.
    pose proof (length_filter (λ v, ref_key v ≠ ref_key x) (dedup_first l)). lia.
  - intros (r & Hr & Hfalse).
    assert (Hk0 : ref_key r ∈ ref_key <$> refs).
    { unfold refs. rewrite unique_wrong_refs_dedup_first. apply dedup_first_keys.
      by apply list_elem_of_fmap_2. }
    assert (Hnot : ref_key r ∉ keys).
    { intros Hk. apply Hsub in Hk as [_ Ht]. cbn in Ht. congruence. }
    rewrite <- (length_fmap ref_key refs).
    change (length (ref_key r :: keys) ≤ length (ref_key <$> refs))%nat.
    apply submseteq_length, NoDup_submseteq.
    + by apply NoDup_cons.
    + intros k [->|Hk]%elem_of_cons; [done|]. by apply Hsub.
Qed.

(** ** The option buttons of the test editor *)

Lemma drop_last_snoc {A} (l : list A) x : drop_last (l ++ [x]) = l.
Proof.
  unfold drop_last. rewrite length_app. cbn.
  replace (length l + 1 - 1)%nat with (length l) by lia.
  by rewrite take_app_length.
Qed.

Lemma length_drop_last {A} (l : list A) : length (drop_last l) = (length l - 1)%nat.
Proof. unfold drop_last. rewrite length_take. lia. Qed.

(** X16: for a question with more than two options whose
    [answer_index] names one of them, "- Opcion" asks to store the
    question without its last option and with at least two options
    left; the correct answer stays what it was unless it was the removed
    option, in which case the new last option becomes the correct one;
    tag, text and explanation are passed on. *)
Theorem remove_option_keeps_answer (q : Question) :
  answer_in_range q → (2 < length (q_options q))%nat →
  ∃ q' last_option,
    remove_option q = Some q' ∧
    q_options q = q_options q' ++ [last_option] ∧
    (2 ≤ length (q_options q'))%nat ∧
    answer_in_range q' ∧
    (q_answer_index q < Z.of_nat (length (q_options q')) →
     q_answer_index q' = q_answer_index q) ∧
    (q_answer_index q = Z.of_nat (length (q_options q')) →
     q_answer_index q' = Z.of_nat (length (q_options q')) - 1) ∧
    q_id q' = q_id q ∧ q_tag q' = q_tag q ∧ q_question q' = q_question q ∧
    q_explanation q' = q_explanation q.
Proof.
  intros [Hlo Hhi] Hlen. unfold remove_option. rewrite decide_True by done.
  destruct (q_options q) as [|o l] eqn:E using rev_ind; [cbn in Hlen; lia|].
  clear IHl. rewrite length_app in Hlen, Hhi. cbn in Hlen, Hhi.
  eexists _, o. split; [reflexivity|]. cbn. rewrite drop_last_snoc.
  unfold answer_in_range. cbn. split_and!; try done; lia.
Qed.

(** X17: "+ Opcion" appends the option "Opcion n+1" to the [n]
    options and keeps the correct answer; "- Opcion" on the question so
    stored asks to store the question as it was before. *)
Theorem add_then_remove_option (q : Question) :
  answer_in_range q → (2 ≤ length (q_options q))%nat →
  answer_in_range (add_option q) ∧
  q_options (add_option q)
  = q_options q ++ ["Opcion " +:+ pretty (S (length (q_options q)))] ∧
  remove_option (add_option q) = Some q.
Proof.
  intros [Hlo Hhi] Hlen. split_and!.
  - unfold answer_in_range, add_option. cbn. rewrite length_app. cbn. lia.
  - unfold add_option. cbn. by rewrite Nat.add_1_r.
  - unfold remove_option.
    assert (Hopts : q_options (add_option q)
              = q_options q ++ ["Opcion " +:+ pretty (length (q_options q) + 1)%nat])
      by done.
    rewrite Hopts, drop_last_snoc, length_app. cbn [length].
    rewrite decide_True by lia. cbn. rewrite Z.min_l by lia. by destruct q.
Qed.

(** ** A failed question whose answer index is out of range *)

Lemma py_index_bad {A} (l : list A) i w :
  ¬ (- Z.of_nat (length l) ≤ i < Z.of_nat (length l)) →
  py_index l i w = (Raise IndexError, w).
Proof.
  intros Hbad. unfold py_index. cbn zeta.
  destruct (decide (i < 0)) as [Hneg|Hneg].
  - rewrite decide_False by lia. done.
  - rewrite decide_True by lia.
    destruct (l !! Z.to_nat i) eqn:E; [|done].
    apply lookup_lt_Some in E. lia.
Qed.

Lemma py_index_result {A} (l : list A) i w :
  (∃ a, py_index l i w = (Ok a, w)) ∨ py_index l i w = (Raise IndexError, w).
Proof.
  unfold py_index. cbn zeta. case_decide; [|by right].
  destruct (l !! _); [left; eauto|by right].
Qed.

Lemma wrong_expander_result (x : Question) (w : World) :
  ((∃ a, (correct ← py_index (q_options x) (q_answer_index x);
          draw (wrong_expander x correct)) w
         = (Ok (), set_page (page w ++ [wrong_expander x a]) w)) ∧
   python_index_ok x) ∨
  (correct ← py_index (q_options x) (q_answer_index x);
   draw (wrong_expander x correct)) w = (Raise IndexError, w).
Proof.
  unfold mbind, M_bind.
  destruct (decide (python_index_ok x)) as [Hok|Hbad].
  - destruct (py_index_result (q_options x) (q_answer_index x) w) as [[a ->]| ->];
      [left|by right].
    split; [by exists a|done].
  - right. by rewrite py_index_bad.
Qed.

Lemma wrong_expanders_bad (wrong : list Question) :
  Exists (λ x, ¬ python_index_ok x) wrong →
  ∀ w, ∃ p,
    for_each wrong (λ q,
      correct ← py_index (q_options q) (q_answer_index q);
      draw (wrong_expander q correct)) w
    = (Raise IndexError, set_page p w).
Proof.
  induction wrong as [|x wrong IH]; intros Hex w.
  { by apply Exists_nil in Hex. }
  cbn [for_each]. unfold mbind at 1. unfold M_bind at 1.
  destruct (wrong_expander_result x w) as [[[a ->] Hok]| ->].
  - apply Exists_cons in Hex as [Hbad|Hex]; [done|].
    destruct (IH Hex (set_page (page w ++ [wrong_expander x a]) w)) as [p ->].
    by exists p.
  - exists (page w). by destruct w.
Qed.

Lemma stuck_run (ev : Click) (w : World) (q : Quiz) :
  quiz w = Some q → stuck q →
  ∃ w' q', run_script ev w = (Raise IndexError, w') ∧
           quiz w' = Some q' ∧ stuck q' ∧
           wrong_questions q' = wrong_questions q ∧
           db_log w' = db_log w ++ stored_call (user_id w) q.
Proof.
  intros Hq (Hover & Hne & Hpos & Hbad).
  unfold run_script. rewrite Hq.
  rewrite (show_quiz_round_over ev (set_page [] w) q Hq Hover).
  destruct (round_complete_header ev (set_page [] w) q Hq Hne Hpos)
    as (w3 & ws & -> & _ & _ & _ & _ & _ & _ & Hlog
        & q3 & Hq3 & Hh3 & _ & Hqs3 & Hi3 & _ & _ & Hw3).
  unfold show_wrong. destruct (wrong_questions q) as [|x l] eqn:E.
  { by apply Exists_nil in Hbad. }
  rewrite <- E in *. unfold mbind at 1. unfold M_bind at 1.
  destruct (wrong_expanders_bad (wrong_questions q) Hbad w3) as [p ->].
  eexists _, q3. split; [reflexivity|]. split; [exact Hq3|].
  split; [|split; [done|exact Hlog]].
  unfold stuck, round_over. rewrite Hqs3, Hi3, Hh3, Hw3.
  split_and!; [done|done| |done]. by apply history_after_pos.
Qed.

(** X18: at the end of a round that holds a failed question whose
    [answer_index] Python rejects as an index of its options, every run
    of the script fails with an [IndexError] while it lists the failed
    questions, whatever is clicked: neither "Repetir preguntas falladas"
    nor "Volver al inicio" is reached, and the quiz stays at the end of
    that round. *)
Theorem completion_view_bad_answer_index (w : World) (q : Quiz) :
  quiz w = Some q → stuck q →
  ∀ evs ev,
    (run_script ev (run_clicks evs w)).1 = Raise IndexError ∧
    ∃ q', quiz (run_clicks evs w) = Some q' ∧ round_over q' ∧
          wrong_questions q' = wrong_questions q.
Proof.
  intros Hq Hstuck evs. revert w q Hq Hstuck. unfold run_clicks.
  induction evs as [|ev0 evs IH]; intros w q Hq Hstuck ev; cbn.
  - destruct (stuck_run ev w q Hq Hstuck) as (w' & q' & -> & _).
    split; [done|]. exists q. split_and!; [done|apply Hstuck|done].
  - destruct (stuck_run ev0 w q Hq Hstuck) as (w' & q' & Hrun & Hq' & Hstuck' & Hw & _).
    assert (Hi : interact ev0 w = w') by (unfold interact; by rewrite Hrun).
    rewrite Hi. destruct (IH w' q' Hq' Hstuck' ev) as (Hr & q'' & Hq'' & Ho & Hw'').
    split; [done|]. exists q''. split_and!; [done|done|congruence].
Qed.

(** ** The session records *)

Lemma opened_cons c log :
  opened (c :: log) = (if is_create c then 1 else 0) + opened log.
Proof.
  unfold opened. rewrite filter_cons.
  destruct c; cbn [is_create]; case_decide; try done; cbn [length]; lia.
Qed.

Lemma opened_nonneg log : 0 ≤ opened log.
Proof. unfold opened. lia. Qed.

Lemma filed_under_app l1 : ∀ next cur l2,
  filed_under next cur (l1 ++ l2)
  ↔ filed_under next cur l1 ∧
    filed_under (next + opened l1) (open_after next cur l1) l2.
Proof.
  induction l1 as [|c l1 IH]; intros next cur l2.
  { cbn. rewrite opened_nil, Z.add_0_r. tauto. }
  rewrite opened_cons. destruct c; cbn.
  - rewrite IH, Z.add_0_l. tauto.
  - rewrite IH. by replace (next + 1 + opened l1) with (next + (1 + opened l1)) by lia.
  - rewrite IH, Z.add_0_l. tauto.
Qed.

Lemma open_after_app l1 : ∀ next cur l2,
  open_after next cur (l1 ++ l2)
  = open_after (next + opened l1) (open_after next cur l1) l2.
Proof.
  induction l1 as [|c l1 IH]; intros next cur l2.
  { cbn. by rewrite opened_nil, Z.add_0_r. }
  rewrite opened_cons. destruct c; cbn.
  - by rewrite IH, Z.add_0_l.
  - rewrite IH. by replace (next + 1 + opened l1) with (next + (1 + opened l1)) by lia.
  - by rewrite IH, Z.add_0_l.
Qed.

Lemma scored_app l1 : ∀ total l2,
  scored total (l1 ++ l2) ↔ scored total l1 ∧ scored (announced total l1) l2.
Proof.
  induction l1 as [|c l1 IH]; intros total l2; [cbn; tauto|].
  destruct c; cbn; rewrite ?IH; tauto.
Qed.

Lemma announced_app l1 : ∀ total l2,
  announced total (l1 ++ l2) = announced (announced total l1) l2.
Proof.
  induction l1 as [|c l1 IH]; intros total l2; [done|].
  destruct c; cbn; by rewrite ?IH.
Qed.

Lemma due_session u q :
  due u q = true → ∃ sid, current_session_id q = Some sid.
Proof.
  unfold due. destruct (current_session_id q) as [sid|]; [by exists sid|].
  cbn. by rewrite andb_false_r.
Qed.

(** ** A visitor who is not logged in *)

Lemma anonymous_step u next q oq' new :
  truthy u = false → quiz_step u next q oq' new → new = [].
Proof.
  intros Hu Hstep.
  destruct Hstep; unfold recorded_call, stored_call, created_call, due;
    by rewrite ?Hu.
Qed.

Lemma anonymous_clicks (w : World) (evs : list Click) :
  truthy (user_id w) = false → db_log (run_clicks evs w) = db_log w.
Proof.
  intros Hu.
  destruct (run_clicks_tracks (user_id w) (db_next_session w) (db_log w)
              (λ _ log, log = [])) with (evs := evs) (w := w)
    as (_ & log & Hlog & _ & ->).
  - intros q oq' log new -> Hstep. by rewrite (anonymous_step _ _ _ _ _ Hu Hstep).
  - split; [done|]. exists []. by rewrite app_nil_r, opened_nil, Z.add_0_r.
  - by rewrite Hlog, app_nil_r.
Qed.

(** X19: for a visitor who is not logged in nothing is persisted:
    no click in a quiz makes a call, and "Comenzar Test" opens no
    session record and starts a quiz without a session id that makes
    no call either, whatever is clicked. *)
Theorem anonymous_quiz_writes_nothing
    (get_question_stats : Z → Z → gmap Z AnswerStat)
    (test_id : Z) (pool : list Question) (selected_tags : list string)
    (num_questions : Z) (w : World) :
  truthy (user_id w) = false →
  (∀ evs, db_log (run_clicks evs w) = db_log w) ∧
  ∃ w' q',
    start_test get_question_stats test_id pool selected_tags num_questions w
      = (Raise Rerun, w') ∧
    quiz w' = Some q' ∧ current_session_id q' = None ∧
    ∀ evs, db_log (run_clicks evs w') = db_log w ∧
           ∀ q, quiz (run_clicks evs w') = Some q → current_session_id q = None.
Proof.
  intros Hu. split; [intros evs; by apply anonymous_clicks|].
  destruct (select_balanced_questions_length pool selected_tags num_questions
              (if truthy (user_id w)
               then Some (get_question_stats (default 0 (user_id w)) test_id)
               else None) (random w)) as (res & Hres & _).
  destruct (start_test_run get_question_stats test_id pool selected_tags
              num_questions w res Hres) as (w' & Hrun & Hu' & _ & Hlog & Hq).
  rewrite Hu in Hlog, Hq. rewrite app_nil_r in Hlog.
  eexists w', _. split_and!; [exact Hrun|exact Hq|done|].
  intros evs. split.
  - rewrite <- Hlog. apply anonymous_clicks. by rewrite Hu'.
  - destruct (run_clicks_tracks (user_id w') (db_next_session w') (db_log w')
                (λ oq _, ∀ q, oq = Some q → current_session_id q = None))
      with (evs := evs) (w := w') as (_ & log & _ & _ & HJ); [| |done].
    + intros q oq' log new HJ Hstep q' ->. specialize (HJ q eq_refl).
      rewrite Hu' in Hstep. inversion Hstep; subst; cbn; try done.
      by rewrite Hu.
    + split; [done|]. exists []. rewrite app_nil_r, opened_nil, Z.add_0_r.
      split_and!; [done|done|]. rewrite Hq. by intros ? [= <-].
Qed.

(** ** The calls name the open session record *)

Lemma filing_inv_step u next0 sid0 q oq' log new :
  truthy u = true →
  filing_inv next0 sid0 (Some q) log →
  quiz_step u (next0 + opened log) q oq' new →
  filing_inv next0 sid0 oq' (log ++ new).
Proof.
  intros Hu [Hfiled Hcur] Hstep. specialize (Hcur q eq_refl).
  unfold filing_inv. rewrite filed_under_app, open_after_app, <- Hcur.
  assert (Hstored :
    filed_under (next0 + opened log) (current_session_id q) (stored_call u q) ∧
    open_after (next0 + opened log) (current_session_id q) (stored_call u q)
    = current_session_id q).
  { unfold stored_call. destruct (due u q) eqn:Hdue; [|done].
    destruct (due_session _ _ Hdue) as [sid Hsid]. rewrite Hsid. cbn. done. }
  destruct Hstep as [Hin|i question Hlook Hans Hi|Hlt Hans|Hin|Hover
                     |qs Hover Hne Hw Hqs|Hover Hne].
  - split; [done|]. by intros ? [= <-].
  - unfold recorded_call. rewrite Hu. cbn. split; [done|]. by intros ? [= <-].
  - split; [done|]. by intros ? [= <-].
  - done.
  - destruct Hstored as [H1 H2]. rewrite H2. split; [done|]. by intros ? [= <-].
  - destruct Hstored as [H1 H2].
    rewrite filed_under_app, open_after_app, H2, opened_stored_call, Z.add_0_r.
    unfold created_call. rewrite Hu. cbn. split; [done|]. by intros ? [= <-].
  - destruct Hstored as [H1 H2]. done.
Qed.

(** X20: for a logged-in user, from any quiz and for any sequence of
    clicks, every call is made for the session record that is open:
    every [record_answer] carries the session id of the quiz, every
    [update_session_score] names it, and from a [create_session] on it
    is the id that this call returned; the quiz ends with the id of the
    record opened last. *)
Theorem quiz_flow_session_filing (w : World) (q0 : Quiz) (evs : list Click) :
  quiz w = Some q0 → truthy (user_id w) = true →
  ∃ new,
    db_log (run_clicks evs w) = db_log w ++ new ∧
    filed_under (db_next_session w) (current_session_id q0) new ∧
    db_next_session (run_clicks evs w) = db_next_session w + opened new ∧
    ∀ q, quiz (run_clicks evs w) = Some q →
         current_session_id q
         = open_after (db_next_session w) (current_session_id q0) new.
Proof.
  intros Hq Hu.
  destruct (run_clicks_tracks (user_id w) (db_next_session w) (db_log w)
              (filing_inv (db_next_session w) (current_session_id q0)))
    with (evs := evs) (w := w) as (_ & log & Hlog & Hnext & Hfiled & Hcur).
  - intros q oq' log new HJ Hstep. by eapply filing_inv_step.
  - split; [done|]. exists []. rewrite app_nil_r, opened_nil, Z.add_0_r.
    split_and!; [done|done|]. split; [done|]. rewrite Hq. by intros ? [= <-].
  - by exists log.
Qed.

(** ** The stored scores *)

Lemma scoring_inv_step u next total0 q oq' log new :
  truthy u = true →
  scoring_inv total0 (Some q) log →
  quiz_step u next q oq' new →
  scoring_inv total0 oq' (log ++ new).
Proof.
  intros Hu [Hscored Hq] Hstep. destruct (Hq q eq_refl) as [Hinv Htotal].
  pose proof (tally_inv_step u next q oq' new Hinv Hstep) as Hinv'.
  unfold scoring_inv. rewrite scored_app, announced_app, Htotal.
  assert (Hstored : round_over q →
    scored (Some (Z.of_nat (length (questions q)))) (stored_call u q) ∧
    announced (Some (Z.of_nat (length (questions q)))) (stored_call u q)
    = Some (Z.of_nat (length (questions q)))).
  { intros Hover. unfold stored_call. destruct (due u q); [|done]. cbn.
    pose proof (tally_inv_over _ Hinv Hover) as Hsum.
    destruct Hinv as (_ & _ & Hs & _). split_and!; try done; lia. }
  destruct Hstep as [Hin|i question Hlook Hans Hi|Hlt Hans|Hin|Hover
                     |qs Hover Hne Hw Hqs|Hover Hne].
  - split; [done|]. intros ? [= <-]. by split.
  - unfold recorded_call. rewrite Hu. cbn. split; [done|].
    intros q' E. split; [by apply Hinv'|]. by simplify_eq.
  - split; [done|]. intros q' E. split; [by apply Hinv'|]. by simplify_eq.
  - done.
  - destruct (Hstored Hover) as [H1 H2]. rewrite H2. split; [done|].
    intros q' E. split; [by apply Hinv'|]. by simplify_eq.
  - destruct (Hstored Hover) as [H1 H2].
    rewrite scored_app, announced_app, H2. unfold created_call.
    rewrite Hu in Hinv' |- *. cbn.
    split; [done|]. intros q' E. split; [by apply Hinv'|]. simplify_eq. cbn.
    by rewrite Hqs.
  - destruct (Hstored Hover) as [H1 H2]. done.
Qed.

(** X21: after "Comenzar Test", whatever was selected and whatever
    is clicked, every score that is stored lies between 0 and its total,
    and the total is the number of questions that the session record
    was opened with. *)
Theorem start_test_scores_add_up
    (get_question_stats : Z → Z → gmap Z AnswerStat)
    (test_id : Z) (pool : list Question) (selected_tags : list string)
    (num_questions : Z) (w : World) :
  ∃ w',
    start_test get_question_stats test_id pool selected_tags num_questions w
      = (Raise Rerun, w') ∧
    ∀ evs, ∃ new,
      db_log (run_clicks evs w') = db_log w ++ new ∧ scored None new.
Proof.
  destruct (select_balanced_questions_length pool selected_tags num_questions
              (if truthy (user_id w)
               then Some (get_question_stats (default 0 (user_id w)) test_id)
               else None) (random w)) as (res & Hres & _).
  destruct (start_test_run get_question_stats test_id pool selected_tags
              num_questions w res Hres) as (w' & Hrun & Hu & _ & Hlog & Hq).
  exists w'. split; [exact Hrun|]. intros evs.
  destruct (truthy (user_id w)) eqn:Hlogged.
  - destruct (run_clicks_tracks (user_id w') (db_next_session w') (db_log w')
                (scoring_inv (Some (Z.of_nat (length res)))))
      with (evs := evs) (w := w') as (_ & log & Hlog' & _ & Hscored & _).
    + intros q oq' log new HJ Hstep. eapply scoring_inv_step; [|done..].
      by rewrite Hu.
    + split; [done|]. exists []. rewrite app_nil_r, opened_nil, Z.add_0_r.
      split_and!; [done|done|]. split; [done|]. rewrite Hq. intros ? [= <-]. cbn.
      split; [|done]. unfold tally_inv, answered_count. cbn.
      split_and!; try done; lia.
    + eexists. rewrite Hlog', Hlog, <- (assoc_L (++)). split; [done|]. done.
  - exists []. rewrite app_nil_r in Hlog |- *. split; [|done].
    rewrite <- Hlog. apply anonymous_clicks. by rewrite Hu.
Qed.

Lemma start_test_next
    (get_question_stats : Z → Z → gmap Z AnswerStat)
    (test_id : Z) (pool : list Question) (selected_tags : list string)
    (num_questions : Z) (w : World) (res : list Question) :
  (select_balanced_questions pool selected_tags num_questions
     (if truthy (user_id w)
      then Some (get_question_stats (default 0 (user_id w)) test_id) else None)
     (random w)).1 = Ok res →
  db_next_session
    (start_test get_question_stats test_id pool selected_tags num_questions w).2
  = db_next_session w + if truthy (user_id w) then 1 else 0.
Proof.
  intros Hsel. destruct w as [uid qz g log nxt repo pg]. cbn in Hsel.
  unfold start_test, select_questions, get_score_saved, db_create_session.
  unfold_script. cbn.
  destruct uid as [u|]; cbn in *; [destruct (bool_decide (u ≠ 0)); cbn in *|];
    destruct (select_balanced_questions _ _ _ _ g) as [r g']; cbn in Hsel; subst r;
    cbn; lia.
Qed.

Lemma storing_inv_step u next q oq' log new :
  truthy u = true → 0 < next →
  storing_inv (Some q) log →
  quiz_step u next q oq' new →
  storing_inv oq' (log ++ new).
Proof.
  intros Hu Hnext Hq Hstep.
  destruct (Hq q eq_refl) as (Hinv & (sid & Hsid & Hpos & Hsaved) & Hhist).
  pose proof (history_inv_step u next q oq' new Hinv Hstep) as Hinv'.
  pose proof (history_after_length q Hinv) as Hlen.
  intros q' Hq'. split; [by apply Hinv'|]. clear Hinv'.
  unfold stored_since in *. rewrite foldl_app.
  destruct Hstep as [Hin|i question Hlook Hans Hi|Hlt Hans|Hin|Hover
                     |qs Hover Hne Hw Hqs|Hover Hne];
    simplify_eq.
  - cbn. split; [|done]. by exists sid.
  - apply lookup_lt_Some in Hlook. unfold round_over, recorded_call in *.
    rewrite Hu. cbn. split.
    + exists sid. split_and!; [done|done|]. intros E.
      destruct (Hsaved E) as [? _]. lia.
    + intros E. destruct (Hsaved (Hhist E)) as [? _]. lia.
  - unfold round_over in *. cbn. split.
    + exists sid. split_and!; [done|done|]. intros E.
      destruct (Hsaved E) as [? _]. lia.
    + intros E. destruct (Hsaved (Hhist E)) as [? _]. lia.
  - assert (Hcase : due u q = true ∨ session_score_saved q = Some true).
    { unfold due. rewrite Hu, Hsid. cbn. rewrite bool_decide_true by lia. cbn.
      destruct (session_score_saved q) as [[]|]; cbn; auto. }
    unfold stored_call, rendered. cbn.
    destruct (due u q) eqn:Hdue; cbn.
    + rewrite Hsid. cbn. split; [|done]. exists sid. by split_and!.
    + destruct Hcase as [?|Hs]; [done|]. split; [|done].
      exists sid. split_and!; [done|done|]. intros _. by apply Hsaved.
  - cbn. split; [|lia]. exists next. rewrite Hu. by split_and!.
Qed.

(** X22: for a logged-in user who starts a test from a session
    without a quiz, with session ids that are positive: whenever the
    finished round is in the history, its score has been stored, that
    is, the last call for the record opened last is
    [update_session_score] with the id, the score and the number of
    questions of the round. *)
Theorem start_test_score_stored
    (get_question_stats : Z → Z → gmap Z AnswerStat)
    (test_id : Z) (pool : list Question) (selected_tags : list string)
    (num_questions : Z) (w : World) :
  truthy (user_id w) = true → quiz w = None → 0 < db_next_session w →
  ∃ w',
    start_test get_question_stats test_id pool selected_tags num_questions w
      = (Raise Rerun, w') ∧
    ∀ evs q,
      quiz (run_clicks evs w') = Some q →
      Z.of_nat (length (round_history q)) = current_round q →
      ∃ sid new,
        current_session_id q = Some sid ∧
        db_log (run_clicks evs w') = db_log w ++ new ∧
        stored_since new = Some (sid, score q, Z.of_nat (length (questions q))).
Proof.
  intros Hlogged Hnone Hnext.
  destruct (select_balanced_questions_length pool selected_tags num_questions
              (if truthy (user_id w)
               then Some (get_question_stats (default 0 (user_id w)) test_id)
               else None) (random w)) as (res & Hres & _).
  destruct (start_test_run get_question_stats test_id pool selected_tags
              num_questions w res Hres) as (w' & Hrun & Hu & _ & Hlog & Hq).
  pose proof (start_test_next get_question_stats test_id pool selected_tags
                num_questions w res Hres) as Hn.
  rewrite Hrun in Hn. cbn [snd] in Hn.
  rewrite Hlogged, Hnone in *.
  exists w'. split; [exact Hrun|]. intros evs q Hq' Hhist.
  destruct (run_clicks_tracks (user_id w') (db_next_session w) (db_log w)
              storing_inv)
    with (evs := evs) (w := w') as (_ & log & Hlog' & _ & HJ).
  - intros q1 oq' log new HJ Hstep.
    eapply (storing_inv_step (user_id w') (db_next_session w + opened log));
      [by rewrite Hu| |done|done].
    pose proof (opened_nonneg log). lia.
  - split; [done|]. eexists. split_and!; [exact Hlog|by rewrite Hn|].
    rewrite Hq. intros ? [= <-]. cbn.
    split_and!; [by left|by eexists|done].
  - destruct (HJ q Hq') as (Hinv & (sid & Hsid & _ & Hsaved) & Hh).
    destruct (Hsaved (Hh Hhist)) as [_ Hstored].
    by exists sid, log.
Qed.

(** ** A question whose answer index is out of range, from the start *)

Section script_invariant.
Variable Inv : World → Prop.
Hypothesis Inv_run : ∀ ev w, Inv w → Inv (run_script ev w).2.

Lemma interact_inv ev w : Inv w → Inv (interact ev w).
Proof.
  intros Hw. unfold interact. pose proof (Inv_run ev w Hw) as H1.
  destruct (run_script ev w) as [[?|[]|] w1]; try done.
  by apply Inv_run.
Qed.

Lemma run_clicks_inv evs : ∀ w, Inv w → Inv (run_clicks evs w).
Proof.
  unfold run_clicks. induction evs as [|ev evs IH]; intros w Hw; [done|].
  cbn. by apply IH, interact_inv.
Qed.
End script_invariant.

Lemma blocked_stuck qs0 x q :
  x ∈ qs0 → ¬ python_index_ok x → blocked_inv qs0 x q → round_over q → stuck q.
Proof.
  intros Hx Hbad (Hqs & _ & Hpos & Hwrong) Hover.
  unfold stuck. split_and!; [done| |done|].
  - rewrite Hqs. intros ->. by apply elem_of_nil in Hx.
  - apply Exists_exists. exists x. split; [|done]. apply Hwrong.
    unfold round_over, answered_count in *. rewrite take_ge by lia. by rewrite Hqs.
Qed.

Lemma blocked_inv_run qs0 x ev w :
  x ∈ qs0 → ¬ python_index_ok x →
  (∀ q, quiz w = Some q → blocked_inv qs0 x q) →
  ∀ q', quiz (run_script ev w).2 = Some q' → blocked_inv qs0 x q'.
Proof.
  intros Hx Hbad Hinv q' Hq'.
  destruct (quiz w) as [q|] eqn:Hq.
  2:{ unfold run_script in Hq'. rewrite Hq in Hq'. cbn in Hq'. congruence. }
  pose proof (Hinv q eq_refl) as HI.
  destruct (run_script_step ev w q Hq) as (new & Hstep & _).
  assert (Hne : questions q ≠ []).
  { destruct HI as (-> & _). intros ->. by apply elem_of_nil in Hx. }
  assert (Hstuck : round_over q →
            ∃ q'', quiz (run_script ev w).2 = Some q'' ∧
                   wrong_questions q'' = wrong_questions q ∧
                   x ∈ wrong_questions q).
  { intros Hover. pose proof (blocked_stuck _ _ _ Hx Hbad HI Hover) as Hs.
    destruct (stuck_run ev w q Hq Hs) as (w' & q'' & Hrun & Hq'' & _ & Hw & _).
    exists q''. rewrite Hrun. split_and!; [done|done|].
    destruct HI as (_ & _ & _ & Hwrong). apply Hwrong.
    unfold round_over, answered_count in *. rewrite take_ge by lia.
    destruct Hinv with q as (-> & _); done. }
  remember (quiz (run_script ev w).2) as oq' eqn:Hoq.
  destruct HI as (Hqs & Hr & Hpos & Hwrong).
  destruct Hstep as [Hin|i question Hlook Hans Hi|Hlt Hans|Hin|Hover
                     |qs Hover _ Hw Hperm|Hover _];
    simplify_eq.
  - done.
  - unfold blocked_inv, answered_count in *. cbn. rewrite Hans in *.
    rewrite Nat.add_0_r in Hwrong. rewrite Nat.add_1_r, (take_S_r _ _ _ Hlook).
    split_and!; [done|done|done|]. intros Hin'.
    apply elem_of_app in Hin' as [Hin'|Hin'].
    + specialize (Hwrong Hin'). case_bool_decide; [done|].
      apply elem_of_app. by left.
    + apply list_elem_of_singleton in Hin' as <-.
      rewrite bool_decide_false.
      { apply elem_of_app. right. apply list_elem_of_here. }
      unfold python_index_ok in Hbad. lia.
  - unfold blocked_inv, answered_count in *. cbn. rewrite Hans in *.
    by rewrite Nat.add_1_r, Nat.add_0_r in *.
  - unfold blocked_inv, answered_count in *. cbn.
    split_and!; [done|done|by apply history_after_pos|done].
  - destruct (Hstuck Hover) as (q'' & E & Hsame & Hin).
    simplify_eq; cbn in Hsame; rewrite <- Hsame in Hin; by apply elem_of_nil in Hin.
Qed.

(** X23: in a quiz that was started afresh and holds a question
    whose [answer_index] Python rejects as an index of its options, the
    first round is never left: whatever is clicked, the quiz stays in
    round 1 over the same questions, the question is among the failed
    ones as soon as it has been answered, and once the round is over
    every run of the script fails with an [IndexError]. *)
Theorem bad_answer_index_blocks_quiz (w : World) (q0 : Quiz) (x : Question)
    (evs : list Click) :
  quiz w = Some q0 → fresh_quiz q0 → x ∈ questions q0 → ¬ python_index_ok x →
  ∀ q, quiz (run_clicks evs w) = Some q →
    questions q = questions q0 ∧ current_round q = 1 ∧
    (x ∈ take (answered_count q) (questions q) → x ∈ wrong_questions q) ∧
    (round_over q →
     ∀ ev, (run_script ev (run_clicks evs w)).1 = Raise IndexError).
Proof.
  intros Hq (Hi & Ha & Hs & Hw & Hh & Hr) Hx Hbad q Hq'.
  assert (Hinv : ∀ q, quiz (run_clicks evs w) = Some q →
                      blocked_inv (questions q0) x q).
  { apply (run_clicks_inv
             (λ w, ∀ q, quiz w = Some q → blocked_inv (questions q0) x q)).
    - intros ev w1 H1. by apply blocked_inv_run.
    - rewrite Hq. intros ? [= <-]. unfold blocked_inv, answered_count.
      rewrite Hi, Ha, Hh, Hr. cbn. split_and!; try done.
      intros E. by apply elem_of_nil in E. }
  pose proof (Hinv q Hq') as HI. pose proof HI as (Hqs & Hround & _ & Hwrong).
  split_and!; [done..|]. intros Hover ev.
  destruct (stuck_run ev _ q Hq' (blocked_stuck _ _ _ Hx Hbad HI Hover))
    as (w' & q'' & -> & _). done.
Qed.

(** ** Practice from stored failures: the round that follows *)

Lemma start_quiz_from_wrong_next (wrong_refs : list WrongRef) (w : World) (u : Z) :
  (resolve_tagged w (group_by_test wrong_refs)).*2 ≠ [] → user_id w = Some u →
  db_next_session (_start_quiz_from_wrong wrong_refs w).2 = db_next_session w + 1.
Proof.
  intros Hne Hu.
  set (qs := (resolve_tagged w (group_by_test wrong_refs)).*2) in *.
  unfold _start_quiz_from_wrong. unfold mbind at 1, M_bind.
  rewrite resolve_groups_run. cbn [app]. fold qs.
  destruct qs as [|x l] eqn:E; [done|]. rewrite <- E.
  destruct w as [uid qz g log nxt repo pg]. cbn in Hu. subst uid.
  unfold random_shuffle, db_create_session. unfold_script. cbn.
  destruct (shuffle qs g) as [qs' g']. by cbn.
Qed.

(** X24: for a logged-in user, when every stored question has its
    [answer_index] among its options and the selected references resolve
    to a question, the practice round started from the dashboard never
    fails, whatever is clicked; every score it stores lies between 0 and
    its total, which is the number of questions the session record was
    opened with; and, with session ids that are positive, the score of a
    round that is in the history has been stored. *)
Theorem practice_round_runs_well (all_wrong : list WrongRef) (w : World) (u : Z) :
  user_id w = Some u → u ≠ 0 → stored_in_range w →
  resolve_tagged w (group_by_test (unique_wrong_refs all_wrong)) ≠ [] →
  ∃ w',
    practice_wrong all_wrong w = (Raise Rerun, w') ∧
    ∀ evs,
      (∀ ev, ends_well (run_script ev (run_clicks evs w')).1) ∧
      ∃ new,
        db_log (run_clicks evs w') = db_log w ++ new ∧ scored None new ∧
        (0 < db_next_session w →
         ∀ q, quiz (run_clicks evs w') = Some q →
              Z.of_nat (length (round_history q)) = current_round q →
              ∃ sid, current_session_id q = Some sid ∧
                     stored_since new
                     = Some (sid, score q, Z.of_nat (length (questions q)))).
Proof.
  intros Hu Hu0 Hvalid Hne.
  set (refs := unique_wrong_refs all_wrong) in *.
  set (tagged := resolve_tagged w (group_by_test refs)) in *.
  assert (Hne2 : tagged.*2 ≠ []) by (by intros ?%fmap_nil_inv).
  destruct (start_quiz_from_wrong_run refs w) as [_ Hsome].
  destruct (Hsome Hne2 u Hu) as (w' & Hrun & Hu' & Hlog & Hq).
  fold tagged in Hq, Hlog.
  pose proof (start_quiz_from_wrong_next refs w u Hne2 Hu) as Hn.
  rewrite Hrun in Hn. cbn [snd] in Hn.
  pose proof (shuffle_Permutation tagged.*2 (random w)) as Hperm.
  set (qs := (shuffle tagged.*2 (random w)).1) in *.
  assert (Hqs_ne : qs ≠ []).
  { intros E. rewrite E in Hperm. by apply Permutation_nil_l in Hperm. }
  assert (Hqs_valid : Forall answer_in_range qs).
  { rewrite Hperm. apply Forall_forall. intros x Hx.
    apply list_elem_of_fmap in Hx as ([t y] & -> & Hy).
    apply resolve_tagged_elem in Hy as (_ & _ & Hy). cbn.
    destruct (db_questions w !! t) as [l|] eqn:El; cbn in Hy;
      [|by apply elem_of_nil in Hy].
    pose proof (Hvalid t l El) as Hl. rewrite Forall_forall in Hl. by apply Hl. }
  assert (Hlogged : truthy (user_id w') = true).
  { rewrite Hu'. cbn. by apply bool_decide_eq_true_2. }
  set (q0 := {| questions := qs; current_index := 0%nat; answered := false;
                score := 0; selected_answer := None; wrong_questions := [];
                round_history := []; current_round := 1;
                current_test_id := started_test_id refs;
                current_session_id := Some (db_next_session w);
                session_score_saved := Some false |}) in *.
  assert (Hfresh : fresh_quiz q0) by done.
  exists w'. split; [exact Hrun|]. intros evs. split.
  - intros ev. destruct (quiz (run_clicks evs w')) as [q|] eqn:Hq'.
    + eapply run_script_ends; [done|]. intros _.
      eapply flow_inv_drawable; [exact Hqs_valid|].
      by eapply (run_clicks_flow_inv w' q0 evs Hq Hfresh Hqs_ne).
    + unfold run_script. rewrite Hq'. by left.
  - destruct (run_clicks_tracks (user_id w') (db_next_session w) (db_log w)
                (λ oq log, scoring_inv None oq log ∧
                           (0 < db_next_session w → storing_inv oq log)))
      with (evs := evs) (w := w') as (_ & log & Hlog' & _ & [Hscored _] & Hstored).
    + intros q oq' log new [HJ1 HJ2] Hstep. split.
      * eapply scoring_inv_step; [exact Hlogged|done..].
      * intros Hpos.
        eapply (storing_inv_step (user_id w') (db_next_session w + opened log));
          [exact Hlogged| |by apply HJ2|done].
        pose proof (opened_nonneg log). lia.
    + split; [done|]. eexists. split_and!; [exact Hlog|by rewrite Hn| |].
      * split; [done|]. rewrite Hq. intros ? [= <-]. cbn.
        split; [|by rewrite (Permutation_length Hperm)].
        unfold tally_inv, answered_count. cbn. split_and!; try done; lia.
      * intros Hpos. rewrite Hq. intros ? [= <-]. cbn.
        split_and!; [by left|by eexists|done].
    + exists log. split_and!; [done|done|].
      intros Hpos q Hq' Hhist.
      destruct (Hstored Hpos q Hq') as (_ & (sid & Hsid & _ & Hsaved) & Hh).
      destruct (Hsaved (Hh Hhist)) as [_ Hst]. by exists sid.
Qed.

(** ** The statements at sample inputs *)

(** The scorer on a question answered wrongly three times out of three. *)
Lemma difficulty_score_spec_witness :
  (∀ i st, sample_stats !! i = Some st → 0 ≤ correct st ∧ 0 ≤ wrong st) ∧
  sample_stats !! 2 = Some {| correct := 0; wrong := 3 |} ∧
  _difficulty_score (sample_question 2 "A" 1) sample_stats
    = (inject_Z 3 / inject_Z (0 + 3))%Q ∧
  (0 <= _difficulty_score (sample_question 2 "A" 1) sample_stats)%Q ∧
  (_difficulty_score (sample_question 2 "A" 1) sample_stats <= 1)%Q.
Proof.
  assert (Hpos : ∀ i st, sample_stats !! i = Some st →
                         0 ≤ correct st ∧ 0 ≤ wrong st).
  { intros i st. unfold sample_stats.
    intros [[_ <-]|[_ [_ <-]%lookup_singleton_Some]]%lookup_insert_Some; cbn; lia. }
  assert (Hst : sample_stats !! 2 = Some {| correct := 0; wrong := 3 |})
    by reflexivity.
  destruct (difficulty_score_spec (sample_question 2 "A" 1) sample_stats)
    as (_ & _ & Hrate & Hbound).
  split; [exact Hpos|]. split; [exact Hst|]. split.
  - apply (Hrate _ Hst). cbn. lia.
  - exact (Hbound Hpos).
Defined.

(** The selector on the sample pool with a budget of two. *)
Lemma select_balanced_questions_contract_witness :
  NoDup sample_pool ∧ 0 ≤ 2 ∧
  ∃ res,
    (select_balanced_questions sample_pool ["A"; "B"] 2 (Some sample_stats)
                               [1; 0; 2]%nat).1 = Ok res ∧
    (∀ q, q ∈ res → q_tag q ∈ ["A"; "B"]) ∧
    NoDup res ∧ Z.of_nat (length res) = 2.
Proof.
  assert (Hnd : NoDup sample_pool).
  { apply (bool_decide_unpack _). vm_compute. exact I. }
  assert (Hcount : 0 ≤ 2) by lia.
  split; [exact Hnd|]. split; [exact Hcount|].
  destruct (select_balanced_questions_contract sample_pool ["A"; "B"] 2
              (Some sample_stats) [1; 0; 2]%nat Hnd Hcount)
    as (res & Hres & Htags & Hres_nd & _ & Hlen & _).
  exists res. split; [exact Hres|]. split; [exact Htags|].
  split; [exact Hres_nd|]. rewrite Hlen. reflexivity.
Defined.

(** Three [A]s, one [B], a budget of two, statistics given. *)
Lemma select_balanced_questions_round_robin_witness :
  "A" ≠ "B" ∧
  sample_question 4 "B" 0 :: [sample_question 1 "A" 0; sample_question 2 "A" 1;
                              sample_question 3 "A" 2]
    ≡ₚ sample_pool ∧
  ∃ res,
    (select_balanced_questions
       (sample_question 4 "B" 0 :: [sample_question 1 "A" 0;
                                    sample_question 2 "A" 1;
                                    sample_question 3 "A" 2])
       ["A"; "B"] 2 (Some sample_stats) [1; 0; 2]%nat).1 = Ok res ∧
    sample_question 4 "B" 0 ∈ res ∧ length res = 2%nat.
Proof.
  assert (Hne : "A" ≠ "B") by discriminate.
  assert (Hperm : sample_question 4 "B" 0
                    :: [sample_question 1 "A" 0; sample_question 2 "A" 1;
                        sample_question 3 "A" 2] ≡ₚ sample_pool).
  { apply Permutation_cons_append. }
  split; [exact Hne|]. split; [exact Hperm|].
  apply (select_balanced_questions_round_robin "A" "B"
           (sample_question 1 "A" 0) (sample_question 2 "A" 1)
           (sample_question 3 "A" 2) (sample_question 4 "B" 0));
    [exact Hne|reflexivity..|exact Hperm| |].
  - apply list_elem_of_here.
  - apply list_elem_of_further, list_elem_of_here.
Defined.

(** A wrong answer to the first question of the sample quiz. *)
Lemma submit_answer_transition_witness :
  quiz (sample_world (Some 7) sample_quiz) = Some sample_quiz ∧
  questions sample_quiz !! current_index sample_quiz
    = Some (sample_question 1 "A" 0) ∧
  answered sample_quiz = false ∧
  (1 < length (q_options (sample_question 1 "A" 0)))%nat ∧
  ∃ w' q',
    run_script (ClickOption 1) (sample_world (Some 7) sample_quiz)
      = (Raise Rerun, w') ∧
    quiz w' = Some q' ∧ score q' = 0 ∧
    wrong_questions q' = [sample_question 1 "A" 0] ∧
    answered q' = true ∧ current_index q' = 0%nat ∧
    db_log w' = [record_answer 7 3 1 false (Some 11)].
Proof.
  assert (Hopt : (1 < length (q_options (sample_question 1 "A" 0)))%nat)
    by (cbn; lia).
  split; [reflexivity|]. split; [reflexivity|]. split; [reflexivity|].
  split; [exact Hopt|].
  destruct (submit_answer_transition (sample_world (Some 7) sample_quiz)
              sample_quiz (sample_question 1 "A" 0) 1 eq_refl eq_refl eq_refl Hopt)
    as (w' & q' & Hrun & Hq & _ & _ & Hscore & Hwrong & _ & Hans & _ & Hidx
        & _ & _ & _ & _ & _ & _ & Hlog).
  exists w', q'. split; [exact Hrun|]. split; [exact Hq|].
  assert (Hne : Z.of_nat 1 ≠ q_answer_index (sample_question 1 "A" 0))
    by (cbn; lia).
  split; [exact (proj2 Hscore Hne)|]. split; [exact (proj2 Hwrong Hne)|].
  split; [exact Hans|]. split; [exact Hidx|exact Hlog].
Defined.

Lemma sample_finished_drawable : drawable sample_finished.
Proof.
  split; [discriminate|]. split; [constructor|].
  repeat constructor; cbn; lia.
Defined.

(** "Repetir" after a round whose failed question has the answer index
    [-1], logged in: the completion view is drawn, and the next round
    starts. *)
Lemma repeat_wrong_round_witness :
  quiz (sample_world (Some 7) sample_finished_negative)
    = Some sample_finished_negative ∧
  round_over sample_finished_negative ∧
  (run_script NoClick (sample_world (Some 7) sample_finished_negative)).1 = Ok () ∧
  ¬ drawable sample_finished_negative ∧
  wrong_questions sample_finished_negative ≠ [] ∧
  ∃ w' q',
    run_script ClickRepeat (sample_world (Some 7) sample_finished_negative)
      = (Raise Rerun, w') ∧
    quiz w' = Some q' ∧
    questions q' ≡ₚ wrong_questions sample_finished_negative ∧
    current_round q' = 2 ∧
    db_log w' = [update_session_score 11 1 2; create_session 7 3 0 1].
Proof.
  assert (Hover : round_over sample_finished_negative)
    by (unfold round_over; cbn; lia).
  assert (Hdrawn : (run_script NoClick
                      (sample_world (Some 7) sample_finished_negative)).1 = Ok ())
    by reflexivity.
  assert (Hwrong : wrong_questions sample_finished_negative ≠ []) by discriminate.
  split; [reflexivity|]. split; [exact Hover|]. split; [exact Hdrawn|].
  split.
  { intros (_ & _ & Hvalid). apply Forall_cons in Hvalid as [Hneg _].
    cbn in Hneg. lia. }
  split; [exact Hwrong|].
  destruct (repeat_wrong_round (sample_world (Some 7) sample_finished_negative)
              sample_finished_negative eq_refl Hover Hdrawn)
    as [_ Hsome].
  destruct (Hsome Hwrong)
    as (w' & q' & Hrun & Hq & Hperm & Hround & _ & _ & _ & _ & _ & _ & _ & _ & Hlog).
  exists w', q'. split; [exact Hrun|]. split; [exact Hq|].
  split; [exact Hperm|]. split; [exact Hround|exact Hlog].
Defined.

(** "Repetir" for a visitor who is not logged in: the next round starts
    and no session record is opened. *)
Lemma repeat_wrong_round_counterexample :
  ∃ w' q',
    run_script ClickRepeat (sample_world None sample_finished)
      = (Raise Rerun, w') ∧
    quiz w' = Some q' ∧ current_round q' = 2 ∧
    questions q' ≡ₚ wrong_questions sample_finished ∧
    current_session_id q' = None ∧ db_log w' = [].
Proof.
  eexists _, _. split; [by vm_compute|]. split; [reflexivity|].
  cbn. split_and!; try done. apply perm_swap.
Qed.

(** The rounds 8/10 and 3/3. *)
Lemma accumulated_summary_witness :
  quiz (sample_world None sample_second_round) = Some sample_second_round ∧
  round_over sample_second_round ∧
  ∃ q',
    quiz (run_script NoClick (sample_world None sample_second_round)).2 = Some q' ∧
    (r_score <$> round_history q') = [8; 3] ∧
    (r_total <$> round_history q') = [10; 3] ∧
    metric_accumulated 11 13
      ∈ page (run_script NoClick (sample_world None sample_second_round)).2.
Proof.
  assert (Hover : round_over sample_second_round)
    by (unfold round_over; cbn; lia).
  split; [reflexivity|]. split; [exact Hover|].
  destruct (accumulated_summary (sample_world None sample_second_round)
              sample_second_round eq_refl Hover)
    as (q' & Hq & _ & _ & Hshown).
  exists q'. split; [exact Hq|].
  assert (Hq' : Some q' = quiz (run_script NoClick
                  (sample_world None sample_second_round)).2) by (by rewrite Hq).
  vm_compute in Hq'. injection Hq' as ->.
  split; [reflexivity|]. split; [reflexivity|exact Hshown].
Defined.

(** Three renderings of the completion view of a finished round, and a
    sequence of clicks that goes on into the repeat round. *)
Lemma session_score_saved_once_witness :
  quiz (sample_world (Some 7) sample_finished) = Some sample_finished ∧
  round_over sample_finished ∧
  db_log (rerender 3 (sample_world (Some 7) sample_finished))
    = [update_session_score 11 0 2] ∧
  (length (filter is_update
             (db_log (rerender 3 (sample_world (Some 7%Z) sample_finished))))
   ≤ 1)%nat ∧
  ∃ new,
    db_log (run_clicks [NoClick; NoClick; ClickRepeat; ClickOption 1; ClickNext;
                        ClickOption 0; ClickNext; NoClick]
                       (sample_world (Some 7) sample_finished)) = new ∧
    stored_once false new.
Proof.
  assert (Hover : round_over sample_finished) by (unfold round_over; cbn; lia).
  split; [reflexivity|]. split; [exact Hover|].
  destruct (session_score_saved_once (sample_world (Some 7) sample_finished)
              sample_finished 3 eq_refl) as [Hrender Hclicks].
  destruct (Hrender Hover) as (Hlog & Hcount & _).
  split; [exact Hlog|]. split; [exact Hcount|].
  destruct (Hclicks [NoClick; NoClick; ClickRepeat; ClickOption 1; ClickNext;
                     ClickOption 0; ClickNext; NoClick]) as (new & Hnew & Honce).
  exists new. split; [exact Hnew|exact Honce].
Defined.

(** An option click on an answered question, "Siguiente" on a question
    that waits for its answer, and both at the end of a round. *)
Lemma clicks_outside_their_state_witness :
  quiz (sample_world (Some 7) sample_answered) = Some sample_answered ∧
  answered_at 0 sample_answered ∧
  quiz (sample_world (Some 7) sample_quiz) = Some sample_quiz ∧
  presenting 0 sample_quiz ∧
  quiz (sample_world (Some 7) sample_finished) = Some sample_finished ∧
  round_over sample_finished ∧
  (∃ w', run_script (ClickOption 0) (sample_world (Some 7) sample_answered)
           = (Ok (), w') ∧
         quiz w' = Some sample_answered ∧ db_log w' = []) ∧
  (∃ w', run_script ClickNext (sample_world (Some 7) sample_quiz) = (Ok (), w') ∧
         quiz w' = Some sample_quiz ∧ db_log w' = []) ∧
  run_script (ClickOption 0) (sample_world (Some 7) sample_finished)
    = run_script NoClick (sample_world (Some 7) sample_finished) ∧
  run_script ClickNext (sample_world (Some 7) sample_finished)
    = run_script NoClick (sample_world (Some 7) sample_finished) ∧
  db_log (run_script ClickNext (sample_world (Some 7) sample_finished)).2
    = [update_session_score 11 0 2].
Proof.
  assert (Ha : answered_at 0 sample_answered).
  { split; [reflexivity|]. split; [cbn; lia|reflexivity]. }
  assert (Hp : presenting 0 sample_quiz).
  { split; [reflexivity|]. split; [cbn; lia|reflexivity]. }
  assert (Hover : round_over sample_finished) by (unfold round_over; cbn; lia).
  split; [reflexivity|]. split; [exact Ha|].
  split; [reflexivity|]. split; [exact Hp|].
  split; [reflexivity|]. split; [exact Hover|]. split_and!.
  - destruct (clicks_outside_their_state (sample_world (Some 7) sample_answered)
                sample_answered 0 eq_refl) as (Hans & _ & _).
    destruct (Hans Ha 0%nat) as (w' & Hrun & Hq & Hlog & _).
    exists w'. split; [exact Hrun|]. split; [exact Hq|exact Hlog].
  - destruct (clicks_outside_their_state (sample_world (Some 7) sample_quiz)
                sample_quiz 0 eq_refl) as (_ & Hpres & _).
    destruct (Hpres Hp) as (w' & Hrun & Hq & Hlog & _).
    exists w'. split; [exact Hrun|]. split; [exact Hq|exact Hlog].
  - destruct (clicks_outside_their_state (sample_world (Some 7) sample_finished)
                sample_finished 0 eq_refl) as (_ & _ & Hdone).
    exact (proj1 (Hdone Hover (ClickOption 0) (or_intror (ex_intro _ 0%nat eq_refl)))).
  - destruct (clicks_outside_their_state (sample_world (Some 7) sample_finished)
                sample_finished 0 eq_refl) as (_ & _ & Hdone).
    exact (proj1 (Hdone Hover ClickNext (or_introl eq_refl))).
  - destruct (clicks_outside_their_state (sample_world (Some 7) sample_finished)
                sample_finished 0 eq_refl) as (_ & _ & Hdone).
    destruct (Hdone Hover ClickNext (or_introl eq_refl)) as (_ & _ & _ & Hlog & _).
    exact Hlog.
Defined.

(** The two clicks end without any exception, and change nothing. *)
Lemma clicks_outside_their_state_counterexample :
  (run_script (ClickOption 0) (sample_world (Some 7) sample_answered)).1 = Ok () ∧
  quiz (run_script (ClickOption 0) (sample_world (Some 7) sample_answered)).2
    = Some sample_answered ∧
  (run_script ClickNext (sample_world (Some 7) sample_quiz)).1 = Ok () ∧
  quiz (run_script ClickNext (sample_world (Some 7) sample_quiz)).2
    = Some sample_quiz.
Proof. by vm_compute. Qed.

Lemma sample_world_ids_unique user q : ids_unique (sample_world user q).
Proof.
  intros t qs. cbn.
  intros [[_ <-]|[_ [_ <-]%lookup_singleton_Some]]%lookup_insert_Some;
    apply (bool_decide_unpack _); vm_compute; exact I.
Defined.

(** Practice from references that repeat pairs and span two tests. *)
Lemma practice_wrong_unique_witness :
  ids_unique (sample_world (Some 7) sample_quiz) ∧
  unique_wrong_refs sample_refs = dedup_first sample_refs ∧
  ∃ w' q',
    practice_wrong sample_refs (sample_world (Some 7) sample_quiz)
      = (Raise Rerun, w') ∧
    quiz w' = Some q' ∧ current_round q' = 1.
Proof.
  split; [apply sample_world_ids_unique|].
  destruct (practice_wrong_unique sample_refs (sample_world (Some 7) sample_quiz)
              (sample_world_ids_unique _ _))
    as (Hdedup & _ & _ & _ & Hin & _ & _ & Hsome).
  split; [exact Hdedup|].
  assert (Hne : resolve_tagged (sample_world (Some 7) sample_quiz)
                  (group_by_test (unique_wrong_refs sample_refs)) ≠ []).
  { assert (Href : referenced (sample_world (Some 7) sample_quiz) sample_refs 3
                     (sample_question 1 "A" 0)).
    { split; [lia|]. split; [apply list_elem_of_here|apply list_elem_of_here]. }
    apply Hin in Href. intros E. rewrite E in Href. by apply elem_of_nil in Href. }
  destruct (Hsome Hne 7 eq_refl) as (w' & q' & Hrun & Hq & _ & _ & Hround).
  exists w', q'. split; [exact Hrun|]. split; [exact Hq|exact Hround].
Defined.

(** Three references to three different pairs, one of them without a
    test: the round holds two questions, both with the id 1, and no
    question for the pair without a test. *)
Lemma practice_wrong_unique_counterexample :
  ids_unique (sample_world (Some 7) sample_quiz) ∧
  NoDup (ref_key <$> [ {| w_test_id := Some 3; w_question_id := 1 |};
                       {| w_test_id := Some 4; w_question_id := 1 |};
                       {| w_test_id := None; w_question_id := 2 |} ]) ∧
  ∃ w' q',
    practice_wrong [ {| w_test_id := Some 3; w_question_id := 1 |};
                     {| w_test_id := Some 4; w_question_id := 1 |};
                     {| w_test_id := None; w_question_id := 2 |} ]
                   (sample_world (Some 7) sample_quiz) = (Raise Rerun, w') ∧
    quiz w' = Some q' ∧
    q_id <$> questions q' = [1; 1] ∧ ¬ NoDup (q_id <$> questions q').
Proof.
  split; [apply sample_world_ids_unique|]. split.
  { apply (bool_decide_unpack _). vm_compute. exact I. }
  eexists _, _. split; [by vm_compute|]. split; [reflexivity|].
  split; [reflexivity|]. cbn.
  intros [Hnot _]%NoDup_cons. apply Hnot, list_elem_of_here.
Qed.

(** The same references: the quiz is filed under test 4, the last test
    of the grouping, and the answer to its first question, which is
    question 2 of test 3, is recorded against test 4. *)
Lemma start_quiz_from_wrong_single_test_witness :
  user_id (sample_world (Some 7) sample_quiz) = Some 7 ∧
  resolve_tagged (sample_world (Some 7) sample_quiz) (group_by_test sample_refs)
    ≠ [] ∧
  ∃ w' q',
    _start_quiz_from_wrong sample_refs (sample_world (Some 7) sample_quiz)
      = (Raise Rerun, w') ∧
    quiz w' = Some q' ∧ current_test_id q' = 4 ∧
    questions q' !! 0%nat = Some (sample_question 2 "A" 1) ∧
    (∃ w'', run_script (ClickOption 0) w' = (Raise Rerun, w'') ∧
            db_log w'' = db_log w' ++ [record_answer 7 4 2 false (Some 12)]) ∧
    ∀ evs, ∃ new,
      db_log (run_clicks evs w') = db_log w' ++ new ∧
      Forall (names_test 4) new.
Proof.
  assert (Hne : resolve_tagged (sample_world (Some 7) sample_quiz)
                               (group_by_test sample_refs) ≠ []).
  { vm_compute. discriminate. }
  split; [reflexivity|]. split; [exact Hne|].
  destruct (start_quiz_from_wrong_single_test sample_refs
              (sample_world (Some 7) sample_quiz) 7 eq_refl Hne)
    as (tid & w' & q' & Hlast & _ & Hrun & Hq & Htid & _ & _ & Hfirst & Hcalls).
  vm_compute in Hlast. injection Hlast as <-.
  assert (Hlook : questions q' !! 0%nat = Some (sample_question 2 "A" 1)).
  { assert (Hq' : quiz (_start_quiz_from_wrong sample_refs
                          (sample_world (Some 7) sample_quiz)).2 = Some q')
      by (by rewrite Hrun).
    vm_compute in Hq'. injection Hq' as <-. reflexivity. }
  exists w', q'. split; [exact Hrun|]. split; [exact Hq|].
  split; [exact Htid|]. split; [exact Hlook|]. split; [|exact Hcalls].
  apply (Hfirst ltac:(lia) (sample_question 2 "A" 1) 0%nat Hlook).
  cbn. lia.
Defined.

(** ** Further statements at sample inputs *)

(** Once a group has run empty the rotation may favour a tag: of six
    questions, three carry ["D"] and one carries ["C"]. *)
Example select_balanced_questions_uneven :
  ∃ res,
    (select_balanced_questions sample_uneven_pool ["A"; "B"; "C"; "D"] 6 None []).1
      = Ok res ∧
    count_tag "C" res = 1%nat ∧ count_tag "D" res = 3%nat ∧
    count_tag "C" sample_uneven_pool = 3%nat.
Proof. eexists. split; [by vm_compute|]. by vm_compute. Qed.

Lemma sample_quiz_fresh : fresh_quiz sample_quiz.
Proof. by repeat split. Defined.

Lemma sample_quiz_in_range : Forall answer_in_range (questions sample_quiz).
Proof. repeat constructor; cbn; lia. Defined.

Lemma select_balanced_questions_balanced_witness :
  0 ≤ 2 ∧
  (∀ t, t ∈ tags_of (filter (λ q, q_tag q ∈ ["A"; "B"]) sample_pool) →
     2 ≤ Z.of_nat (length (tags_of (filter (λ q, q_tag q ∈ ["A"; "B"]) sample_pool)))
         * Z.of_nat (count_tag t (filter (λ q, q_tag q ∈ ["A"; "B"]) sample_pool))) ∧
  ∃ res,
    (select_balanced_questions sample_pool ["A"; "B"] 2 None [1; 0; 2]%nat).1
      = Ok res ∧
    Z.of_nat (count_tag "A" res) = 1 ∧ Z.of_nat (count_tag "B" res) = 1.
Proof.
  assert (Hnum : 0 ≤ 2) by lia.
  assert (Hshare : ∀ t,
    t ∈ tags_of (filter (λ q, q_tag q ∈ ["A"; "B"]) sample_pool) →
    2 ≤ Z.of_nat (length (tags_of (filter (λ q, q_tag q ∈ ["A"; "B"]) sample_pool)))
        * Z.of_nat (count_tag t (filter (λ q, q_tag q ∈ ["A"; "B"]) sample_pool))).
  { intros t Ht. vm_compute in Ht.
    apply elem_of_cons in Ht as [->|Ht]; [by vm_compute|].
    apply elem_of_cons in Ht as [->|Ht]; [by vm_compute|].
    by apply elem_of_nil in Ht. }
  split; [exact Hnum|]. split; [exact Hshare|].
  destruct (select_balanced_questions_balanced sample_pool ["A"; "B"] 2 None
              [1; 0; 2]%nat Hnum Hshare) as (res & Hres & Hcount & _).
  exists res. split; [exact Hres|]. split.
  - exact (Hcount 0%nat "A" eq_refl).
  - exact (Hcount 1%nat "B" eq_refl).
Defined.

Lemma select_balanced_questions_covers_tags_witness :
  Z.of_nat (length (tags_of (filter (λ q, q_tag q ∈ ["A"; "B"]) sample_pool))) ≤ 2 ∧
  ∃ res,
    (select_balanced_questions sample_pool ["A"; "B"] 2 (Some sample_stats)
                               [1; 0; 2]%nat).1 = Ok res ∧
    (∃ x, x ∈ res ∧ q_tag x = "A") ∧ (∃ x, x ∈ res ∧ q_tag x = "B").
Proof.
  assert (Hnum : Z.of_nat (length (tags_of (filter (λ q, q_tag q ∈ ["A"; "B"])
                                                   sample_pool))) ≤ 2)
    by (by vm_compute).
  split; [exact Hnum|].
  destruct (select_balanced_questions_covers_tags sample_pool ["A"; "B"] 2
              (Some sample_stats) [1; 0; 2]%nat Hnum) as (res & Hres & Hcover).
  exists res. split; [exact Hres|]. split.
  - apply (Hcover (sample_question 1 "A" 0)).
    + apply list_elem_of_here.
    + apply list_elem_of_here.
  - apply (Hcover (sample_question 4 "B" 0)).
    + do 3 apply list_elem_of_further. apply list_elem_of_here.
    + apply list_elem_of_further, list_elem_of_here.
Defined.

Lemma select_balanced_questions_hardest_first_witness :
  ∃ res,
    (select_balanced_questions sample_pool ["A"; "B"] 2 (Some sample_stats)
                               [1; 0; 2]%nat).1 = Ok res ∧
    sample_question 2 "A" 1 ∈ res ∧
    (sample_question 1 "A" 0 ∉ res) ∧
    (_difficulty_score (sample_question 1 "A" 0) sample_stats
     <= _difficulty_score (sample_question 2 "A" 1) sample_stats)%Q.
Proof.
  destruct (select_balanced_questions_hardest_first sample_pool ["A"; "B"] 2
              sample_stats [1; 0; 2]%nat)
    as (res & Hres & Hhard).
  assert (Hval : Ok res = Ok [sample_question 2 "A" 1; sample_question 4 "B" 0]).
  { rewrite <- Hres. by vm_compute. }
  injection Hval as Hval.
  assert (Hin : sample_question 2 "A" 1 ∈ res).
  { rewrite Hval. apply list_elem_of_here. }
  assert (Hout : sample_question 1 "A" 0 ∉ res).
  { rewrite Hval. intros Hx.
    apply elem_of_cons in Hx as [Hx|Hx]; [discriminate|].
    apply elem_of_cons in Hx as [Hx|Hx]; [discriminate|].
    by apply elem_of_nil in Hx. }
  exists res. split; [exact Hres|]. split; [exact Hin|]. split; [exact Hout|].
  apply (Hhard _ _ Hin); [apply list_elem_of_here|apply list_elem_of_here|
                          reflexivity|exact Hout].
Defined.

Lemma start_test_empty_selection_witness :
  filter (λ q, q_tag q ∈ ["C"]) sample_pool = [] ∧
  ∃ w',
    start_test sample_get_question_stats 3 sample_pool ["C"] 5
      (sample_world (Some 7) sample_quiz) = (Raise Rerun, w') ∧
    (run_script NoClick w').1 = Raise ZeroDivisionError ∧
    (run_script ClickHome (run_clicks [NoClick; ClickRepeat] w')).1
      = Raise ZeroDivisionError.
Proof.
  assert (Hnil : filter (λ q, q_tag q ∈ ["C"]) sample_pool = []) by reflexivity.
  split; [exact Hnil|].
  destruct (start_test_empty_selection sample_get_question_stats 3 sample_pool
              ["C"] 5 (sample_world (Some 7) sample_quiz) Hnil)
    as (w' & q' & Hrun & _ & _ & Hfail).
  exists w'. split; [exact Hrun|]. split.
  - exact (proj1 (Hfail [] NoClick)).
  - exact (proj1 (Hfail [NoClick; ClickRepeat] ClickHome)).
Defined.

Lemma start_test_runs_well_witness :
  1 ≤ 2 ∧ filter (λ q, q_tag q ∈ ["A"; "B"]) sample_pool ≠ [] ∧
  Forall answer_in_range (filter (λ q, q_tag q ∈ ["A"; "B"]) sample_pool) ∧
  ∃ w',
    start_test sample_get_question_stats 3 sample_pool ["A"; "B"] 2
      (sample_world (Some 7) sample_quiz) = (Raise Rerun, w') ∧
    ends_well (run_script ClickHome (run_clicks sample_clicks w')).1.
Proof.
  assert (Hnum : 1 ≤ 2) by lia.
  assert (Hne : filter (λ q, q_tag q ∈ ["A"; "B"]) sample_pool ≠ [])
    by (by vm_compute).
  assert (Hvalid : Forall answer_in_range
                     (filter (λ q, q_tag q ∈ ["A"; "B"]) sample_pool)).
  { change (filter (λ q, q_tag q ∈ ["A"; "B"]) sample_pool) with sample_pool.
    repeat constructor; cbn; lia. }
  split; [exact Hnum|]. split; [exact Hne|]. split; [exact Hvalid|].
  destruct (start_test_runs_well sample_get_question_stats 3 sample_pool
              ["A"; "B"] 2 (sample_world (Some 7) sample_quiz) Hnum Hne Hvalid)
    as (w' & Hrun & Hwell).
  exists w'. split; [exact Hrun|]. exact (proj1 (Hwell sample_clicks) ClickHome).
Defined.

Lemma quiz_flow_score_bookkeeping_witness :
  quiz (sample_world (Some 7) sample_quiz) = Some sample_quiz ∧
  fresh_quiz sample_quiz ∧
  ∃ q,
    quiz (run_clicks [ClickOption 1; ClickNext; ClickOption 1; ClickNext]
                     (sample_world (Some 7) sample_quiz)) = Some q ∧
    round_over q ∧ score q = 1 ∧
    score q + Z.of_nat (length (wrong_questions q))
    = Z.of_nat (length (questions q)).
Proof.
  split; [reflexivity|]. split; [exact sample_quiz_fresh|].
  destruct (quiz (run_clicks [ClickOption 1; ClickNext; ClickOption 1; ClickNext]
                             (sample_world (Some 7) sample_quiz)))
    as [q|] eqn:Hq; [|vm_compute in Hq; discriminate].
  exists q. split; [reflexivity|].
  assert (Hover : round_over q).
  { vm_compute in Hq. injection Hq as <-. unfold round_over. cbn. lia. }
  assert (Hscore : score q = 1).
  { vm_compute in Hq. by injection Hq as <-. }
  split; [exact Hover|]. split; [exact Hscore|].
  destruct (quiz_flow_score_bookkeeping (sample_world (Some 7) sample_quiz)
              sample_quiz [ClickOption 1; ClickNext; ClickOption 1; ClickNext]
              eq_refl sample_quiz_fresh q Hq) as (_ & _ & _ & _ & Hsum).
  exact (Hsum Hover).
Defined.

Lemma quiz_flow_rounds_shrink_witness :
  quiz (sample_world (Some 7) sample_quiz) = Some sample_quiz ∧
  fresh_quiz sample_quiz ∧ questions sample_quiz ≠ [] ∧
  ∃ q,
    quiz (run_clicks sample_clicks (sample_world (Some 7) sample_quiz)) = Some q ∧
    current_round q = 2 ∧
    questions q ≠ [] ∧ questions q ⊆+ questions sample_quiz.
Proof.
  assert (Hne : questions sample_quiz ≠ []) by discriminate.
  split; [reflexivity|]. split; [exact sample_quiz_fresh|]. split; [exact Hne|].
  destruct (quiz (run_clicks sample_clicks (sample_world (Some 7) sample_quiz)))
    as [q|] eqn:Hq; [|vm_compute in Hq; discriminate].
  exists q. split; [reflexivity|].
  assert (Hround : current_round q = 2).
  { vm_compute in Hq. by injection Hq as <-. }
  split; [exact Hround|].
  destruct (quiz_flow_rounds_shrink (sample_world (Some 7) sample_quiz)
              sample_quiz sample_clicks eq_refl sample_quiz_fresh Hne q Hq)
    as (Hne' & Hsub & _).
  split; [exact Hne'|exact Hsub].
Defined.

Lemma quiz_flow_history_witness :
  quiz (sample_world (Some 7) sample_quiz) = Some sample_quiz ∧
  fresh_quiz sample_quiz ∧ questions sample_quiz ≠ [] ∧
  ∃ q,
    quiz (run_clicks sample_clicks (sample_world (Some 7) sample_quiz)) = Some q ∧
    length (round_history q) = 1%nat ∧
    r_round <$> round_history q = Z.of_nat <$> seq 1 (length (round_history q)) ∧
    Forall entry_ok (round_history q).
Proof.
  assert (Hne : questions sample_quiz ≠ []) by discriminate.
  split; [reflexivity|]. split; [exact sample_quiz_fresh|]. split; [exact Hne|].
  destruct (quiz (run_clicks sample_clicks (sample_world (Some 7) sample_quiz)))
    as [q|] eqn:Hq; [|vm_compute in Hq; discriminate].
  exists q. split; [reflexivity|].
  assert (Hlen : length (round_history q) = 1%nat).
  { vm_compute in Hq. by injection Hq as <-. }
  split; [exact Hlen|].
  destruct (quiz_flow_history (sample_world (Some 7) sample_quiz)
              sample_quiz sample_clicks eq_refl sample_quiz_fresh Hne q Hq)
    as (Hnum & _ & Hall & _).
  split; [exact Hnum|exact Hall].
Defined.

Lemma quiz_flow_never_raises_witness :
  quiz (sample_world (Some 7) sample_quiz) = Some sample_quiz ∧
  fresh_quiz sample_quiz ∧ questions sample_quiz ≠ [] ∧
  Forall answer_in_range (questions sample_quiz) ∧
  ends_well (run_script ClickRepeat
               (run_clicks [ClickOption 1; ClickNext; ClickOption 1; ClickNext]
                           (sample_world (Some 7) sample_quiz))).1.
Proof.
  assert (Hne : questions sample_quiz ≠ []) by discriminate.
  split; [reflexivity|]. split; [exact sample_quiz_fresh|]. split; [exact Hne|].
  split; [exact sample_quiz_in_range|].
  exact (quiz_flow_never_raises (sample_world (Some 7) sample_quiz) sample_quiz
           [ClickOption 1; ClickNext; ClickOption 1; ClickNext] ClickRepeat
           eq_refl sample_quiz_fresh Hne sample_quiz_in_range).
Defined.

Lemma quiz_flow_answers_recorded_witness :
  quiz (sample_world (Some 7) sample_quiz) = Some sample_quiz ∧
  fresh_quiz sample_quiz ∧
  truthy (user_id (sample_world (Some 7) sample_quiz)) = true ∧
  ∃ new q,
    db_log (run_clicks [ClickOption 1; ClickNext; ClickOption 1]
                       (sample_world (Some 7) sample_quiz)) = new ∧
    quiz (run_clicks [ClickOption 1; ClickNext; ClickOption 1]
                     (sample_world (Some 7) sample_quiz)) = Some q ∧
    answers_since new = [(1, false); (2, true)] ∧
    (answers_since new).*1 = q_id <$> take (answered_count q) (questions q) ∧
    Z.of_nat (length (filter (λ a, a.2 = true) (answers_since new))) = score q.
Proof.
  split; [reflexivity|]. split; [exact sample_quiz_fresh|]. split; [reflexivity|].
  destruct (quiz_flow_answers_recorded (sample_world (Some 7) sample_quiz)
              sample_quiz [ClickOption 1; ClickNext; ClickOption 1]
              eq_refl sample_quiz_fresh eq_refl) as (new & Hlog & Hnew).
  destruct (quiz (run_clicks [ClickOption 1; ClickNext; ClickOption 1]
                             (sample_world (Some 7) sample_quiz)))
    as [q|] eqn:Hq; [|vm_compute in Hq; discriminate].
  exists new, q. split; [exact Hlog|]. split; [reflexivity|].
  destruct (Hnew q eq_refl) as [Hids Hscore].
  split; [|split; [exact Hids|exact Hscore]].
  vm_compute in Hlog. rewrite <- Hlog. reflexivity.
Defined.

Lemma next_question_transition_witness :
  quiz (sample_world (Some 7) sample_answered) = Some sample_answered ∧
  (current_index sample_answered < length (questions sample_answered))%nat ∧
  answered sample_answered = true ∧
  ∃ w',
    run_script ClickNext (sample_world (Some 7) sample_answered)
      = (Raise Rerun, w') ∧
    quiz w' = Some (advanced sample_answered) ∧
    page (interact ClickNext (sample_world (Some 7) sample_answered))
    = [option_button 0; option_button 1; option_button 2; abandon_button].
Proof.
  assert (Hlt : (current_index sample_answered
                 < length (questions sample_answered))%nat) by (cbn; lia).
  split; [reflexivity|]. split; [exact Hlt|]. split; [reflexivity|].
  destruct (next_question_transition (sample_world (Some 7) sample_answered)
              sample_answered eq_refl Hlt eq_refl)
    as (w' & Hrun & Hq & _ & Hnext & _).
  exists w'. split; [exact Hrun|]. split; [exact Hq|].
  destruct (Hnext (sample_question 2 "A" 1) eq_refl) as (_ & _ & Hpage).
  exact Hpage.
Defined.

Lemma leaving_the_quiz_witness :
  quiz (sample_world (Some 7) sample_answered) = Some sample_answered ∧
  quiz (sample_world (Some 7) sample_finished) = Some sample_finished ∧
  (∃ w', run_script ClickAbandon (sample_world (Some 7) sample_answered)
           = (Raise Rerun, w') ∧ quiz w' = None ∧ db_log w' = []) ∧
  (∃ w', run_script ClickHome (sample_world (Some 7) sample_finished)
           = (Raise Rerun, w') ∧ quiz w' = None ∧
         db_log w' = [update_session_score 11 0 2]).
Proof.
  split; [reflexivity|]. split; [reflexivity|]. split.
  - destruct (leaving_the_quiz (sample_world (Some 7) sample_answered)
                sample_answered eq_refl) as [Habandon _].
    destruct Habandon as (w' & Hrun & Hq & Hlog & _).
    { unfold round_over. cbn. lia. }
    exists w'. split; [exact Hrun|]. split; [exact Hq|exact Hlog].
  - destruct (leaving_the_quiz (sample_world (Some 7) sample_finished)
                sample_finished eq_refl) as [_ Hhome].
    destruct Hhome as (w' & Hrun & Hq & Hlog & _).
    { unfold round_over. cbn. lia. }
    { exact sample_finished_drawable. }
    exists w'. split; [exact Hrun|]. split; [exact Hq|exact Hlog].
Defined.

Lemma practice_wrong_count_witness :
  ids_unique (sample_world (Some 7) sample_quiz) ∧
  user_id (sample_world (Some 7) sample_quiz) = Some 7 ∧
  resolve_tagged (sample_world (Some 7) sample_quiz)
                 (group_by_test (unique_wrong_refs sample_refs)) ≠ [] ∧
  length (unique_wrong_refs sample_refs) = 4%nat ∧
  ∃ w' q',
    practice_wrong sample_refs (sample_world (Some 7) sample_quiz)
      = (Raise Rerun, w') ∧
    quiz w' = Some q' ∧ (length (questions q') < 4)%nat.
Proof.
  assert (Hne : resolve_tagged (sample_world (Some 7) sample_quiz)
                  (group_by_test (unique_wrong_refs sample_refs)) ≠ []).
  { vm_compute. discriminate. }
  assert (Hshown : length (unique_wrong_refs sample_refs) = 4%nat) by reflexivity.
  split; [apply sample_world_ids_unique|]. split; [reflexivity|].
  split; [exact Hne|]. split; [exact Hshown|].
  destruct (practice_wrong_count sample_refs (sample_world (Some 7) sample_quiz) 7
              (sample_world_ids_unique _ _) eq_refl Hne)
    as (w' & q' & Hrun & Hq & _ & _ & Hless).
  exists w', q'. split; [exact Hrun|]. split; [exact Hq|].
  rewrite <- Hshown. apply Hless.
  exists {| w_test_id := None; w_question_id := 2 |}. split; [|reflexivity].
  do 3 apply list_elem_of_further. apply list_elem_of_here.
Defined.

Lemma sample_four_options_in_range : answer_in_range sample_four_options.
Proof. unfold answer_in_range. cbn. lia. Defined.

Lemma remove_option_keeps_answer_witness :
  answer_in_range sample_four_options ∧
  (2 < length (q_options sample_four_options))%nat ∧
  ∃ q', remove_option sample_four_options = Some q' ∧
        q_options q' = ["a"; "b"; "c"] ∧ q_answer_index q' = 2 ∧
        answer_in_range q'.
Proof.
  assert (Hlen : (2 < length (q_options sample_four_options))%nat) by (cbn; lia).
  split; [exact sample_four_options_in_range|]. split; [exact Hlen|].
  destruct (remove_option_keeps_answer sample_four_options
              sample_four_options_in_range Hlen)
    as (q' & o & Hrm & _ & _ & Hrange & _).
  exists q'. split; [exact Hrm|].
  assert (Hq' : Some q' = remove_option sample_four_options) by (by rewrite Hrm).
  vm_compute in Hq'. injection Hq' as Hq'.
  split; [by rewrite Hq'|]. split; [by rewrite Hq'|exact Hrange].
Defined.

Lemma add_then_remove_option_witness :
  answer_in_range sample_four_options ∧
  (2 ≤ length (q_options sample_four_options))%nat ∧
  q_options (add_option sample_four_options) = ["a"; "b"; "c"; "d"; "Opcion 5"] ∧
  remove_option (add_option sample_four_options) = Some sample_four_options.
Proof.
  assert (Hlen : (2 ≤ length (q_options sample_four_options))%nat) by (cbn; lia).
  split; [exact sample_four_options_in_range|]. split; [exact Hlen|].
  destruct (add_then_remove_option sample_four_options
              sample_four_options_in_range Hlen) as (_ & Hadd & Hback).
  split; [|exact Hback]. rewrite Hadd. reflexivity.
Defined.

Lemma sample_stuck_stuck : stuck sample_stuck.
Proof.
  split; [unfold round_over; cbn; lia|]. split; [discriminate|].
  split; [constructor|]. apply Exists_cons. left.
  unfold python_index_ok. cbn. lia.
Defined.

Lemma completion_view_bad_answer_index_witness :
  quiz (sample_world (Some 7) sample_stuck) = Some sample_stuck ∧
  stuck sample_stuck ∧
  (run_script ClickHome (sample_world (Some 7) sample_stuck)).1 = Raise IndexError ∧
  (run_script ClickRepeat
     (run_clicks [NoClick; ClickHome] (sample_world (Some 7) sample_stuck))).1
  = Raise IndexError.
Proof.
  split; [reflexivity|]. split; [exact sample_stuck_stuck|].
  pose proof (completion_view_bad_answer_index (sample_world (Some 7) sample_stuck)
                sample_stuck eq_refl sample_stuck_stuck) as Hfail.
  split.
  - exact (proj1 (Hfail [] ClickHome)).
  - exact (proj1 (Hfail [NoClick; ClickHome] ClickRepeat)).
Defined.

Lemma anonymous_quiz_writes_nothing_witness :
  truthy (user_id (sample_world None sample_quiz)) = false ∧
  db_log (run_clicks sample_clicks (sample_world None sample_quiz)) = [] ∧
  ∃ w',
    start_test sample_get_question_stats 3 sample_pool ["A"; "B"] 2
      (sample_world None sample_quiz) = (Raise Rerun, w') ∧
    db_log (run_clicks sample_clicks w') = [].
Proof.
  split; [reflexivity|].
  destruct (anonymous_quiz_writes_nothing sample_get_question_stats 3 sample_pool
              ["A"; "B"] 2 (sample_world None sample_quiz) eq_refl)
    as (Hclicks & w' & q' & Hrun & _ & _ & Hlater).
  split; [exact (Hclicks sample_clicks)|].
  exists w'. split; [exact Hrun|]. exact (proj1 (Hlater sample_clicks)).
Defined.

Lemma quiz_flow_session_filing_witness :
  quiz (sample_world (Some 7) sample_quiz) = Some sample_quiz ∧
  truthy (user_id (sample_world (Some 7) sample_quiz)) = true ∧
  ∃ new,
    db_log (run_clicks sample_clicks (sample_world (Some 7) sample_quiz)) = new ∧
    filed_under 12 (Some 11) new ∧
    new = [record_answer 7 3 1 false (Some 11); record_answer 7 3 2 true (Some 11);
           update_session_score 11 1 2; create_session 7 3 0 1;
           record_answer 7 3 1 true (Some 12)].
Proof.
  split; [reflexivity|]. split; [reflexivity|].
  destruct (quiz_flow_session_filing (sample_world (Some 7) sample_quiz)
              sample_quiz sample_clicks eq_refl eq_refl)
    as (new & Hlog & Hfiled & _).
  exists new. split; [exact Hlog|]. split; [exact Hfiled|].
  vm_compute in Hlog. rewrite <- Hlog. reflexivity.
Defined.

Lemma start_test_scores_add_up_witness :
  ∃ w' new,
    start_test sample_get_question_stats 3 sample_pool ["A"; "B"] 2
      (sample_idle_world (Some 7)) = (Raise Rerun, w') ∧
    db_log (run_clicks sample_clicks w') = new ∧ scored None new.
Proof.
  destruct (start_test_scores_add_up sample_get_question_stats 3 sample_pool
              ["A"; "B"] 2 (sample_idle_world (Some 7)))
    as (w' & Hrun & Hscored).
  destruct (Hscored sample_clicks) as (new & Hlog & Hnew).
  exists w', new. split; [exact Hrun|]. split; [exact Hlog|exact Hnew].
Defined.

Lemma start_test_score_stored_witness :
  truthy (user_id (sample_idle_world (Some 7))) = true ∧
  quiz (sample_idle_world (Some 7)) = None ∧
  0 < db_next_session (sample_idle_world (Some 7)) ∧
  ∃ w' q new,
    start_test sample_get_question_stats 3 sample_pool ["A"; "B"] 2
      (sample_idle_world (Some 7)) = (Raise Rerun, w') ∧
    quiz (run_clicks [ClickOption 0; ClickNext; ClickOption 0; ClickNext] w')
      = Some q ∧
    round_over q ∧
    db_log (run_clicks [ClickOption 0; ClickNext; ClickOption 0; ClickNext] w')
      = new ∧
    stored_since new = Some (12, score q, 2).
Proof.
  assert (Hnext : 0 < db_next_session (sample_idle_world (Some 7))) by (cbn; lia).
  split; [reflexivity|]. split; [reflexivity|]. split; [exact Hnext|].
  destruct (start_test_score_stored sample_get_question_stats 3 sample_pool
              ["A"; "B"] 2 (sample_idle_world (Some 7)) eq_refl eq_refl
              Hnext) as (w' & Hrun & Hstored).
  assert (Hw : w' = (start_test sample_get_question_stats 3 sample_pool
                       ["A"; "B"] 2 (sample_idle_world (Some 7))).2)
    by (by rewrite Hrun).
  destruct (quiz (run_clicks [ClickOption 0; ClickNext; ClickOption 0; ClickNext] w'))
    as [q|] eqn:Hq; [|rewrite Hw in Hq; vm_compute in Hq; discriminate].
  pose proof Hq as Hq'. rewrite Hw in Hq'. vm_compute in Hq'.
  injection Hq' as <-.
  destruct (Hstored _ _ Hq eq_refl) as (sid & new & Hsid & Hlog & Hnew).
  injection Hsid as <-.
  eexists w', _, new. split; [exact Hrun|]. split; [exact Hq|].
  split; [unfold round_over; cbn; lia|]. split; [exact Hlog|exact Hnew].
Defined.

Lemma bad_answer_index_blocks_quiz_witness :
  quiz (sample_world (Some 7) sample_bad_quiz) = Some sample_bad_quiz ∧
  fresh_quiz sample_bad_quiz ∧
  sample_bad_question ∈ questions sample_bad_quiz ∧
  ¬ python_index_ok sample_bad_question ∧
  ∃ q,
    quiz (run_clicks [ClickOption 0; ClickNext; ClickOption 1; ClickNext]
                     (sample_world (Some 7) sample_bad_quiz)) = Some q ∧
    round_over q ∧ sample_bad_question ∈ wrong_questions q ∧
    (run_script ClickHome
       (run_clicks [ClickOption 0; ClickNext; ClickOption 1; ClickNext]
                   (sample_world (Some 7) sample_bad_quiz))).1
    = Raise IndexError.
Proof.
  assert (Hfresh : fresh_quiz sample_bad_quiz) by (by repeat split).
  assert (Hin : sample_bad_question ∈ questions sample_bad_quiz).
  { apply list_elem_of_further, list_elem_of_here. }
  assert (Hbad : ¬ python_index_ok sample_bad_question).
  { unfold python_index_ok. cbn. lia. }
  split; [reflexivity|]. split; [exact Hfresh|]. split; [exact Hin|].
  split; [exact Hbad|].
  destruct (quiz (run_clicks [ClickOption 0; ClickNext; ClickOption 1; ClickNext]
                             (sample_world (Some 7) sample_bad_quiz)))
    as [q|] eqn:Hq; [|vm_compute in Hq; discriminate].
  pose proof Hq as Hq'. vm_compute in Hq'. injection Hq' as <-.
  assert (Hover : round_over
            {| questions := [sample_question 1 "A" 0; sample_bad_question];
               current_index := 2%nat; answered := false; score := 1;
               selected_answer := None;
               wrong_questions := [sample_bad_question];
               round_history :=
                 [ {| r_round := 1; r_score := 1; r_total := 2;
                      r_wrong := [sample_bad_question] |} ];
               current_round := 1; current_test_id := 3;
               current_session_id := Some 11;
               session_score_saved := Some true |}).
  { unfold round_over. cbn. lia. }
  destruct (bad_answer_index_blocks_quiz (sample_world (Some 7) sample_bad_quiz)
              sample_bad_quiz sample_bad_question
              [ClickOption 0; ClickNext; ClickOption 1; ClickNext]
              eq_refl Hfresh Hin Hbad _ Hq) as (_ & _ & Hwrong & Hfail).
  eexists. split; [reflexivity|]. split; [exact Hover|].
  split; [apply list_elem_of_here|]. exact (Hfail Hover ClickHome).
Defined.

Lemma sample_world_in_range user q : stored_in_range (sample_world user q).
Proof.
  intros t qs. cbn.
  intros [[_ <-]|[_ [_ <-]%lookup_singleton_Some]]%lookup_insert_Some;
    repeat constructor; cbn; lia.
Defined.

Lemma practice_round_runs_well_witness :
  user_id (sample_world (Some 7) sample_quiz) = Some 7 ∧ 7 ≠ 0 ∧
  stored_in_range (sample_world (Some 7) sample_quiz) ∧
  resolve_tagged (sample_world (Some 7) sample_quiz)
                 (group_by_test (unique_wrong_refs sample_refs)) ≠ [] ∧
  ∃ w' new,
    practice_wrong sample_refs (sample_world (Some 7) sample_quiz)
      = (Raise Rerun, w') ∧
    ends_well (run_script ClickHome (run_clicks sample_clicks w')).1 ∧
    db_log (run_clicks sample_clicks w') = new ∧ scored None new.
Proof.
  assert (Hu0 : 7 ≠ 0) by lia.
  assert (Hne : resolve_tagged (sample_world (Some 7) sample_quiz)
                  (group_by_test (unique_wrong_refs sample_refs)) ≠ []).
  { vm_compute. discriminate. }
  split; [reflexivity|]. split; [exact Hu0|].
  split; [apply sample_world_in_range|]. split; [exact Hne|].
  destruct (practice_round_runs_well sample_refs (sample_world (Some 7) sample_quiz)
              7 eq_refl Hu0 (sample_world_in_range _ _) Hne)
    as (w' & Hrun & Hwell).
  destruct (Hwell sample_clicks) as (Hends & new & Hlog & Hscored & _).
  exists w', new. split; [exact Hrun|]. split; [exact (Hends ClickHome)|].
  split; [exact Hlog|exact Hscored].
Defined.

Lemma sample_stats_nonneg i st :
  sample_stats !! i = Some st → 0 ≤ correct st ∧ 0 ≤ wrong st.
Proof.
  unfold sample_stats.
  intros [[_ <-]|[_ [_ <-]%lookup_singleton_Some]]%lookup_insert_Some; cbn; lia.
Defined.

Lemma difficulty_score_order_witness :
  (∀ i st, sample_stats !! i = Some st → 0 ≤ correct st ∧ 0 ≤ wrong st) ∧
  (_difficulty_score (sample_question 1 "A" 0) sample_stats
   <= _difficulty_score (sample_question 2 "A" 1) sample_stats)%Q ∧
  (_difficulty_score (sample_question 3 "A" 2) sample_stats
   <= _difficulty_score (sample_question 2 "A" 1) sample_stats)%Q.
Proof.
  split; [exact sample_stats_nonneg|]. split.
  - destruct (difficulty_score_order (sample_question 1 "A" 0)
                (sample_question 2 "A" 1) sample_stats sample_stats_nonneg)
      as [Hboth _].
    apply (Hboth {| correct := 1; wrong := 1 |} {| correct := 0; wrong := 3 |});
      [reflexivity|reflexivity|cbn; lia|cbn; lia|cbn; lia].
  - destruct (difficulty_score_order (sample_question 3 "A" 2)
                (sample_question 2 "A" 1) sample_stats sample_stats_nonneg)
      as [_ Hunseen].
    destruct (Hunseen {| correct := 0; wrong := 3 |}) as [Hle _];
      [reflexivity|reflexivity|cbn; lia|].
    apply Hle. cbn. lia.
Defined.
